(** * MochiMaker: the N-up layout and whitespace-trim engine of [src/main.py]

    A shallow embedding of [choose_auto_grid], [nonwhite_bbox_pixmap],
    [estimate_content_clip] and [build_nup_from_multiple], and the properties
    of them that the design document states; then of the handlers of the
    window around them (the file list, saving, and the page and zoom
    controls of the preview), with further properties read off the code.

    Conventions of the embedding.
    - A Python [float] is the rational in [Q] that it stands for, and the
      arithmetic of the layout (the sizes in points, the cells of the grid,
      the rectangles of the slots and of the text boxes) rounds every
      result to binary64 as Python does; overflow and NaN, which lengths on
      paper are far from, are left out.  Python [int] is [Z] ([//] and [%]
      are [Z.div] and [Z.modulo], which round like Python's).
    - Pixel samples are [Byte.byte], so a channel value lies in 0..255.
    - An exception is a constructor of [exn]; code that can raise returns a
      [result], and the nested placement loops, which can [return] from
      inside, run in [flow].  The [try ... finally] around the pages of a
      source is [finally_close]: its [src.close()] raises when the source
      is closed already, and what it raises replaces the outcome of the
      [try].
    - PyMuPDF is outside the repository.  A source page is its rectangle and
      what [get_pixmap] yields; a source document is the list of its pages,
      so [for pno in range(len(src))] with [src.load_page(pno)] runs over
      the pages with their numbers; an output page is the sequence of
      drawing calls made on it.  Calls into PyMuPDF that can raise on the
      arguments the code passes ([fitz.open], [get_pixmap],
      [fitz.Pixmap(pix, 0)], [transform_rect], [show_pdf_page]) are
      variables of the section [Fitz]; [insert_textbox] is only recorded.
      The rectangles of the estimator, whose coordinates are whole numbers
      of pixels scaled by 1, are computed exactly.
    - Qt and the operating system are outside the repository as well.  The
      list widget is the list of its items and a selection is a predicate on
      its rows; [os.path.isfile], [os.path.join] and [os.path.basename] are
      arguments of the functions that call them, and so is the writing of
      the file by [out.save]; the scale of the preview is an exact
      rational, and rendering a page that the document has is taken to
      succeed. *)

From Stdlib Require Import String Strings.Byte DecimalString.
From Stdlib Require Import ZArith QArith Qminmax Qround Qpower.
From Stdlib Require Import List Permutation Bool Lia Lqa.
Import ListNotations.

Local Open Scope Z_scope.

(** ** Numbers *)

(** [a < b] on floats, as a boolean. *)
Definition Qlt_bool (a b : Q) : bool := negb (Qle_bool b a).

(** *** Binary64 arithmetic

    A finite Python float is the rational it stands for, and an arithmetic
    operation gives the binary64 value nearest to the exact result, ties to
    the even mantissa: 53 bits of mantissa, exponents from -1074 up. *)

Definition pow2 (e : Z) : Q := (2 ^ e)%Q.

(** The [k] with [2^k <= x < 2^(k+1)], for [0 < x]. *)
Definition ilog2 (x : Q) : Z :=
  let k := Z.log2 (Qnum x) - Z.log2 (Zpos (Qden x)) in
  if Qle_bool (pow2 k) x then k else k - 1.

(** The nearest integer, the even one of two that are as near. *)
Definition rne (x : Q) : Z :=
  let f := Qfloor x in
  match (x - inject_Z f ?= 1 # 2)%Q with
  | Lt => f
  | Gt => f + 1
  | Eq => if Z.even f then f else f + 1
  end.

(** The exponent of the last bit of the binary64 values around [x]. *)
Definition fexp (x : Q) : Z := Z.max (-1074) (ilog2 x - 52).

(** The multiple of [2^e] nearest to [x]. *)
Definition round_at (e : Z) (x : Q) : Q := (inject_Z (rne (x / pow2 e)) * pow2 e)%Q.

Definition round_pos (x : Q) : Q := round_at (fexp x) x.

(** The binary64 value nearest to [x]. *)
Definition fl (x : Q) : Q :=
  match (0 ?= x)%Q with
  | Lt => round_pos x
  | Eq => 0%Q
  | Gt => (- round_pos (- x))%Q
  end.

(** [a + b], [a - b], [a * b] and [a / b] on floats. *)
Definition fadd (a b : Q) : Q := fl (a + b).
Definition fsub (a b : Q) : Q := fl (a - b).
Definition fmul (a b : Q) : Q := fl (a * b).
Definition fdiv (a b : Q) : Q := fl (a / b).

(** A Python [int] as an operand of float arithmetic. *)
Definition float_of_int (z : Z) : Q := fl (inject_Z z).

Definition PT_PER_INCH : Q := 72.
Definition MM_PER_INCH : Q := fl (254 # 10).

Definition mm_to_pt (mm : Q) : Q := fmul (fdiv mm MM_PER_INCH) PT_PER_INCH.

(** An integer as a coordinate of a rectangle of PyMuPDF. *)
Definition of_int (z : Z) : Q := inject_Z z.

(** ** Paper sizes *)

Definition sizes_mm : list (string * (Q * Q)) :=
  [ ("A4"%string,     (210, 297)%Q);
    ("A3"%string,     (297, 420)%Q);
    ("Letter"%string, (fl (2159 # 10), fl (2794 # 10))) ].

Fixpoint lookup {A} (name : string) (d : list (string * A)) : option A :=
  match d with
  | [] => None
  | (k, v) :: d' => if String.eqb name k then Some v else lookup name d'
  end.

Definition paper_size_pt (name : string) (landscape : bool) : Q * Q :=
  let name := match lookup name sizes_mm with
              | None => "A4"%string
              | Some _ => name
              end in
  let '(w_mm, h_mm) := match lookup name sizes_mm with
                       | Some s => s
                       | None => (210, 297)%Q
                       end in
  let '(w_mm, h_mm) := if landscape then (h_mm, w_mm) else (w_mm, h_mm) in
  (mm_to_pt w_mm, mm_to_pt h_mm).

(** ** Parameters *)

Record LayoutParams := mkLayoutParams {
  rows : Z;
  cols : Z;
  margin_mm : Q;
  gap_mm : Q;
  auto_readable : bool;
  min_slide_w_mm : Q
}.

Record BuildParams := mkBuildParams {
  paper : string;
  landscape : bool;
  layout : LayoutParams;
  trim_whitespace : bool;
  trim_threshold : Z;
  draw_page_numbers : bool;
  draw_cell_indices : bool;
  cell_index_font_pt : Q;
  page_number_font_pt : Q
}.

(** ** Grid chooser *)

Definition CANDIDATE_GRIDS : list (Z * Z) :=
  [ (1,1); (1,2); (2,1); (2,2);
    (2,3); (3,2);
    (3,3);
    (2,4); (4,2);
    (3,4); (4,3);
    (4,4) ].

(** [(usable - (n-1)*gap_pt)/n], the extent of one cell when [n] cells share
    [usable]; the code writes it for [cell_w], [cell_h] and [bw]. *)
Definition cell_extent (usable gap_pt : Q) (n : Z) : Q :=
  fdiv (fsub usable (fmul (float_of_int (n - 1)) gap_pt)) (float_of_int n).

(** One iteration of the loop over the candidates. *)
Definition grid_step (usable_w usable_h gap_pt min_w_pt : Q)
    (best : Z * Z) (rc : Z * Z) : Z * Z :=
  let '(r, c) := rc in
  let cell_w := cell_extent usable_w gap_pt c in
  let cell_h := cell_extent usable_h gap_pt r in
  if Qle_bool min_w_pt cell_w then
    if fst best * snd best <? r * c then (r, c)
    else if r * c =? fst best * snd best then
      let bw := cell_extent usable_w gap_pt (snd best) in
      if Qlt_bool bw cell_w then (r, c) else best
    else best
  else best.

Definition choose_auto_grid (paper_pt : Q * Q) (layout : LayoutParams) : Z * Z :=
  let margin_pt := mm_to_pt (margin_mm layout) in
  let gap_pt := mm_to_pt (gap_mm layout) in
  let '(page_w, page_h) := paper_pt in
  let usable_w := fsub page_w (fmul 2 margin_pt) in
  let usable_h := fsub page_h (fmul 2 margin_pt) in
  fold_left (grid_step usable_w usable_h gap_pt (mm_to_pt (min_slide_w_mm layout)))
            CANDIDATE_GRIDS (1, 1).

(** The cell width the chooser computes for a grid with [c] columns. *)
Definition grid_cell_w (paper_pt : Q * Q) (layout : LayoutParams) (c : Z) : Q :=
  cell_extent (fsub (fst paper_pt) (fmul 2 (mm_to_pt (margin_mm layout))))
              (mm_to_pt (gap_mm layout)) c.

(** A grid whose cell width reaches the minimum slide width. *)
Definition qualifies (paper_pt : Q * Q) (layout : LayoutParams) (rc : Z * Z) : Prop :=
  (mm_to_pt (min_slide_w_mm layout) <= grid_cell_w paper_pt layout (snd rc))%Q.

Definition slot_count (rc : Z * Z) : Z := fst rc * snd rc.

(** What the loop of [choose_auto_grid] knows about [best] once the
    candidates [seen] are done. *)
Definition grid_inv (usable_w gap_pt min_w_pt : Q) (seen : list (Z * Z))
    (best : Z * Z) : Prop :=
  (best = (1, 1) \/
   (In best seen /\ (min_w_pt <= cell_extent usable_w gap_pt (snd best))%Q)) /\
  forall rc, In rc seen -> (min_w_pt <= cell_extent usable_w gap_pt (snd rc))%Q ->
    (min_w_pt <= cell_extent usable_w gap_pt (snd best))%Q /\
    slot_count rc <= slot_count best /\
    (slot_count rc = slot_count best ->
     (cell_extent usable_w gap_pt (snd rc) <= cell_extent usable_w gap_pt (snd best))%Q).

(** ** Exceptions and early return *)

Inductive exn : Set :=
| ZeroDivisionError
| IndexError
| AttributeError
| ValueError
| FitzError.

Inductive result (A : Type) : Type :=
| Ok (a : A)
| Raise (e : exn).
Arguments Ok {A} a.
Arguments Raise {A} e.

Definition bind {A B} (m : result A) (k : A -> result B) : result B :=
  match m with
  | Ok a => k a
  | Raise e => Raise e
  end.

Notation "x <- m ;; k" := (bind m (fun x => k))
  (at level 61, m at next level, right associativity).

(** A [for] loop whose body may raise. *)
Fixpoint for_in {A S} (xs : list A) (body : S -> A -> result S) (s : S) : result S :=
  match xs with
  | [] => Ok s
  | x :: xs' => s' <- body s x ;; for_in xs' body s'
  end.

(** The outcome of a loop body that may also [return] from the function. *)
Inductive flow (S R : Type) : Type :=
| Continue (s : S)
| Return (r : R)
| Throw (e : exn).
Arguments Continue {S R} s.
Arguments Return {S R} r.
Arguments Throw {S R} e.

Fixpoint for_flow {A S R} (xs : list A) (body : S -> A -> flow S R) (s : S) : flow S R :=
  match xs with
  | [] => Continue s
  | x :: xs' =>
      match body s x with
      | Continue s' => for_flow xs' body s'
      | Return r => Return r
      | Throw e => Throw e
      end
  end.

(** [x / n] with a float [x] and an int [n]. *)
Definition float_div_int (x : Q) (n : Z) : result Q :=
  if n =? 0 then Raise ZeroDivisionError else Ok (fdiv x (float_of_int n)).

(** [f"{n}"] for an int. *)
Definition str (n : Z) : string := NilZero.string_of_int (Z.to_int n).

(** ** Rectangles, matrices, pixmaps and pages of PyMuPDF *)

Record Rect := mkRect { x0 : Q; y0 : Q; x1 : Q; y1 : Q }.

(** [a + b] for two rectangles: coordinate by coordinate. *)
Definition Rect_add (a b : Rect) : Rect :=
  mkRect (x0 a + x0 b) (y0 a + y0 b) (x1 a + x1 b) (y1 a + y1 b)%Q.

Definition is_empty (r : Rect) : bool :=
  Qle_bool (x1 r) (x0 r) || Qle_bool (y1 r) (y0 r).

(** [a & r], which is [Rect(a).intersect(r)]: an empty operand is the
    result, otherwise the larger lower edges and the smaller upper edges.
    The infinite rectangle, which no page and no box of pixels is, is left
    out. *)
Definition Rect_and (a r : Rect) : Rect :=
  if is_empty r then r
  else if is_empty a then a
  else mkRect (if Qlt_bool (x0 a) (x0 r) then x0 r else x0 a)
              (if Qlt_bool (y0 a) (y0 r) then y0 r else y0 a)
              (if Qlt_bool (x1 r) (x1 a) then x1 r else x1 a)
              (if Qlt_bool (y1 r) (y1 a) then y1 r else y1 a).

(** Truth value of a rectangle: false only for [Rect(0,0,0,0)]. *)
Definition Rect_bool (r : Rect) : bool :=
  let hi := Qmax (Qmax (x0 r) (y0 r)) (Qmax (x1 r) (y1 r)) in
  let lo := Qmin (Qmin (x0 r) (y0 r)) (Qmin (x1 r) (y1 r)) in
  negb (Qeq_bool hi lo && Qeq_bool lo 0).

(** [fitz.Matrix(sx, sy)], a scaling. *)
Record Matrix := mkMatrix { sx : Q; sy : Q }.

(** The bounding box of the scaled corners of [r]. *)
Definition scaled_rect (m : Matrix) (r : Rect) : Rect :=
  mkRect (Qmin (x0 r * sx m) (x1 r * sx m)) (Qmin (y0 r * sy m) (y1 r * sy m))
         (Qmax (x0 r * sx m) (x1 r * sx m)) (Qmax (y0 r * sy m) (y1 r * sy m)).

Record Pixmap := mkPixmap {
  alpha : bool;
  width : nat;
  height : nat;
  n : nat;
  samples : list byte
}.

(** A source page: [rect] and the outcome of [get_pixmap(matrix, alpha)]. *)
Record Page := mkPage {
  rect : Rect;
  get_pixmap : Matrix -> bool -> result Pixmap
}.

(** A source document is its pages in native order. *)
Definition Document := list Page.

(** A drawing call on an output page.  [show_pdf_page] is always called with
    [keep_proportion=True] and [insert_textbox] with font helv in black; the
    source document is named by its path. *)
Inductive DrawOp :=
| ShowPdfPage (dest : Rect) (src : string) (pno : nat) (clip : Rect)
| InsertTextbox (box : Rect) (text : string) (fontsize : Q) (align : Z).

(** An output page: its size and the calls made on it, oldest first. *)
Record OutPage := mkOutPage {
  page_w : Q;
  page_h : Q;
  ops : list DrawOp
}.

Definition OutPage_rect (p : OutPage) : Rect := mkRect 0 0 (page_w p) (page_h p).

Definition add_op (p : OutPage) (op : DrawOp) : OutPage :=
  mkOutPage (page_w p) (page_h p) (ops p ++ [op]).

(** [out.new_page(width, height)] appends an empty page. *)
Definition new_page (out : list OutPage) (w h : Q) : list OutPage :=
  out ++ [mkOutPage w h []].

(** A call on [out_page].  [out_page] is [None] until the first [new_page]
    and then always the page appended last. *)
Definition on_out_page (out : list OutPage) (op : DrawOp) : result (list OutPage) :=
  match rev out with
  | [] => Raise AttributeError
  | p :: before => Ok (rev before ++ [add_op p op])
  end.

(** ** Content-bounds estimator: the scan *)

Definition byte_val (b : byte) : Z := Z.of_N (Byte.to_N b).

(** [row[i]] *)
Definition index (row : list byte) (i : nat) : result Z :=
  match nth_error row i with
  | Some b => Ok (byte_val b)
  | None => Raise IndexError
  end.

(** [data[a:b]] for [0 <= a <= b]. *)
Definition slice (data : list byte) (a b : nat) : list byte :=
  firstn (b - a) (skipn a data).

(** [xmin, ymin, xmax, ymax] *)
Definition Bounds : Type := Z * Z * Z * Z.

(** The body of the loop over [x]. *)
Definition scan_pixel (threshold : Z) (ncomp : nat) (row : list byte) (y : nat)
    (acc : Bounds) (x : nat) : result Bounds :=
  r <- index row (x * ncomp) ;;
  g <- index row (x * ncomp + 1) ;;
  b <- index row (x * ncomp + 2) ;;
  let '(xmin, ymin, xmax, ymax) := acc in
  if Z.min (Z.min r g) b <? threshold then
    let xmin := if Z.of_nat x <? xmin then Z.of_nat x else xmin in
    let ymin := if Z.of_nat y <? ymin then Z.of_nat y else ymin in
    let xmax := if xmax <? Z.of_nat x then Z.of_nat x else xmax in
    let ymax := if ymax <? Z.of_nat y then Z.of_nat y else ymax in
    Ok (xmin, ymin, xmax, ymax)
  else Ok acc.

(** The body of the loop over [y]. *)
Definition scan_row (threshold : Z) (w ncomp : nat) (data : list byte)
    (acc : Bounds) (y : nat) : result Bounds :=
  let row_start := (y * w * ncomp)%nat in
  let row := slice data row_start (row_start + w * ncomp) in
  for_in (seq 0 w) (scan_pixel threshold ncomp row y) acc.

(** The three channels the scan reads for the pixel at [(x, y)]. *)
Definition pixel (pix : Pixmap) (x y : nat) : result (Z * Z * Z) :=
  let row_start := (y * width pix * n pix)%nat in
  let row := slice (samples pix) row_start (row_start + width pix * n pix) in
  r <- index row (x * n pix) ;;
  g <- index row (x * n pix + 1) ;;
  b <- index row (x * n pix + 2) ;;
  Ok (r, g, b).

(** No pixel of [pix] is darker than [threshold] in any channel. *)
Definition blank (pix : Pixmap) (threshold : Z) : Prop :=
  forall x y r g b, (x < width pix)%nat -> (y < height pix)%nat ->
    pixel pix x y = Ok (r, g, b) -> threshold <= Z.min (Z.min r g) b.

(** [inner] lies within [outer], edge by edge. *)
Definition Rect_within (inner outer : Rect) : Prop :=
  (x0 outer <= x0 inner /\ y0 outer <= y0 inner /\
   x1 inner <= x1 outer /\ y1 inner <= y1 outer)%Q.

(** The point [(x, y)] lies in [r]. *)
Definition in_rect (r : Rect) (x y : Q) : Prop :=
  (x0 r <= x /\ x <= x1 r /\ y0 r <= y /\ y <= y1 r)%Q.

(** ** Geometry of the output grid *)

Record Geometry := mkGeometry {
  g_page_w : Q;
  g_page_h : Q;
  g_cols : Z;
  g_margin : Q;
  g_gap : Q;
  g_cell_w : Q;
  g_cell_h : Q;
  g_total_slots : Z
}.

(** The destination rectangle of slot [slot_used]. *)
Definition slot_rect (g : Geometry) (slot_used : Z) : Rect :=
  let r := slot_used / g_cols g in
  let c := slot_used mod g_cols g in
  let x0 := fadd (g_margin g) (fmul (float_of_int c) (fadd (g_cell_w g) (g_gap g))) in
  let y0 := fadd (g_margin g) (fmul (float_of_int r) (fadd (g_cell_h g) (g_gap g))) in
  mkRect x0 y0 (fadd x0 (g_cell_w g)) (fadd y0 (g_cell_h g)).

(** The box of the running index, at the top right of the cell [rect]. *)
Definition index_box (rect : Rect) : Rect :=
  let pad := mm_to_pt (25 # 10) in
  let box_w := mm_to_pt 10 in
  let box_h := mm_to_pt 6 in
  mkRect (fsub (fsub (x1 rect) box_w) pad) (fadd (y0 rect) pad)
         (fsub (x1 rect) pad) (fadd (fadd (y0 rect) pad) box_h).

(** The box of the footer, at the bottom right of the output page. *)
Definition footer_box (page : OutPage) : Rect :=
  let pad := mm_to_pt 6 in
  let box_w := mm_to_pt 40 in
  let box_h := mm_to_pt 10 in
  let r := OutPage_rect page in
  mkRect (fsub (fsub (x1 r) box_w) pad) (fsub (fsub (y1 r) box_h) pad)
         (fsub (x1 r) pad) (fsub (y1 r) pad).

Definition footer_text (page_idx1 total_pages : Z) : string :=
  (str page_idx1 ++ " / " ++ str total_pages)%string.

Definition draw_page_number_footer (params : BuildParams)
    (page : OutPage) (page_idx1 total_pages : Z) : OutPage :=
  if negb (draw_page_numbers params) then page
  else add_op page (InsertTextbox (footer_box page)
                      (footer_text page_idx1 total_pages)
                      (page_number_font_pt params) 2).

(** [for i in range(total_out)] over the pages from index [i] on. *)
Fixpoint stamp_from (params : BuildParams) (i total_out : Z)
    (pages : list OutPage) : list OutPage :=
  match pages with
  | [] => []
  | page :: rest =>
      draw_page_number_footer params page (i + 1) total_out
        :: stamp_from params (i + 1) total_out rest
  end.

(** The footer pass over the finished pages. *)
Definition stamp_footers (params : BuildParams) (out : list OutPage) : list OutPage :=
  let total_out := Z.of_nat (length out) in
  stamp_from params 0 total_out out.

(** The variables the placement loops update. *)
Record BuildState := mkBuildState {
  out : list OutPage;
  slot_used : Z;
  global_page_index : Z
}.

(** The head of [build_nup_from_multiple]: the grid in use, chosen or as
    given, and the sizes computed from it. *)
Definition grid_of (params : BuildParams) : Z * Z :=
  if auto_readable (layout params)
  then choose_auto_grid (paper_size_pt (paper params) (landscape params)) (layout params)
  else (rows (layout params), cols (layout params)).

Definition geometry_of (params : BuildParams) : result Geometry :=
  let '(page_w, page_h) := paper_size_pt (paper params) (landscape params) in
  let '(rows, cols) := grid_of params in
  let margin := mm_to_pt (margin_mm (layout params)) in
  let gap := mm_to_pt (gap_mm (layout params)) in
  let usable_w := fsub page_w (fmul 2 margin) in
  let usable_h := fsub page_h (fmul 2 margin) in
  cell_w <- float_div_int (fsub usable_w (fmul (float_of_int (cols - 1)) gap)) cols ;;
  cell_h <- float_div_int (fsub usable_h (fmul (float_of_int (rows - 1)) gap)) rows ;;
  let total_slots := rows * cols in
  Ok (mkGeometry page_w page_h cols margin gap cell_w cell_h total_slots).

(** ** Reading the result *)

(** The [show_pdf_page] calls among [l], in order. *)
Fixpoint shown (l : list DrawOp) : list (Rect * string * nat * Rect) :=
  match l with
  | [] => []
  | ShowPdfPage dest src pno clip :: l' => (dest, src, pno, clip) :: shown l'
  | InsertTextbox _ _ _ _ :: l' => shown l'
  end.

(** The texts among [l], in order. *)
Fixpoint texts (l : list DrawOp) : list string :=
  match l with
  | [] => []
  | ShowPdfPage _ _ _ _ :: l' => texts l'
  | InsertTextbox _ text _ _ :: l' => text :: texts l'
  end.

(** [l] cut into runs of [size]: run [i] is [l[i*size : i*size + size]], and
    a shorter last run is kept. *)
Definition chunks {A} (size : nat) (l : list A) : list (list A) :=
  map (fun i => firstn size (skipn (i * size) l))
      (seq 0 ((length l + size - 1) / size)).

(** [f 0 a0; f 1 a1; ...] *)
Fixpoint imap_from {A B} (k : nat) (f : nat -> A -> B) (l : list A) : list B :=
  match l with
  | [] => []
  | a :: l' => f k a :: imap_from (S k) f l'
  end.

Section Fitz.

(** ** The collaborators *)

(** [fitz.open(path)]: the document at [path], or an exception. *)
Variable fitz_open : string -> result Document.

(** [fitz.Pixmap(pix, 0)]: a copy of [pix] without its alpha channel. *)
Variable Pixmap_drop_alpha : Pixmap -> result Pixmap.

(** [m.transform_rect(r)], which returns a rectangle or raises. *)
Variable Matrix_transform_rect : Matrix -> Rect -> result Rect.

(** Whether [out_page.show_pdf_page(rect, src, pno, clip=clip)] returns or
    raises; PyMuPDF raises, for one, when [rect] or the clipped source page
    is empty, or when the source page has no contents. *)
Variable show_pdf_page : Rect -> string -> nat -> Rect -> result unit.

(** ** Content-bounds estimator *)

(** The pixmap the scan reads. *)
Definition without_alpha (pix : Pixmap) : result Pixmap :=
  if alpha pix then Pixmap_drop_alpha pix else Ok pix.

(** The body of the [try] of [nonwhite_bbox_pixmap]. *)
Definition nonwhite_bbox_try (pix : Pixmap) (threshold : Z) : result (option Rect) :=
  pix <- without_alpha pix ;;
  let w := width pix in
  let h := height pix in
  let data := samples pix in
  let ncomp := n pix in
  bounds <- for_in (seq 0 h) (scan_row threshold w ncomp data)
                   (Z.of_nat w, Z.of_nat h, -1, -1) ;;
  let '(xmin, ymin, xmax, ymax) := bounds in
  if xmax <? 0 then Ok None
  else Ok (Some (mkRect (of_int xmin) (of_int ymin)
                        (of_int (xmax + 1)) (of_int (ymax + 1)))).

Definition nonwhite_bbox_pixmap (pix : Pixmap) (threshold : Z) : option Rect :=
  match nonwhite_bbox_try pix threshold with
  | Ok r => r
  | Raise _ => None
  end.

(** [not bbox_px] *)
Definition falsy (bbox_px : option Rect) : bool :=
  match bbox_px with
  | None => true
  | Some r => negb (Rect_bool r)
  end.

(** The body of the [try] of [estimate_content_clip]. *)
Definition estimate_content_try (src_page : Page) (threshold : Z) : result Rect :=
  let target_dpi := 72%Q in
  let zoom := (target_dpi / 72)%Q in
  let mat := mkMatrix zoom zoom in
  pix <- get_pixmap src_page mat false ;;
  let bbox_px := nonwhite_bbox_pixmap pix threshold in
  if falsy bbox_px then Ok (rect src_page)
  else
    match bbox_px with
    | None => Ok (rect src_page)
    | Some bbox_px =>
        let inv := mkMatrix (1 / zoom) (1 / zoom) in
        rect_pt <- Matrix_transform_rect inv bbox_px ;;
        let rect_pt := Rect_add rect_pt (mkRect (-2) (-2) 2 2) in
        Ok (Rect_and rect_pt (rect src_page))
    end.

Definition estimate_content_clip (src_page : Page) (threshold : Z) : Rect :=
  match estimate_content_try src_page threshold with
  | Ok r => r
  | Raise _ => rect src_page
  end.

(** ** Page compositor *)

(** The first loop over the sources, which only counts their pages. *)
Definition count_input_pages (src_files : list string) : Z :=
  fold_left (fun total path =>
               match fitz_open path with
               | Ok d => total + Z.of_nat (length d)
               | Raise _ => total
               end) src_files 0.

(** The clip rectangle of a source page. *)
Definition clip_of (params : BuildParams) (sp : Page) : Rect :=
  if trim_whitespace params
  then estimate_content_clip sp (trim_threshold params)
  else rect sp.

(** [src.close()]: PyMuPDF raises ValueError("document closed") for a
    document that is closed already; [closed] tells whether [src] is. *)
Definition Document_close (closed : bool) : result unit :=
  if closed then Raise ValueError else Ok tt.

(** The body of the loop over the pages of one source, for the page number
    [pno] and [sp = src.load_page(pno)].  The source is open while the body
    runs; the branch of the bound closes it, stamps the footers and returns
    the document, and it is the only place of the body that does either. *)
Definition place_page(params : BuildParams) (g : Geometry)
    (stop_after_pages : option Z) (path : string)
    (st : BuildState) (page : nat * Page) : flow BuildState (list OutPage) :=
  let '(pno, sp) := page in
  let out := if slot_used st =? 0
             then new_page (out st) (g_page_w g) (g_page_h g)
             else out st in
  let rect := slot_rect g (slot_used st) in
  let clip_rect := clip_of params sp in
  match (_ <- show_pdf_page rect path pno clip_rect ;;
         on_out_page out (ShowPdfPage rect path pno clip_rect)) with
  | Raise e => Throw e
  | Ok out =>
  let global_page_index := global_page_index st + 1 in
  match (if draw_cell_indices params
         then on_out_page out (InsertTextbox (index_box rect) (str global_page_index)
                                 (cell_index_font_pt params) 2)
         else Ok out) with
  | Raise e => Throw e
  | Ok out =>
  let slot_used := slot_used st + 1 in
  if g_total_slots g <=? slot_used then
    let slot_used := 0 in
    match stop_after_pages with
    | Some k =>
        if k <=? Z.of_nat (length out)
        then
          match Document_close false with
          | Raise e => Throw e
          | Ok _ => Return (stamp_footers params out)
          end
        else Continue (mkBuildState out slot_used global_page_index)
    | None => Continue (mkBuildState out slot_used global_page_index)
    end
  else Continue (mkBuildState out slot_used global_page_index)
  end end.

(** What a [try] block that ended as [tried] becomes when its [finally]
    runs [src.close()]: an exception of the [finally] replaces a return
    value or an exception of the block.  The block leaves [src] closed
    exactly when it returned, since its only return follows its only
    [src.close()]. *)
Definition finally_close {St R : Type} (tried : flow St R) : flow St R :=
  let closed := match tried with Return _ => true | _ => false end in
  match Document_close closed with
  | Raise e => Throw e
  | Ok _ => tried
  end.

(** The body of the loop over the sources: a source that does not open is
    skipped, one that opens has its pages placed in a [try] whose [finally]
    closes it. *)
Definition place_source (params : BuildParams) (g : Geometry)
    (stop_after_pages : option Z) (st : BuildState) (path : string)
    : flow BuildState (list OutPage) :=
  match fitz_open path with
  | Raise _ => Continue st
  | Ok src =>
      finally_close
        (for_flow (imap_from 0 pair src) (place_page params g stop_after_pages path) st)
  end.

Definition build_nup_from_multiple (src_files : list string) (params : BuildParams)
    (stop_after_pages : option Z) : result (list OutPage) :=
  g <- geometry_of params ;;
  let total_input_pages := count_input_pages src_files in
  match for_flow src_files (place_source params g stop_after_pages)
                 (mkBuildState [] 0 0) with
  | Throw e => Raise e
  | Return out => Ok out
  | Continue st => Ok (stamp_footers params (out st))
  end.

(** ** The placements the design document describes *)

(** The pages of the sources that open, in the order of the list and, within
    a source, in native order. *)
Definition source_pages (src_files : list string) : list (string * nat * Page) :=
  flat_map (fun path =>
              match fitz_open path with
              | Ok src => imap_from 0 (fun pno sp => (path, pno, sp)) src
              | Raise _ => []
              end) src_files.

(** The body of the two loops as one loop over [source_pages]. *)
Definition place_item (params : BuildParams) (g : Geometry)
    (stop_after_pages : option Z) (st : BuildState) (item : string * nat * Page)
    : flow BuildState (list OutPage) :=
  let '(path, pno, sp) := item in
  place_page params g stop_after_pages path st (pno, sp).

(** The data model's bounds on the fixed grid: at least one row and column. *)
Definition wf_layout (l : LayoutParams) : Prop := 1 <= rows l /\ 1 <= cols l.

(** The placement of the source page that is the [k]-th to be placed. *)
Definition placement (params : BuildParams) (g : Geometry) (k : nat)
    (item : string * nat * Page) : Rect * string * nat * Rect :=
  let '(path, pno, sp) := item in
  (slot_rect g (Z.of_nat k mod g_total_slots g), path, pno, clip_of params sp).

(** The [show_pdf_page] call for a placement, and PyMuPDF accepting the
    call for the [k]-th source page. *)
Definition show_placement (p : Rect * string * nat * Rect) : result unit :=
  let '(rect, path, pno, clip) := p in show_pdf_page rect path pno clip.

Definition accepted (params : BuildParams) (g : Geometry) (k : nat)
    (item : string * nat * Page) : Prop :=
  show_placement (placement params g k item) = Ok tt.

(** It accepts the calls for [items], the first of which is the [from]-th
    source page. *)
Definition all_accepted (params : BuildParams) (g : Geometry) (from : nat)
    (items : list (string * nat * Page)) : Prop :=
  forall j item, nth_error items j = Some item -> accepted params g (from + j) item.

(** The calls that place the [k]-th source page. *)
Definition placement_ops (params : BuildParams) (g : Geometry) (k : nat)
    (item : string * nat * Page) : list DrawOp :=
  let '(path, pno, sp) := item in
  let rect := slot_rect g (Z.of_nat k mod g_total_slots g) in
  ShowPdfPage rect path pno (clip_of params sp)
    :: (if draw_cell_indices params
        then [InsertTextbox (index_box rect) (str (Z.of_nat k + 1))
                (cell_index_font_pt params) 2]
        else []).

(** The output pages before the footer pass: [size] source pages each. *)
Definition placed_pages (params : BuildParams) (g : Geometry)
    (items : list (string * nat * Page)) : list OutPage :=
  map (fun run => mkOutPage (g_page_w g) (g_page_h g) (concat run))
      (chunks (Z.to_nat (g_total_slots g)) (imap_from 0 (placement_ops params g) items)).

(** ** Vocabulary of the properties *)

(** What the estimator rasterizes: the page at 72 dpi, without alpha. *)
Definition rasterized (src_page : Page) : result Pixmap :=
  get_pixmap src_page (mkMatrix (72 / 72) (72 / 72)) false.

(** The estimator has no box for the page: rasterizing raises; or the scan
    raises or has no pixmap to read; or the pixmap it reads has no pixel
    below [threshold]; or mapping the box of the scan back to the page
    raises. *)
Definition no_estimate (src_page : Page) (threshold : Z) : Prop :=
  (exists e, rasterized src_page = Raise e) \/
  (exists pix, rasterized src_page = Ok pix /\
     ((exists e, nonwhite_bbox_try pix threshold = Raise e) \/
      (forall pix', without_alpha pix = Ok pix' -> blank pix' threshold) \/
      (exists bbox_px e,
         nonwhite_bbox_pixmap pix threshold = Some bbox_px /\
         Matrix_transform_rect (mkMatrix (1 / (72 / 72)) (1 / (72 / 72))) bbox_px
           = Raise e))).

(** [params] with the two trim settings replaced. *)
Definition with_trim (trim : bool) (threshold : Z) (params : BuildParams) : BuildParams :=
  mkBuildParams (paper params) (landscape params) (layout params)
                trim threshold
                (draw_page_numbers params) (draw_cell_indices params)
                (cell_index_font_pt params) (page_number_font_pt params).

(** What the placement loops know once the source pages [items] are placed,
    when no output page was cut short. *)
Definition placing (params : BuildParams) (g : Geometry)
    (items : list (string * nat * Page)) (st : BuildState) : Prop :=
  out st = placed_pages params g items /\
  slot_used st = Z.of_nat (length items) mod g_total_slots g /\
  global_page_index st = Z.of_nat (length items).

(** ** Two documents, of three and of two pages *)

(** A page that cannot be rasterized. *)
Definition ex_page (w h : Q) : Page :=
  mkPage (mkRect 0 0 w h) (fun _ _ => Raise FitzError).

Definition ex_D1 : Document := [ex_page 595 842; ex_page 595 842; ex_page 842 595].
Definition ex_D2 : Document := [ex_page 612 792; ex_page 612 792].

(** Only d1.pdf and d2.pdf open. *)
Definition ex_open (path : string) : result Document :=
  if String.eqb path "d1.pdf" then Ok ex_D1
  else if String.eqb path "d2.pdf" then Ok ex_D2
  else Raise FitzError.

Definition ex_drop_alpha (pix : Pixmap) : result Pixmap := Raise FitzError.

Definition ex_transform_rect (m : Matrix) (r : Rect) : result Rect :=
  Ok (scaled_rect m r).

(** [m.transform_rect(r)] with PyMuPDF as it is: its [Matrix] has no
    attribute [transform_rect] (a rectangle is transformed by
    [Rect.transform] or by [rect * matrix]), so the call raises
    AttributeError whatever [m] and [r] are. *)
Definition fitz_Matrix_transform_rect (m : Matrix) (r : Rect) : result Rect :=
  Raise AttributeError.

(** Empty rectangles are rejected. *)
Definition ex_show_pdf_page (rect : Rect) (src : string) (pno : nat) (clip : Rect)
    : result unit :=
  if is_empty rect || is_empty clip then Raise FitzError else Ok tt.

(** A4 upright, 2x2, page numbers and running indices drawn, no trimming. *)
Definition ex_params : BuildParams :=
  mkBuildParams "A4" false (mkLayoutParams 2 2 10 4 false 90)
                false 245 true true 7 9.

(** A white page of 10x10 pixels with one black pixel at (5, 5). *)
Definition ex_dotted_page : Page :=
  mkPage (mkRect 0 0 10 10)
         (fun _ _ => Ok (mkPixmap false 10 10 3
                           (repeat xff 165 ++ [x00; x00; x00] ++ repeat xff 132))).

(** ** Vocabulary of further properties *)

(** A grid with [c] columns has cells that are wide enough. *)
Definition fits (paper_pt : Q * Q) (layout : LayoutParams) (c : Z) : bool :=
  Qle_bool (mm_to_pt (min_slide_w_mm layout)) (grid_cell_w paper_pt layout c).

(** The pixel at [(x, y)] of [pix] is below [threshold] in some channel. *)
Definition dark (pix : Pixmap) (threshold : Z) (x y : nat) : Prop :=
  exists r g b, pixel pix x y = Ok (r, g, b) /\ Z.min (Z.min r g) b < threshold.

(** A pixmap of at least three components per pixel, without alpha, whose
    samples are all there. *)
Definition rgb_pixmap (pix : Pixmap) : Prop :=
  alpha pix = false /\ (3 <= n pix)%nat /\
  (width pix * height pix * n pix <= length (samples pix))%nat.

(** The pixels the scan has read when it is about to read [(x0, y0)]. *)
Definition read_before (pix : Pixmap) (x0 y0 : nat) (x y : nat) : Prop :=
  (x < width pix)%nat /\ ((y < y0)%nat \/ (y = y0 /\ (x < x0)%nat)).

(** What the scan knows of its bounds when the pixels [seen] are read:
    they are as at the start and no pixel read is dark, or they enclose the
    dark pixels read and each is the coordinate of one of them. *)
Definition bounds_inv (pix : Pixmap) (threshold : Z) (seen : nat -> nat -> Prop)
    (acc : Bounds) : Prop :=
  let '(xmin, ymin, xmax, ymax) := acc in
  ((forall x y, seen x y -> ~ dark pix threshold x y) /\
   acc = (Z.of_nat (width pix), Z.of_nat (height pix), -1, -1)) \/
  ((forall x y, seen x y -> dark pix threshold x y ->
      xmin <= Z.of_nat x <= xmax /\ ymin <= Z.of_nat y <= ymax) /\
   (exists x y, seen x y /\ dark pix threshold x y /\ Z.of_nat x = xmin) /\
   (exists x y, seen x y /\ dark pix threshold x y /\ Z.of_nat x = xmax) /\
   (exists x y, seen x y /\ dark pix threshold x y /\ Z.of_nat y = ymin) /\
   (exists x y, seen x y /\ dark pix threshold x y /\ Z.of_nat y = ymax)).

(** The number of slots of an output page, rows times columns. *)
Definition slots_per_page (params : BuildParams) : nat :=
  Z.to_nat (fst (grid_of params) * snd (grid_of params)).

(** The output page has the size of the paper. *)
Definition paper_sized (params : BuildParams) (page : OutPage) : Prop :=
  (page_w page, page_h page) = paper_size_pt (paper params) (landscape params).

(** The left edge of a column and the top edge of a row. *)
Definition slot_edge (g : Geometry) (extent : Q) (k : Z) : Q :=
  fadd (g_margin g) (fmul (float_of_int k) (fadd extent (g_gap g))).

(** ** Further examples *)

(** The pixmap of [ex_dotted_page]. *)
Definition ex_dotted_pixmap : Pixmap :=
  mkPixmap false 10 10 3 (repeat xff 165 ++ [x00; x00; x00] ++ repeat xff 132).

(** A grayscale pixmap of 2x2 pixels, one component each. *)
Definition ex_gray_pixmap : Pixmap := mkPixmap false 2 2 1 [xff; x00; xff; xff].

(** torn.pdf has an empty page between two A4 pages. *)
Definition ex_open_torn (path : string) : result Document :=
  if String.eqb path "torn.pdf"
  then Ok [ex_page 595 842; ex_page 0 0; ex_page 595 842]
  else ex_open path.

(** [ex_params] without the running indices. *)
Definition ex_params_plain : BuildParams :=
  mkBuildParams "A4" false (mkLayoutParams 2 2 10 4 false 90)
                false 245 true false 7 9.

(** [ex_params] with a fixed grid of two rows and no column. *)
Definition ex_params_no_cols : BuildParams :=
  mkBuildParams "A4" false (mkLayoutParams 2 0 10 4 false 90)
                false 245 true true 7 9.

(** ** The file list of the window *)

(** An entry of the list widget: the name and the page count that its text
    shows, and its tooltip, which holds the full path. *)
Record ListItem := mkListItem {
  shown_name : string;
  shown_pages : nat;
  toolTip : string
}.

(** [list_widget.takeItem(r)]: the item at row [r], if there is one, and
    the list without it. *)
Definition takeItem {A} (list_widget : list A) (r : nat) : option A * list A :=
  (nth_error list_widget r, firstn r list_widget ++ skipn (S r) list_widget).

(** [list_widget.insertItem(r, item)] *)
Definition insertItem {A} (list_widget : list A) (r : nat) (item : A) : list A :=
  firstn r list_widget ++ item :: skipn r list_widget.

(** [sorted(set([i.row() for i in list_widget.selectedIndexes()]))], for the
    selection given as the predicate [selected] on the rows of the list. *)
Definition selected_rows {A} (list_widget : list A) (selected : nat -> bool) : list nat :=
  filter selected (seq 0 (length list_widget)).

(** The body of the loop of [move_up].  The rows come from the selection,
    so [takeItem] finds an item at each. *)
Definition move_up_row {A} (list_widget : list A) (r : nat) : list A :=
  if (r =? 0)%nat then list_widget
  else
    match takeItem list_widget r with
    | (Some item, rest) => insertItem rest (r - 1) item
    | (None, rest) => rest
    end.

Definition move_up {A} (list_widget : list A) (selected : nat -> bool) : list A :=
  let rows := selected_rows list_widget selected in
  fold_left move_up_row rows list_widget.

(** The body of the loop of [move_down]. *)
Definition move_down_row {A} (list_widget : list A) (r : nat) : list A :=
  if (Z.of_nat r =? Z.of_nat (length list_widget) - 1) then list_widget
  else
    match takeItem list_widget r with
    | (Some item, rest) => insertItem rest (r + 1) item
    | (None, rest) => rest
    end.

Definition move_down {A} (list_widget : list A) (selected : nat -> bool) : list A :=
  let rows := rev (selected_rows list_widget selected) in
  fold_left move_down_row rows list_widget.

Definition remove_selected {A} (list_widget : list A) (selected : nat -> bool) : list A :=
  let rows := rev (selected_rows list_widget selected) in
  fold_left (fun list_widget r => snd (takeItem list_widget r)) rows list_widget.

Definition get_file_list (list_widget : list ListItem) : list string :=
  map toolTip list_widget.

(** The items of [l] at the rows from [k] on that [keep] holds of. *)
Fixpoint rows_kept {A} (keep : nat -> bool) (k : nat) (l : list A) : list A :=
  match l with
  | [] => []
  | a :: l' => if keep k then a :: rows_kept keep (S k) l' else rows_kept keep (S k) l'
  end.

(** The body of the loop of [_append_files]: a path that is not a file is
    skipped, and so is one that does not open (with a warning). *)
Definition append_file (isfile : string -> bool) (basename : string -> string)
    (list_widget : list ListItem) (p : string) : list ListItem :=
  if negb (isfile p) then list_widget
  else
    match fitz_open p with
    | Ok doc => list_widget ++ [mkListItem (basename p) (length doc) p]
    | Raise _ => list_widget
    end.

Definition _append_files (isfile : string -> bool) (basename : string -> string)
    (list_widget : list ListItem) (paths : list string) : list ListItem :=
  fold_left (append_file isfile basename) paths list_widget.

(** The numbers that [update_info_label] writes, the files and the pages;
    [None] stands for the text it shows for an empty list. *)
Definition update_info_label (list_widget : list ListItem) : option (nat * Z) :=
  let files := get_file_list list_widget in
  match files with
  | [] => None
  | _ :: _ => Some (length files, count_input_pages files)
  end.

(** The page count an item shows is that of the document at its path. *)
Definition listed (item : ListItem) : Prop :=
  exists doc, fitz_open (toolTip item) = Ok doc /\ shown_pages item = length doc.

(** ** Saving *)

(** [s.rstrip("/")] *)
Fixpoint rstrip_slash (s : string) : string :=
  match s with
  | EmptyString => EmptyString
  | String c s' =>
      match rstrip_slash s' with
      | EmptyString => if String.eqb (String c EmptyString) "/" then EmptyString
                        else String c EmptyString
      | t => String c t
      end
  end.

(** [os.path.join(folder, f"{base_name}_{i+1}.pdf")] *)
Definition save_name (join : string -> string -> string) (folder base_name : string)
    (i : nat) : string :=
  join folder (base_name ++ "_" ++ str (Z.of_nat i + 1) ++ ".pdf")%string.

(** The loop over the names with its [else]: the first name that is not a
    file, or [None] when the loop runs to its end. *)
Fixpoint first_free (isfile : string -> bool) (names : list string) : option string :=
  match names with
  | [] => None
  | file_name :: rest =>
      if negb (isfile file_name) then Some file_name else first_free isfile rest
  end.

(** [out.save(file_name)]: PyMuPDF raises ValueError for a document without
    pages; otherwise the file is written, which the file system may refuse
    ([write]). *)
Definition Document_save (write : list OutPage -> string -> result unit)
    (out : list OutPage) (file_name : string) : result unit :=
  match out with
  | [] => Raise ValueError
  | _ :: _ => write out file_name
  end.

(** How [save_pdf] ends. *)
Inductive SaveOutcome :=
| NothingToSave                  (* no input file: [gather_params] warns *)
| SaveError (e : exn)            (* the build or the save raised: the [except] warns *)
| NoFolderChosen                 (* the folder dialog was cancelled *)
| NoNameFree                     (* all the names are files *)
| Saves (file_name : string) (out : list OutPage).  (* [out.save(file_name)] returned *)

(** [save_pdf], for the folder that the dialog returns (empty when it is
    cancelled) and the parameters that the widgets hold. *)
Definition save_pdf (isfile : string -> bool) (join : string -> string -> string)
    (basename : string -> string) (write : list OutPage -> string -> result unit)
    (list_widget : list ListItem) (params : BuildParams)
    (folder : string) : SaveOutcome :=
  let files := get_file_list list_widget in
  match files with
  | [] => NothingToSave
  | _ :: _ =>
      match build_nup_from_multiple files params None with
      | Raise e => SaveError e
      | Ok out =>
          if String.eqb folder "" then NoFolderChosen
          else
            let base_name :=
              let b := basename (rstrip_slash folder) in
              if String.eqb b "" then "output"%string else b in
            match first_free isfile
                    (map (save_name join folder base_name) (seq 0 1000)) with
            | None => NoNameFree
            | Some file_name =>
                match Document_save write out file_name with
                | Raise e => SaveError e
                | Ok _ => Saves file_name out
                end
            end
      end
  end.

(** ** The preview: pages *)

(** [preview_doc] and [preview_current_page] of the window. *)
Record Preview := mkPreview {
  preview_doc : option (list OutPage);
  preview_current_page : Z
}.

(** [doc.load_page(index)] for [0 <= index], which PyMuPDF refuses when the
    document has no such page. *)
Definition load_page (doc : list OutPage) (index : Z) : result OutPage :=
  match nth_error doc (Z.to_nat index) with
  | Some page => Ok page
  | None => Raise FitzError
  end.

Definition _show_preview_page (st : Preview) (index : Z) : result Preview :=
  match preview_doc st with
  | None => Ok st
  | Some doc =>
      let index := Z.max 0 (Z.min index (Z.of_nat (length doc) - 1)) in
      _ <- load_page doc index ;;
      Ok (mkPreview (Some doc) index)
  end.

Definition prev_page (st : Preview) : result Preview :=
  match preview_doc st with
  | None => Ok st
  | Some doc =>
      if 0 <? preview_current_page st
      then _show_preview_page st (preview_current_page st - 1)
      else Ok st
  end.

Definition next_page (st : Preview) : result Preview :=
  match preview_doc st with
  | None => Ok st
  | Some doc =>
      if preview_current_page st <? Z.of_nat (length doc) - 1
      then _show_preview_page st (preview_current_page st + 1)
      else Ok st
  end.

(** [_jump_to_page_from_indicator], for what [int] makes of the text of the
    indicator: a number, or [None] when it raises.  Every exception is
    caught and leaves the state as it is. *)
Definition _jump_to_page_from_indicator (st : Preview) (n : option Z) : result Preview :=
  match preview_doc st with
  | None => Ok st
  | Some doc =>
      match n with
      | None => Ok st
      | Some n =>
          match _show_preview_page st (n - 1) with
          | Ok st' => Ok st'
          | Raise _ => Ok st
          end
      end
  end.

(** What the user does with the page controls. *)
Inductive PageAction :=
| PrevPage
| NextPage
| JumpTo (n : option Z).

Definition page_action (st : Preview) (a : PageAction) : result Preview :=
  match a with
  | PrevPage => prev_page st
  | NextPage => next_page st
  | JumpTo n => _jump_to_page_from_indicator st n
  end.

(** ** The preview: zoom *)

(** [_pix_item] (whether there is one) and [_scale] of the view. *)
Record PreviewView := mkPreviewView {
  has_pix_item : bool;
  _scale : Q
}.

(** [_applyZoom]; the division by the old scale raises when that is zero. *)
Definition _applyZoom (v : PreviewView) (factor : Q) : result PreviewView :=
  if negb (has_pix_item v) then Ok v
  else
    let old_scale := _scale v in
    let scaled := (_scale v * factor)%Q in
    let capped := if Qlt_bool scaled 10 then scaled else 10%Q in
    let new_scale := if Qlt_bool (5 # 100) capped then capped else (5 # 100)%Q in
    if Qeq_bool old_scale 0 then Raise ZeroDivisionError
    else Ok (mkPreviewView (has_pix_item v) new_scale).

Definition zoomIn (v : PreviewView) : result PreviewView := _applyZoom v (125 # 100).
Definition zoomOut (v : PreviewView) : result PreviewView := _applyZoom v (8 # 10).

(** [wheelEvent] with the Ctrl key, for the angle of the wheel. *)
Definition wheelEvent (v : PreviewView) (angle : Z) : result PreviewView :=
  let factor := if 0 <? angle then (125 # 100)%Q else (8 # 10)%Q in
  _applyZoom v factor.

Definition resetZoom (v : PreviewView) : PreviewView :=
  mkPreviewView (has_pix_item v) 1.

(** [fitWidth], for the widths of the viewport and of the pixmap. *)
Definition fitWidth (v : PreviewView) (view_w pix_w : Z) : PreviewView :=
  if negb (has_pix_item v) then v
  else if pix_w <=? 0 then v
  else
    let target_scale := (of_int (view_w - 20) / of_int pix_w)%Q in
    if Qle_bool target_scale 0 then v
    else mkPreviewView (has_pix_item v) target_scale.

(** What the user does with the zoom controls. *)
Inductive ZoomAction :=
| ZoomIn
| ZoomOut
| Wheel (angle : Z)
| ResetZoom
| FitWidth (view_w pix_w : Z).

Definition zoom_action (v : PreviewView) (a : ZoomAction) : result PreviewView :=
  match a with
  | ZoomIn => zoomIn v
  | ZoomOut => zoomOut v
  | Wheel angle => wheelEvent v angle
  | ResetZoom => Ok (resetZoom v)
  | FitWidth view_w pix_w => Ok (fitWidth v view_w pix_w)
  end.

(** ** Vocabulary of the properties of the window *)

(** [os.path.basename(folder.rstrip("/")) or "output"] *)
Definition base_name_of (basename : string -> string) (folder : string) : string :=
  let b := basename (rstrip_slash folder) in
  if String.eqb b "" then "output"%string else b.

(** The page [current] is a page of [doc], or the page 0 of a document that
    has none. *)
Definition page_in_range (doc : list OutPage) (current : Z) : Prop :=
  0 <= current <= Z.max 0 (Z.of_nat (length doc) - 1).

(** * Properties *)

(** ** Binary64 rounding *)

Lemma pow2_pos e : (0 < pow2 e)%Q.
Proof. apply Qpower_0_lt. reflexivity. Qed.

Lemma pow2_le e1 e2 : e1 <= e2 -> (pow2 e1 <= pow2 e2)%Q.
Proof. intro H. apply Qpower_le_compat_l; [exact H | discriminate]. Qed.

Lemma pow2_add a b : (pow2 (a + b) == pow2 a * pow2 b)%Q.
Proof. apply Qpower_plus. discriminate. Qed.

Lemma pow2_Z n : 0 <= n -> (inject_Z (2 ^ n) == pow2 n)%Q.
Proof. intro H. apply Zpower_Qpower, H. Qed.

Lemma ilog2_spec (x : Q) :
  (0 < x)%Q -> (pow2 (ilog2 x) <= x)%Q /\ (x < pow2 (ilog2 x + 1))%Q.
Proof.
  intro Hx. destruct x as [n d]. unfold ilog2. cbn [Qnum Qden].
  assert (Hn : 0 < n) by (unfold Qlt in Hx; cbn in Hx; lia).
  set (a := Z.log2 n). set (b := Z.log2 (Z.pos d)).
  destruct (Z.log2_spec n Hn) as [Ha1 Ha2]. fold a in Ha1, Ha2.
  destruct (Z.log2_spec (Z.pos d) ltac:(lia)) as [Hb1 Hb2]. fold b in Hb1, Hb2.
  assert (Ha0 : 0 <= a) by apply Z.log2_nonneg.
  assert (Hb0 : 0 <= b) by apply Z.log2_nonneg.
  assert (Hd : (0 < inject_Z (Z.pos d))%Q) by reflexivity.
  assert (Hnd : (n # d == inject_Z n / inject_Z (Z.pos d))%Q) by apply Qmake_Qdiv.
  pose proof (pow2_pos (a - b)) as Hk. pose proof (pow2_pos (a - b - 1)) as Hk'.
  pose proof (pow2_pos (a - b + 1)) as Hk''.
  destruct (Qle_bool (pow2 (a - b)) (n # d)) eqn:E.
  - apply Qle_bool_iff in E. split; [exact E|].
    rewrite Hnd. apply Qlt_shift_div_r; [exact Hd|].
    (* n < 2^(a+1) = pow2 (a-b+1) * 2^b <= pow2 (a-b+1) * d *)
    apply Qlt_le_trans with (pow2 (a - b + 1) * inject_Z (2 ^ b))%Q.
    + rewrite (pow2_Z b Hb0), <- pow2_add.
      replace (a - b + 1 + b) with (a + 1) by lia.
      rewrite <- (pow2_Z (a + 1)) by lia. rewrite <- Zlt_Qlt.
      replace (a + 1) with (Z.succ a) by lia. exact Ha2.
    + apply Qmult_le_l; [exact Hk''|]. rewrite <- Zle_Qle. exact Hb1.
  - assert (E' : (n # d < pow2 (a - b))%Q).
    { apply Qnot_le_lt. intro H. apply Qle_bool_iff in H. congruence. }
    replace (a - b - 1 + 1) with (a - b) by lia. split; [|exact E'].
    rewrite Hnd. apply Qle_shift_div_l; [exact Hd|].
    apply Qle_trans with (pow2 (a - b - 1) * inject_Z (2 ^ (b + 1)))%Q.
    + apply Qmult_le_l; [exact Hk'|]. rewrite <- Zle_Qle.
      replace (b + 1) with (Z.succ b) by lia. lia.
    + rewrite (pow2_Z (b + 1)) by lia. rewrite <- pow2_add.
      replace (a - b - 1 + (b + 1)) with a by lia.
      rewrite <- (pow2_Z a Ha0), <- Zle_Qle. exact Ha1.
Qed.

Lemma ilog2_le (x y : Q) : (0 < x)%Q -> (x <= y)%Q -> ilog2 x <= ilog2 y.
Proof.
  intros Hx Hxy.
  destruct (ilog2_spec x Hx) as [Hx1 _].
  destruct (ilog2_spec y (Qlt_le_trans _ _ _ Hx Hxy)) as [_ Hy2].
  destruct (Z.le_gt_cases (ilog2 x) (ilog2 y)) as [H|H]; [exact H|].
  exfalso. pose proof (pow2_le (ilog2 y + 1) (ilog2 x) ltac:(lia)) as Hp.
  apply (Qlt_irrefl y). eapply Qlt_le_trans; [exact Hy2|].
  eapply Qle_trans; [exact Hp|]. eapply Qle_trans; [exact Hx1 | exact Hxy].
Qed.

Lemma rne_comp (x y : Q) : (x == y)%Q -> rne x = rne y.
Proof.
  intro H. unfold rne. rewrite (Qfloor_comp x y H).
  assert (E : (x - inject_Z (Qfloor y) == y - inject_Z (Qfloor y))%Q)
    by (rewrite H; reflexivity).
  rewrite (Qcompare_comp _ _ E _ _ (Qeq_refl (1 # 2))). reflexivity.
Qed.

Lemma rne_Z (n : Z) : rne (inject_Z n) = n.
Proof.
  unfold rne. rewrite Qfloor_Z.
  assert (E : (inject_Z n - inject_Z n ?= 1 # 2)%Q = Lt).
  { apply Qlt_alt. setoid_replace (inject_Z n - inject_Z n)%Q with 0%Q by ring.
    reflexivity. }
  rewrite E. reflexivity.
Qed.

Lemma rne_le (x y : Q) : (x <= y)%Q -> rne x <= rne y.
Proof.
  intro Hxy. pose proof (Qfloor_resp_le x y Hxy) as Hf.
  pose proof (Qfloor_le x) as Hx1. pose proof (Qlt_floor x) as Hx2.
  pose proof (Qfloor_le y) as Hy1. pose proof (Qlt_floor y) as Hy2.
  unfold rne.
  destruct (Z.eq_dec (Qfloor x) (Qfloor y)) as [E|E].
  - rewrite <- E in *. clear E Hf Hx1 Hx2 Hy1 Hy2. generalize (Qfloor x). intro f.
    destruct (x - inject_Z f ?= 1 # 2)%Q eqn:Cx;
    destruct (y - inject_Z f ?= 1 # 2)%Q eqn:Cy;
    try (destruct (Z.even f)); try lia; exfalso;
    first [apply Qeq_alt in Cx | apply Qlt_alt in Cx | apply Qgt_alt in Cx];
    first [apply Qeq_alt in Cy | apply Qlt_alt in Cy | apply Qgt_alt in Cy];
    lra.
  - assert (Qfloor x + 1 <= Qfloor y) by lia.
    destruct (x - inject_Z (Qfloor x) ?= 1 # 2)%Q;
    destruct (y - inject_Z (Qfloor y) ?= 1 # 2)%Q;
    try (destruct (Z.even (Qfloor x))); try (destruct (Z.even (Qfloor y))); lia.
Qed.

Lemma round_at_le (e : Z) (x y : Q) : (x <= y)%Q -> (round_at e x <= round_at e y)%Q.
Proof.
  intro H. unfold round_at. pose proof (pow2_pos e) as Hp.
  apply Qmult_le_compat_r; [|apply Qlt_le_weak, Hp].
  rewrite <- Zle_Qle. apply rne_le.
  unfold Qdiv. apply Qmult_le_compat_r; [exact H|].
  apply Qlt_le_weak, Qinv_lt_0_compat, Hp.
Qed.

Lemma round_at_grid (e m : Z) : (round_at e (inject_Z m * pow2 e) == inject_Z m * pow2 e)%Q.
Proof.
  unfold round_at. pose proof (pow2_pos e) as Hp.
  rewrite (rne_comp (inject_Z m * pow2 e / pow2 e) (inject_Z m)).
  - rewrite rne_Z. reflexivity.
  - field. intro H. rewrite H in Hp. discriminate Hp.
Qed.

(** A power of two on the grid of a lower exponent. *)
Lemma pow2_on_grid (e k : Z) : e <= k -> (round_at e (pow2 k) == pow2 k)%Q.
Proof.
  intro H.
  assert (E : (pow2 k == inject_Z (2 ^ (k - e)) * pow2 e)%Q).
  { rewrite pow2_Z by lia. rewrite <- pow2_add.
    replace (k - e + e) with k by lia. reflexivity. }
  unfold round_at.
  rewrite (rne_comp (pow2 k / pow2 e) (inject_Z (2 ^ (k - e)) * pow2 e / pow2 e))
    by (rewrite E; reflexivity).
  fold (round_at e (inject_Z (2 ^ (k - e)) * pow2 e)).
  rewrite round_at_grid. symmetry. exact E.
Qed.

Lemma round_pos_le (x y : Q) : (0 < x)%Q -> (x <= y)%Q -> (round_pos x <= round_pos y)%Q.
Proof.
  intros Hx Hxy. unfold round_pos.
  assert (Hy : (0 < y)%Q) by (eapply Qlt_le_trans; eassumption).
  pose proof (ilog2_le x y Hx Hxy) as Hl.
  destruct (ilog2_spec x Hx) as [_ Hx2]. destruct (ilog2_spec y Hy) as [Hy1 _].
  unfold fexp.
  destruct (Z.eq_dec (Z.max (-1074) (ilog2 x - 52)) (Z.max (-1074) (ilog2 y - 52)))
    as [E|E].
  - rewrite E. apply round_at_le, Hxy.
  - set (ex := Z.max (-1074) (ilog2 x - 52)) in *.
    set (ey := Z.max (-1074) (ilog2 y - 52)) in *.
    assert (Hey : ey = ilog2 y - 52 /\ ex < ey /\ ilog2 x + 1 <= ilog2 y) by lia.
    destruct Hey as (Hey & Hlt & Hlx).
    set (B := pow2 (ilog2 y)).
    assert (HxB : (x <= B)%Q).
    { apply Qlt_le_weak. eapply Qlt_le_trans; [exact Hx2 | apply pow2_le, Hlx]. }
    apply Qle_trans with (round_at ex B); [apply round_at_le, HxB|].
    unfold B. rewrite (pow2_on_grid ex (ilog2 y)) by lia.
    rewrite <- (pow2_on_grid ey (ilog2 y)) by lia.
    apply round_at_le, Hy1.
Qed.

Lemma round_pos_nonneg (x : Q) : (0 <= x)%Q -> (0 <= round_pos x)%Q.
Proof.
  intro Hx. unfold round_pos, round_at. pose proof (pow2_pos (fexp x)) as Hp.
  apply Qmult_le_0_compat; [|apply Qlt_le_weak, Hp].
  change 0%Q with (inject_Z 0). rewrite <- Zle_Qle. rewrite <- (rne_Z 0).
  apply rne_le. apply Qle_shift_div_l; [exact Hp|].
  change (inject_Z 0) with 0%Q. rewrite Qmult_0_l. exact Hx.
Qed.

Lemma fl_le (x y : Q) : (x <= y)%Q -> (fl x <= fl y)%Q.
Proof.
  intro Hxy. unfold fl.
  destruct (0 ?= x)%Q eqn:Cx; destruct (0 ?= y)%Q eqn:Cy;
    first [apply Qeq_alt in Cx | apply Qlt_alt in Cx | apply Qgt_alt in Cx];
    first [apply Qeq_alt in Cy | apply Qlt_alt in Cy | apply Qgt_alt in Cy];
    try lra.
  - apply round_pos_nonneg. lra.
  - apply round_pos_le; assumption.
  - pose proof (round_pos_nonneg (- x) ltac:(lra)). lra.
  - pose proof (round_pos_nonneg (- x) ltac:(lra)).
    pose proof (round_pos_nonneg y ltac:(lra)). lra.
  - apply Qopp_le_compat. apply round_pos_le; lra.
Qed.

Lemma fl_nonneg (x : Q) : (0 <= x)%Q -> (0 <= fl x)%Q.
Proof. intro H. apply (fl_le 0 x H). Qed.

Lemma pow2_lt_inv a b : (pow2 a < pow2 b)%Q -> a < b.
Proof.
  intro H. destruct (Z_lt_le_dec a b) as [Hlt|Hge]; [exact Hlt|].
  exfalso. apply (Qlt_not_le _ _ H). apply pow2_le, Hge.
Qed.

Lemma ilog2_unique (x : Q) (k : Z) :
  (pow2 k <= x)%Q -> (x < pow2 (k + 1))%Q -> ilog2 x = k.
Proof.
  intros Hlo Hhi.
  assert (Hx : (0 < x)%Q) by (eapply Qlt_le_trans; [apply (pow2_pos k) | exact Hlo]).
  destruct (ilog2_spec x Hx) as [Hlo' Hhi'].
  assert (H1 : ilog2 x < k + 1)
    by (apply pow2_lt_inv; eapply Qle_lt_trans; eassumption).
  assert (H2 : k < ilog2 x + 1)
    by (apply pow2_lt_inv; eapply Qle_lt_trans; eassumption).
  lia.
Qed.

Lemma ilog2_comp (x y : Q) : (0 < x)%Q -> (x == y)%Q -> ilog2 x = ilog2 y.
Proof.
  intros Hx E. destruct (ilog2_spec x Hx) as [Hlo Hhi].
  symmetry. apply ilog2_unique; rewrite <- E; assumption.
Qed.

Lemma round_at_comp (e : Z) (x y : Q) : (x == y)%Q -> round_at e x = round_at e y.
Proof.
  intro E. unfold round_at. rewrite (rne_comp (x / pow2 e) (y / pow2 e)); [reflexivity|].
  rewrite E. reflexivity.
Qed.

Lemma round_pos_comp (x y : Q) : (0 < x)%Q -> (x == y)%Q -> round_pos x = round_pos y.
Proof.
  intros Hx E. unfold round_pos, fexp. rewrite (ilog2_comp x y Hx E).
  apply round_at_comp, E.
Qed.

(** A rounded value is a binary64 number: rounding leaves it as it is. *)
Lemma round_pos_idem (x : Q) :
  (0 < x)%Q -> (0 < round_pos x)%Q -> (round_pos (round_pos x) == round_pos x)%Q.
Proof.
  intros Hx Hy.
  destruct (ilog2_spec x Hx) as [_ Hhi].
  set (e := fexp x). set (m := rne (x / pow2 e)).
  assert (Hy' : round_pos x = (inject_Z m * pow2 e)%Q) by reflexivity.
  pose proof (pow2_pos e) as Hp.
  assert (He : -1074 <= e /\ ilog2 x - 52 <= e) by (unfold e, fexp; lia).
  assert (Hm53 : m <= 2 ^ 53).
  { unfold m. rewrite <- (rne_Z (2 ^ 53)). apply rne_le.
    apply Qle_shift_div_r; [exact Hp|].
    rewrite pow2_Z by lia. rewrite <- pow2_add.
    apply Qlt_le_weak. eapply Qlt_le_trans; [exact Hhi|]. apply pow2_le. lia. }
  assert (Hm1 : 1 <= m).
  { rewrite Hy' in Hy.
    destruct (Z_lt_le_dec m 1) as [Hlt|Hge]; [|exact Hge]. exfalso.
    assert (Hneg : (inject_Z m <= 0)%Q)
      by (change 0%Q with (inject_Z 0); rewrite <- Zle_Qle; lia).
    apply (Qlt_not_le _ _ Hy).
    setoid_replace 0%Q with (0 * pow2 e)%Q by ring.
    apply Qmult_le_compat_r; [exact Hneg | apply Qlt_le_weak, Hp]. }
  rewrite Hy'. set (y := (inject_Z m * pow2 e)%Q).
  assert (Hylo : (pow2 e <= y)%Q).
  { unfold y. setoid_replace (pow2 e) with (1 * pow2 e)%Q at 1 by ring.
    apply Qmult_le_compat_r; [|apply Qlt_le_weak, Hp].
    change 1%Q with (inject_Z 1). rewrite <- Zle_Qle. exact Hm1. }
  assert (Hy0 : (0 < y)%Q) by (eapply Qlt_le_trans; eassumption).
  destruct (Z.eq_dec m (2 ^ 53)) as [Htop|Hbelow].
  - assert (Ey : (y == pow2 (e + 53))%Q).
    { unfold y. rewrite Htop, pow2_Z by lia. rewrite <- pow2_add.
      replace (53 + e) with (e + 53) by lia. reflexivity. }
    assert (Hl : ilog2 y = e + 53).
    { apply ilog2_unique; rewrite Ey; [apply Qle_refl|].
      destruct (Qlt_le_dec (pow2 (e + 53)) (pow2 (e + 53 + 1))) as [H|H]; [exact H|].
      exfalso.
      assert (E2 : (pow2 (e + 53 + 1) == pow2 (e + 53) * 2)%Q)
        by (rewrite pow2_add; reflexivity).
      pose proof (pow2_pos (e + 53)). rewrite E2 in H. lra. }
    unfold round_pos, fexp. rewrite Hl.
    rewrite (round_at_comp _ y (pow2 (e + 53)) Ey).
    rewrite pow2_on_grid by lia. symmetry. exact Ey.
  - assert (Hyhi : (y < pow2 (e + 53))%Q).
    { unfold y. rewrite pow2_add, <- (pow2_Z 53) by lia.
      rewrite (Qmult_comm (pow2 e)).
      apply Qmult_lt_compat_r; [exact Hp|]. rewrite <- Zlt_Qlt. lia. }
    destruct (ilog2_spec y Hy0) as [Hl1 _].
    assert (Hl : ilog2 y < e + 53)
      by (apply pow2_lt_inv; eapply Qle_lt_trans; eassumption).
    unfold round_pos. set (ey := fexp y).
    assert (Hey : ey <= e) by (unfold ey, fexp; lia).
    assert (Ey : (y == inject_Z (m * 2 ^ (e - ey)) * pow2 ey)%Q).
    { unfold y. rewrite inject_Z_mult, pow2_Z by lia.
      rewrite <- Qmult_assoc, <- pow2_add.
      replace (e - ey + ey) with e by lia. reflexivity. }
    rewrite (round_at_comp _ y _ Ey), round_at_grid. symmetry. exact Ey.
Qed.

Lemma fl_idem (x : Q) : (fl (fl x) == fl x)%Q.
Proof.
  remember (fl x) as y eqn:Ey. unfold fl in Ey.
  destruct (0 ?= x)%Q eqn:Cx;
    first [apply Qeq_alt in Cx | apply Qlt_alt in Cx | apply Qgt_alt in Cx];
    subst y.
  - reflexivity.
  - pose proof (round_pos_nonneg x (Qlt_le_weak _ _ Cx)) as Hy.
    unfold fl. destruct (0 ?= round_pos x)%Q eqn:Cy;
      first [apply Qeq_alt in Cy | apply Qlt_alt in Cy | apply Qgt_alt in Cy].
    + exact Cy.
    + apply round_pos_idem; assumption.
    + exfalso. exact (Qlt_not_le _ _ Cy Hy).
  - assert (Hx : (0 < - x)%Q) by lra.
    pose proof (round_pos_nonneg (- x) (Qlt_le_weak _ _ Hx)) as Hy.
    unfold fl. destruct (0 ?= - round_pos (- x))%Q eqn:Cy;
      first [apply Qeq_alt in Cy | apply Qlt_alt in Cy | apply Qgt_alt in Cy].
    + exact Cy.
    + exfalso. lra.
    + assert (Hy0 : (0 < round_pos (- x))%Q) by lra.
      rewrite (round_pos_comp (- - round_pos (- x)) (round_pos (- x)));
        [|lra|ring].
      rewrite (round_pos_idem (- x) Hx Hy0). reflexivity.
Qed.

(** Rounding keeps the order, and so does every operation that is monotone
    before it rounds. *)
Lemma mm_to_pt_le (a b : Q) : (a <= b)%Q -> (mm_to_pt a <= mm_to_pt b)%Q.
Proof.
  intro H. unfold mm_to_pt, fmul, fdiv. apply fl_le.
  apply Qmult_le_compat_r; [|discriminate].
  apply fl_le. unfold Qdiv. apply Qmult_le_compat_r; [exact H|].
  apply Qlt_le_weak, Qinv_lt_0_compat. reflexivity.
Qed.

(** ** Comparisons *)

Lemma Qlt_bool_iff (a b : Q) : Qlt_bool a b = true <-> (a < b)%Q.
Proof.
  unfold Qlt_bool. rewrite negb_true_iff.
  split; intro H.
  - apply Qnot_le_lt. intro Hle. apply Qle_bool_iff in Hle. congruence.
  - destruct (Qle_bool b a) eqn:E; [|reflexivity].
    apply Qle_bool_iff in E. exfalso. exact (Qlt_not_le _ _ H E).
Qed.

Lemma Qlt_bool_false (a b : Q) : Qlt_bool a b = false -> (b <= a)%Q.
Proof.
  unfold Qlt_bool. rewrite negb_false_iff. apply Qle_bool_iff.
Qed.

(** ** Grid chooser *)

Lemma grid_step_inv (usable_w usable_h gap_pt min_w_pt : Q) seen best rc :
  1 <= fst rc -> 1 <= snd rc ->
  grid_inv usable_w gap_pt min_w_pt seen best ->
  grid_inv usable_w gap_pt min_w_pt (seen ++ [rc])
           (grid_step usable_w usable_h gap_pt min_w_pt best rc).
Proof.
  intros Hr Hc [Hbest Hseen].
  assert (Hslots : 1 <= slot_count rc) by (unfold slot_count; nia).
  assert (Hlast : In rc (seen ++ [rc])) by (apply in_or_app; right; left; reflexivity).
  assert (Hold : forall x, In x seen -> In x (seen ++ [rc]))
    by (intros x Hx; apply in_or_app; left; exact Hx).
  unfold grid_step. destruct rc as [r c]. cbn [fst snd] in Hr, Hc |- *.
  unfold slot_count in Hslots, Hseen. cbn [fst snd] in Hslots.
  destruct (Qle_bool min_w_pt (cell_extent usable_w gap_pt c)) eqn:Eok.
  - apply Qle_bool_iff in Eok.
    destruct (fst best * snd best <? r * c) eqn:Elt.
    + (* more slots than [best] *)
      apply Z.ltb_lt in Elt. split; [right; split; assumption|].
      intros rc' Hin Hok'. unfold slot_count. cbn [fst snd].
      split; [exact Eok|].
      apply in_app_or in Hin. destruct Hin as [Hin | [<- | []]].
      * destruct (Hseen _ Hin Hok') as (_ & Hle & _). split; lia.
      * cbn [fst snd]. split; [lia | intros _; apply Qle_refl].
    + apply Z.ltb_ge in Elt.
      destruct (r * c =? fst best * snd best) eqn:Eeq.
      * (* as many slots as [best] *)
        apply Z.eqb_eq in Eeq.
        destruct (Qlt_bool (cell_extent usable_w gap_pt (snd best))
                           (cell_extent usable_w gap_pt c)) eqn:Ew.
        -- apply Qlt_bool_iff in Ew. split; [right; split; assumption|].
           intros rc' Hin Hok'. unfold slot_count. cbn [fst snd].
           split; [exact Eok|].
           apply in_app_or in Hin. destruct Hin as [Hin | [<- | []]].
           ++ destruct (Hseen _ Hin Hok') as (_ & Hle & Hw).
              split; [lia|]. intros He.
              apply Qle_trans with (cell_extent usable_w gap_pt (snd best));
                [apply Hw; lia | apply Qlt_le_weak, Ew].
           ++ cbn [fst snd]. split; [lia | intros _; apply Qle_refl].
        -- apply Qlt_bool_false in Ew.
           assert (Hokb : (min_w_pt <= cell_extent usable_w gap_pt (snd best))%Q)
             by (eapply Qle_trans; eassumption).
           split.
           ++ destruct Hbest as [-> | [Hin _]]; [left; reflexivity|].
              right. split; [apply Hold, Hin | exact Hokb].
           ++ intros rc' Hin Hok'.
              apply in_app_or in Hin. destruct Hin as [Hin | [<- | []]].
              ** exact (Hseen _ Hin Hok').
              ** unfold slot_count. cbn [fst snd].
                 split; [exact Hokb|]. split; [lia | intros _; exact Ew].
      * (* fewer slots than [best], which is then not the initial (1,1) *)
        apply Z.eqb_neq in Eeq.
        destruct Hbest as [-> | [Hin Hokb]]; [cbn [fst snd] in Elt, Eeq; lia|].
        split; [right; split; [apply Hold, Hin | exact Hokb]|].
        intros rc' Hin' Hok'.
        apply in_app_or in Hin'. destruct Hin' as [Hin' | [<- | []]].
        -- exact (Hseen _ Hin' Hok').
        -- unfold slot_count. cbn [fst snd]. split; [exact Hokb|]. split; lia.
  - (* the cell is too narrow *)
    split.
    + destruct Hbest as [-> | [Hin Hokb]]; [left; reflexivity|].
      right. split; [apply Hold, Hin | exact Hokb].
    + intros rc' Hin Hok'.
      apply in_app_or in Hin. destruct Hin as [Hin | [<- | []]].
      * exact (Hseen _ Hin Hok').
      * apply Qle_bool_iff in Hok'. cbn [snd] in Hok'. congruence.
Qed.

Lemma grid_loop_inv (usable_w usable_h gap_pt min_w_pt : Q) todo :
  forall seen best,
  Forall (fun rc => 1 <= fst rc /\ 1 <= snd rc) todo ->
  grid_inv usable_w gap_pt min_w_pt seen best ->
  grid_inv usable_w gap_pt min_w_pt (seen ++ todo)
           (fold_left (grid_step usable_w usable_h gap_pt min_w_pt) todo best).
Proof.
  induction todo as [|rc todo IH]; intros seen best Hall Hinv.
  - rewrite app_nil_r. exact Hinv.
  - inversion Hall as [|? ? [Hr Hc] Hall']; subst. cbn [fold_left].
    replace (seen ++ rc :: todo) with ((seen ++ [rc]) ++ todo)
      by (rewrite <- app_assoc; reflexivity).
    apply IH; [exact Hall'|]. apply grid_step_inv; assumption.
Qed.

Lemma candidates_positive :
  Forall (fun rc => 1 <= fst rc /\ 1 <= snd rc) CANDIDATE_GRIDS.
Proof. repeat constructor; cbn; lia. Qed.

Lemma candidate_slots rc : In rc CANDIDATE_GRIDS -> 1 <= fst rc /\ 1 <= snd rc.
Proof.
  intro H. pose proof candidates_positive as F. rewrite Forall_forall in F. exact (F _ H).
Qed.

Lemma choose_auto_grid_inv (paper_pt : Q * Q) (layout : LayoutParams) :
  let best := choose_auto_grid paper_pt layout in
  (best = (1, 1) \/ (In best CANDIDATE_GRIDS /\ qualifies paper_pt layout best)) /\
  forall rc, In rc CANDIDATE_GRIDS -> qualifies paper_pt layout rc ->
    qualifies paper_pt layout best /\ slot_count rc <= slot_count best /\
    (slot_count rc = slot_count best ->
     (grid_cell_w paper_pt layout (snd rc) <= grid_cell_w paper_pt layout (snd best))%Q).
Proof.
  destruct paper_pt as [pw ph]. unfold choose_auto_grid, qualifies, grid_cell_w. cbn [fst].
  apply (grid_loop_inv _ (ph - 2 * mm_to_pt (margin_mm layout))%Q _ _ CANDIDATE_GRIDS [] (1, 1)).
  - exact candidates_positive.
  - split; [left; reflexivity | intros rc []].
Qed.

Lemma choose_auto_grid_candidate paper_pt layout :
  In (choose_auto_grid paper_pt layout) CANDIDATE_GRIDS.
Proof.
  destruct (choose_auto_grid_inv paper_pt layout) as [[-> | [H _]] _].
  - left; reflexivity.
  - exact H.
Qed.

(** C1. [choose_auto_grid] returns one of the twelve candidate grids.  It is
    1x1 when no candidate has a cell width of at least the minimum slide
    width.  When some candidate has, the chosen grid has such a cell width,
    no candidate with such a cell width has more slots, and none with as many
    slots has a wider cell. *)
Theorem choose_auto_grid_optimal (paper_pt : Q * Q) (layout : LayoutParams) :
  In (choose_auto_grid paper_pt layout) CANDIDATE_GRIDS /\
  ((forall rc, In rc CANDIDATE_GRIDS -> ~ qualifies paper_pt layout rc) ->
   choose_auto_grid paper_pt layout = (1, 1)) /\
  (forall rc, In rc CANDIDATE_GRIDS -> qualifies paper_pt layout rc ->
     qualifies paper_pt layout (choose_auto_grid paper_pt layout) /\
     slot_count rc <= slot_count (choose_auto_grid paper_pt layout) /\
     (slot_count rc = slot_count (choose_auto_grid paper_pt layout) ->
      (grid_cell_w paper_pt layout (snd rc)
       <= grid_cell_w paper_pt layout (snd (choose_auto_grid paper_pt layout)))%Q)).
Proof.
  pose proof (choose_auto_grid_inv paper_pt layout) as [Hbest Hmax].
  split; [apply choose_auto_grid_candidate|]. split.
  - intros Hnone. destruct Hbest as [H | [Hin Hq]]; [exact H|].
    exfalso. exact (Hnone _ Hin Hq).
  - exact Hmax.
Qed.

(** C2. With the paper, margin and gap fixed, a larger minimum slide width
    never gives a grid with more slots. *)
Theorem choose_auto_grid_monotone (paper_pt : Q * Q)
    (rows cols : Z) (margin gap : Q) (auto : bool) (w1 w2 : Q) :
  (w1 <= w2)%Q ->
  slot_count (choose_auto_grid paper_pt (mkLayoutParams rows cols margin gap auto w2))
  <= slot_count (choose_auto_grid paper_pt (mkLayoutParams rows cols margin gap auto w1)).
Proof.
  intro Hw.
  set (l1 := mkLayoutParams rows cols margin gap auto w1).
  set (l2 := mkLayoutParams rows cols margin gap auto w2).
  destruct (choose_auto_grid_inv paper_pt l2) as [[E | [Hin Hq]] _].
  - rewrite E. destruct (candidate_slots _ (choose_auto_grid_candidate paper_pt l1)).
    unfold slot_count. cbn [fst snd]. nia.
  - destruct (choose_auto_grid_inv paper_pt l1) as [_ Hmax].
    apply (Hmax _ Hin).
    unfold qualifies in *. eapply Qle_trans; [|exact Hq].
    apply mm_to_pt_le. exact Hw.
Qed.

(** ** Loops *)

Lemma for_in_stable {A S} (xs : list A) (body : S -> A -> result S) (s : S) :
  (forall x, In x xs -> body s x = Ok s \/ exists e, body s x = Raise e) ->
  for_in xs body s = Ok s \/ exists e, for_in xs body s = Raise e.
Proof.
  induction xs as [|x xs IH]; intro H; cbn [for_in].
  - left; reflexivity.
  - destruct (H x (or_introl eq_refl)) as [-> | [e ->]]; cbn [bind].
    + apply IH. intros x' Hx'. apply H. right; exact Hx'.
    + right. exists e. reflexivity.
Qed.

(** ** Content-bounds estimator *)

Lemma index_nonneg row i v : index row i = Ok v -> 0 <= v.
Proof.
  unfold index. destruct (nth_error row i); [|discriminate].
  intro H. injection H as <-. unfold byte_val. lia.
Qed.

Lemma pixel_nonneg pix x y r g b :
  pixel pix x y = Ok (r, g, b) -> 0 <= Z.min (Z.min r g) b.
Proof.
  unfold pixel.
  destruct (index _ (x * n pix)) as [r'|] eqn:Er; [|discriminate].
  destruct (index _ (x * n pix + 1)) as [g'|] eqn:Eg; [|discriminate].
  destruct (index _ (x * n pix + 2)) as [b'|] eqn:Eb; [|discriminate].
  cbn [bind]. intro H. injection H as <- <- <-.
  apply index_nonneg in Er, Eg, Eb. lia.
Qed.

Lemma blank_nonpositive pix threshold : threshold <= 0 -> blank pix threshold.
Proof.
  intros Ht x y r g b _ _ H. apply pixel_nonneg in H. lia.
Qed.

(** A pixel that is not below the threshold leaves the bounds as they are. *)
Lemma scan_pixel_blank pix threshold y acc x :
  blank pix threshold -> (x < width pix)%nat -> (y < height pix)%nat ->
  let row_start := (y * width pix * n pix)%nat in
  let row := slice (samples pix) row_start (row_start + width pix * n pix) in
  scan_pixel threshold (n pix) row y acc x = Ok acc \/
  exists e, scan_pixel threshold (n pix) row y acc x = Raise e.
Proof.
  intros Hblank Hx Hy row_start row.
  specialize (Hblank x y). unfold pixel in Hblank. fold row_start row in Hblank.
  unfold scan_pixel.
  destruct (index row (x * n pix)) as [r|e]; [|right; exists e; reflexivity].
  destruct (index row (x * n pix + 1)) as [g|e]; [|right; exists e; reflexivity].
  destruct (index row (x * n pix + 2)) as [b|e]; [|right; exists e; reflexivity].
  cbn [bind] in Hblank |- *.
  specialize (Hblank r g b Hx Hy eq_refl).
  destruct acc as [[[xmin ymin] xmax] ymax].
  destruct (Z.min (Z.min r g) b <? threshold) eqn:E.
  - apply Z.ltb_lt in E. lia.
  - left; reflexivity.
Qed.

Lemma scan_blank pix threshold acc :
  blank pix threshold ->
  let scan := for_in (seq 0 (height pix))
                (scan_row threshold (width pix) (n pix) (samples pix)) acc in
  scan = Ok acc \/ exists e, scan = Raise e.
Proof.
  intros Hblank. apply for_in_stable. intros y Hy.
  apply in_seq in Hy. unfold scan_row.
  apply for_in_stable. intros x Hx. apply in_seq in Hx.
  apply scan_pixel_blank; [exact Hblank | lia | lia].
Qed.

Lemma nonwhite_bbox_blank pix threshold :
  (forall pix', without_alpha pix = Ok pix' -> blank pix' threshold) ->
  nonwhite_bbox_pixmap pix threshold = None.
Proof.
  intro Hblank. unfold nonwhite_bbox_pixmap, nonwhite_bbox_try.
  destruct (without_alpha pix) as [pix'|e]; [|reflexivity].
  cbn [bind].
  destruct (scan_blank pix' threshold (Z.of_nat (width pix'), Z.of_nat (height pix'), -1, -1)
              (Hblank pix' eq_refl)) as [-> | [e ->]]; reflexivity.
Qed.

Lemma estimate_no_estimate src_page threshold :
  no_estimate src_page threshold ->
  estimate_content_clip src_page threshold = rect src_page.
Proof.
  unfold estimate_content_clip, estimate_content_try, no_estimate, rasterized.
  intros [[e He] | (pix & Hpix & Hscan)].
  - rewrite He. reflexivity.
  - rewrite Hpix. cbn [bind].
    destruct Hscan as [[e He] | [Hblank | (bbox_px & e & Hbox & Hmap)]].
    + unfold nonwhite_bbox_pixmap. rewrite He. reflexivity.
    + rewrite (nonwhite_bbox_blank pix threshold Hblank). reflexivity.
    + rewrite Hbox. destruct (falsy (Some bbox_px)); [reflexivity|].
      rewrite Hmap. reflexivity.
Qed.

(** ** Rectangles *)

Lemma Rect_within_refl r : Rect_within r r.
Proof. repeat split; apply Qle_refl. Qed.

Lemma Rect_within_in_rect inner outer x y :
  Rect_within inner outer -> in_rect inner x y -> in_rect outer x y.
Proof.
  intros (H0 & H1 & H2 & H3) (I0 & I1 & I2 & I3).
  repeat split; eapply Qle_trans; eassumption.
Qed.

Lemma Rect_and_within a r : is_empty a = false -> Rect_within (Rect_and a r) r.
Proof.
  intro Ha. unfold Rect_and.
  destruct (is_empty r); [apply Rect_within_refl|].
  rewrite Ha. unfold Rect_within. cbn [x0 y0 x1 y1].
  repeat split.
  - destruct (Qlt_bool (x0 a) (x0 r)) eqn:E;
      [apply Qle_refl | apply Qlt_bool_false, E].
  - destruct (Qlt_bool (y0 a) (y0 r)) eqn:E;
      [apply Qle_refl | apply Qlt_bool_false, E].
  - destruct (Qlt_bool (x1 r) (x1 a)) eqn:E;
      [apply Qle_refl | apply Qlt_bool_false, E].
  - destruct (Qlt_bool (y1 r) (y1 a)) eqn:E;
      [apply Qle_refl | apply Qlt_bool_false, E].
Qed.

Lemma Qle_bool_false (a b : Q) : (b < a)%Q -> Qle_bool a b = false.
Proof.
  intro H. destruct (Qle_bool a b) eqn:E; [|reflexivity].
  apply Qle_bool_iff in E. exfalso. exact (Qlt_not_le _ _ H E).
Qed.

(** A rectangle with its edges in order is not empty once every edge has
    moved out by 2. *)
Lemma expanded_not_empty r :
  (x0 r <= x1 r)%Q -> (y0 r <= y1 r)%Q ->
  is_empty (Rect_add r (mkRect (-2) (-2) 2 2)) = false.
Proof.
  intros Hx Hy. unfold is_empty, Rect_add. cbn [x0 y0 x1 y1].
  rewrite !Qle_bool_false; [reflexivity | lra | lra].
Qed.

Lemma scaled_rect_ordered m r :
  (x0 (scaled_rect m r) <= x1 (scaled_rect m r))%Q /\
  (y0 (scaled_rect m r) <= y1 (scaled_rect m r))%Q.
Proof.
  unfold scaled_rect. cbn [x0 y0 x1 y1].
  split; (eapply Qle_trans; [apply Q.le_min_l | apply Q.le_max_l]).
Qed.

(** X17. Provided [transform_rect], when it returns, returns the bounding
    box of the scaled rectangle, the rectangle [estimate_content_clip]
    returns lies within the rectangle of the page, for every page and
    threshold: each edge is within the edges of the page, and so is each of
    its points. *)
Theorem estimate_content_clip_within (src_page : Page) (threshold : Z) :
  (forall m r r', Matrix_transform_rect m r = Ok r' -> r' = scaled_rect m r) ->
  Rect_within (estimate_content_clip src_page threshold) (rect src_page) /\
  forall x y, in_rect (estimate_content_clip src_page threshold) x y ->
              in_rect (rect src_page) x y.
Proof.
  intro Hlib.
  assert (H : Rect_within (estimate_content_clip src_page threshold) (rect src_page)).
  { unfold estimate_content_clip, estimate_content_try.
    destruct (get_pixmap src_page _ false) as [pix|e]; [|apply Rect_within_refl].
    cbn [bind].
    destruct (falsy (nonwhite_bbox_pixmap pix threshold)); [apply Rect_within_refl|].
    destruct (nonwhite_bbox_pixmap pix threshold) as [bbox_px|]; [|apply Rect_within_refl].
    destruct (Matrix_transform_rect _ bbox_px) as [rect_pt|e] eqn:E;
      [|apply Rect_within_refl].
    cbn [bind]. apply Hlib in E. subst rect_pt.
    apply Rect_and_within, expanded_not_empty; apply scaled_rect_ordered. }
  split; [exact H|]. intros x y. apply Rect_within_in_rect, H.
Qed.

(** ** Runs of a list *)

Lemma run_unchanged {A} (size i : nat) (l : list A) (x : A) :
  (i * size + size <= length l)%nat ->
  firstn size (skipn (i * size) (l ++ [x])) = firstn size (skipn (i * size) l).
Proof.
  intro H. rewrite skipn_app, firstn_app, length_skipn.
  replace (size - (length l - i * size))%nat with 0%nat by lia.
  rewrite firstn_O, app_nil_r. reflexivity.
Qed.

Lemma run_extended {A} (size i : nat) (l : list A) (x : A) :
  (i * size <= length l)%nat -> (length l < i * size + size)%nat ->
  firstn size (skipn (i * size) l) = skipn (i * size) l /\
  firstn size (skipn (i * size) (l ++ [x])) = skipn (i * size) l ++ [x].
Proof.
  intros Hlo Hhi. split.
  - apply firstn_all2. rewrite length_skipn. lia.
  - rewrite skipn_app.
    replace (i * size - length l)%nat with 0%nat by lia. cbn [skipn].
    apply firstn_all2. rewrite length_app, length_skipn. cbn [length]. lia.
Qed.

Lemma runs_count_full (size len : nat) :
  (0 < size)%nat -> (len mod size = 0)%nat ->
  ((len + size - 1) / size = len / size)%nat /\
  ((len + 1 + size - 1) / size = S (len / size))%nat /\
  (len / size * size = len)%nat.
Proof.
  intros Hs Hm. pose proof (Nat.div_mod_eq len size) as E. rewrite Hm in E.
  repeat split.
  - symmetry. apply (Nat.div_unique _ _ _ (size - 1)); lia.
  - symmetry. apply (Nat.div_unique _ _ _ 0); lia.
  - lia.
Qed.

Lemma runs_count_partial (size len : nat) :
  (0 < size)%nat -> (len mod size <> 0)%nat ->
  ((len + size - 1) / size = S (len / size))%nat /\
  ((len + 1 + size - 1) / size = S (len / size))%nat /\
  (len / size * size <= len)%nat /\ (len < len / size * size + size)%nat.
Proof.
  intros Hs Hm. pose proof (Nat.div_mod_eq len size) as E.
  pose proof (Nat.mod_upper_bound len size ltac:(lia)) as B.
  repeat split.
  - symmetry. apply (Nat.div_unique _ _ _ (len mod size - 1)); lia.
  - symmetry. apply (Nat.div_unique _ _ _ (len mod size)); lia.
  - lia.
  - lia.
Qed.

(** One more element after full runs starts a run. *)
Lemma chunks_snoc_new {A} (size : nat) (l : list A) (x : A) :
  (0 < size)%nat -> (length l mod size = 0)%nat ->
  chunks size (l ++ [x]) = chunks size l ++ [[x]].
Proof.
  intros Hs Hm. unfold chunks. rewrite length_app. cbn [length].
  destruct (runs_count_full size (length l) Hs Hm) as (-> & -> & Hq).
  rewrite seq_S, map_app. cbn [map Nat.add]. f_equal.
  - apply map_ext_in. intros i Hi. apply in_seq in Hi.
    apply run_unchanged. nia.
  - rewrite Hq, skipn_app, skipn_all, Nat.sub_diag. cbn [skipn app].
    rewrite firstn_all2 by (cbn [length]; lia). reflexivity.
Qed.

(** One more element after a partial run joins it. *)
Lemma chunks_snoc_last {A} (size : nat) (l : list A) (x : A) :
  (0 < size)%nat -> (length l mod size <> 0)%nat ->
  exists init last,
    chunks size l = init ++ [last] /\ chunks size (l ++ [x]) = init ++ [last ++ [x]].
Proof.
  intros Hs Hm. unfold chunks. rewrite length_app. cbn [length].
  destruct (runs_count_partial size (length l) Hs Hm) as (-> & -> & Hlo & Hhi).
  destruct (run_extended size (length l / size) l x Hlo Hhi) as [E1 E2].
  exists (map (fun i => firstn size (skipn (i * size) l)) (seq 0 (length l / size))),
         (skipn (length l / size * size) l).
  rewrite seq_S, !map_app. cbn [map Nat.add]. rewrite E1, E2. split; [reflexivity|].
  f_equal. apply map_ext_in. intros i Hi. apply in_seq in Hi.
  apply run_unchanged. nia.
Qed.

Lemma chunks_nil {A} (size : nat) : chunks size (@nil A) = [].
Proof.
  unfold chunks. cbn [length Nat.add].
  destruct size as [|size]; [reflexivity|].
  rewrite Nat.div_small; [reflexivity | lia].
Qed.

(** ** The two loops as one *)

Lemma for_flow_app {A S R} (l1 l2 : list A) (body : S -> A -> flow S R) (s : S) :
  for_flow (l1 ++ l2) body s =
  match for_flow l1 body s with
  | Continue s' => for_flow l2 body s'
  | Return r => Return r
  | Throw e => Throw e
  end.
Proof.
  revert s. induction l1 as [|x l1 IH]; intro s; cbn [app for_flow]; [reflexivity|].
  destruct (body s x); [apply IH | reflexivity | reflexivity].
Qed.

Lemma for_flow_map {A B S R} (h : A -> B) (l : list A) (body : S -> B -> flow S R) (s : S) :
  for_flow (map h l) body s = for_flow l (fun s x => body s (h x)) s.
Proof.
  revert s. induction l as [|x l IH]; intro s; cbn [map for_flow]; [reflexivity|].
  destruct (body s (h x)); [apply IH | reflexivity | reflexivity].
Qed.

Lemma for_flow_ext {A S R} (l : list A) (f h : S -> A -> flow S R) (s : S) :
  (forall s x, In x l -> f s x = h s x) -> for_flow l f s = for_flow l h s.
Proof.
  revert s. induction l as [|x l IH]; intros s H; cbn [for_flow]; [reflexivity|].
  rewrite (H s x (or_introl eq_refl)).
  destruct (h s x); [|reflexivity|reflexivity].
  apply IH. intros s' x' Hx'. apply H. right; exact Hx'.
Qed.

Lemma imap_from_map {A B C} (k : nat) (f : nat -> A -> B) (h : B -> C) (l : list A) :
  imap_from k (fun i a => h (f i a)) l = map h (imap_from k f l).
Proof.
  revert k. induction l as [|a l IH]; intro k; cbn [imap_from map]; [reflexivity|].
  rewrite IH. reflexivity.
Qed.

Lemma imap_from_length {A B} (k : nat) (f : nat -> A -> B) (l : list A) :
  length (imap_from k f l) = length l.
Proof.
  revert k. induction l as [|a l IH]; intro k; cbn [imap_from length]; [reflexivity|].
  rewrite IH. reflexivity.
Qed.

Lemma imap_from_snoc {A B} (k : nat) (f : nat -> A -> B) (l : list A) (x : A) :
  imap_from k f (l ++ [x]) = imap_from k f l ++ [f (k + length l)%nat x].
Proof.
  revert k. induction l as [|a l IH]; intro k; cbn [imap_from app length].
  - rewrite Nat.add_0_r. reflexivity.
  - rewrite IH, Nat.add_succ_r. reflexivity.
Qed.

Lemma imap_from_tagged (path : string) (k : nat) (src : Document) :
  imap_from k (fun pno sp => (path, pno, sp)) src =
  map (fun page : nat * Page => (path, fst page, snd page)) (imap_from k pair src).
Proof. apply (imap_from_map k pair (fun page => (path, fst page, snd page))). Qed.

Lemma place_source_flat params g stop st path :
  place_source params g stop st path =
  finally_close (for_flow (source_pages [path]) (place_item params g stop) st).
Proof.
  unfold place_source, source_pages. cbn [flat_map]. rewrite app_nil_r.
  destruct (fitz_open path) as [src|e]; [|reflexivity].
  rewrite imap_from_tagged, for_flow_map. f_equal.
  apply for_flow_ext. intros s [pno sp] _. reflexivity.
Qed.

Lemma source_pages_cons path src_files :
  source_pages (path :: src_files) = source_pages [path] ++ source_pages src_files.
Proof.
  unfold source_pages. cbn [flat_map]. rewrite app_nil_r. reflexivity.
Qed.

(** The two loops are the one loop over [source_pages], but for the return:
    the [finally] of the source that the return leaves turns it into the
    ValueError of the second [src.close()]. *)
Lemma place_sources_flat params g stop src_files : forall st,
  for_flow src_files (place_source params g stop) st =
  finally_close (for_flow (source_pages src_files) (place_item params g stop) st).
Proof.
  induction src_files as [|path src_files IH]; intro st; [reflexivity|].
  rewrite source_pages_cons. cbn [for_flow].
  rewrite for_flow_app, place_source_flat.
  destruct (for_flow (source_pages [path]) (place_item params g stop) st);
    [apply IH | reflexivity | reflexivity].
Qed.

(** ** One step of the placement loop *)

Lemma Zmod_succ (a T : Z) :
  1 <= T -> 0 <= a ->
  (a + 1) mod T = if T <=? a mod T + 1 then 0 else a mod T + 1.
Proof.
  intros HT Ha. pose proof (Z.mod_pos_bound a T ltac:(lia)) as B.
  pose proof (Z.div_mod a T ltac:(lia)) as E.
  destruct (Z.leb_spec T (a mod T + 1)).
  - symmetry. apply (Z.mod_unique _ _ (a / T + 1)); [left; lia | nia].
  - symmetry. apply (Z.mod_unique _ _ (a / T)); [left; lia | nia].
Qed.

Lemma mod_zero_nat (len : nat) (T : Z) :
  1 <= T -> (Z.of_nat len mod T = 0 <-> (len mod Z.to_nat T = 0)%nat).
Proof.
  intro HT. rewrite <- (Z2Nat.id T) at 1 by lia.
  rewrite <- Nat2Z.inj_mod. lia.
Qed.

Lemma on_out_page_last before p op :
  on_out_page (before ++ [p]) op = Ok (before ++ [add_op p op]).
Proof.
  unfold on_out_page. rewrite rev_app_distr. cbn [rev app].
  rewrite rev_involutive. reflexivity.
Qed.

(** The output pages with one more source page placed: the page is drawn
    last on the last output page, which is new when the pages before are
    full. *)
Lemma placed_pages_snoc params g items item :
  1 <= g_total_slots g ->
  exists before p,
    (if Z.of_nat (length items) mod g_total_slots g =? 0
     then new_page (placed_pages params g items) (g_page_w g) (g_page_h g)
     else placed_pages params g items) = before ++ [p] /\
    placed_pages params g (items ++ [item]) =
      before ++ [mkOutPage (page_w p) (page_h p)
                   (ops p ++ placement_ops params g (length items) item)].
Proof.
  intro HT. unfold placed_pages. rewrite imap_from_snoc. cbn [Nat.add].
  set (groups := imap_from 0 (placement_ops params g) items).
  assert (Hlen : length groups = length items) by apply imap_from_length.
  assert (Hs : (0 < Z.to_nat (g_total_slots g))%nat) by lia.
  destruct (Z.eqb_spec (Z.of_nat (length items) mod g_total_slots g) 0) as [E|E];
    rewrite (mod_zero_nat _ _ HT), <- Hlen in E.
  - rewrite (chunks_snoc_new _ groups _ Hs E), map_app. cbn [map concat].
    eexists _, (mkOutPage (g_page_w g) (g_page_h g) []). split; [reflexivity|].
    cbn [page_w page_h ops app]. rewrite app_nil_r. reflexivity.
  - destruct (chunks_snoc_last _ groups (placement_ops params g (length items) item) Hs E)
      as (init & last & -> & ->).
    rewrite !map_app. cbn [map].
    eexists _, _. split; [reflexivity|].
    cbn [page_w page_h ops]. rewrite concat_app. cbn [concat].
    rewrite app_nil_r. reflexivity.
Qed.

(** The calls for one source page, made on the last output page. *)
Lemma draw_placement params g k path pno sp before p :
  let rect := slot_rect g (Z.of_nat k mod g_total_slots g) in
  let shown_out := before ++ [add_op p (ShowPdfPage rect path pno (clip_of params sp))] in
  on_out_page (before ++ [p]) (ShowPdfPage rect path pno (clip_of params sp))
    = Ok shown_out /\
  (if draw_cell_indices params
   then on_out_page shown_out (InsertTextbox (index_box rect) (str (Z.of_nat k + 1))
                                 (cell_index_font_pt params) 2)
   else Ok shown_out)
    = Ok (before ++ [mkOutPage (page_w p) (page_h p)
                       (ops p ++ placement_ops params g k (path, pno, sp))]).
Proof.
  intros rect shown_out. split; [apply on_out_page_last|].
  unfold placement_ops. fold rect. subst shown_out.
  destruct (draw_cell_indices params).
  - rewrite on_out_page_last. unfold add_op. cbn [page_w page_h ops].
    rewrite <- app_assoc. reflexivity.
  - reflexivity.
Qed.

(** The step for one more source page after [items]: the exception of
    [show_pdf_page], or the state with the page placed. *)
Lemma place_item_step params g stop items st item :
  1 <= g_total_slots g ->
  placing params g items st ->
  let items' := items ++ [item] in
  let st' := mkBuildState (placed_pages params g items')
                          (Z.of_nat (length items') mod g_total_slots g)
                          (Z.of_nat (length items')) in
  place_item params g stop st item =
  match show_placement (placement params g (length items) item) with
  | Raise e => Throw e
  | Ok _ =>
      match (if Z.of_nat (length items') mod g_total_slots g =? 0
             then stop else None) with
      | Some k =>
          if k <=? Z.of_nat (length (placed_pages params g items'))
          then Return (stamp_footers params (placed_pages params g items'))
          else Continue st'
      | None => Continue st'
      end
  end.
Proof.
  intros HT (Hout & Hslot & Hgpi) items' st'.
  destruct st as [o su gpi]. cbn [out slot_used global_page_index] in Hout, Hslot, Hgpi.
  subst o su gpi. destruct item as [[path pno] sp].
  unfold place_item, place_page, placement, show_placement.
  cbn [out slot_used global_page_index].
  destruct (show_pdf_page _ path pno (clip_of params sp)) as [[]|e]; [|reflexivity].
  cbn [bind].
  destruct (placed_pages_snoc params g items (path, pno, sp) HT) as (before & p & -> & Hnew).
  destruct (draw_placement params g (length items) path pno sp before p) as [-> ->].
  fold items' in Hnew. rewrite <- Hnew.
  assert (Hlen : Z.of_nat (length items') = Z.of_nat (length items) + 1).
  { unfold items'. rewrite length_app. cbn [length]. lia. }
  subst st'. rewrite Hlen, (Zmod_succ _ _ HT (Nat2Z.is_nonneg _)).
  destruct (g_total_slots g <=? Z.of_nat (length items) mod g_total_slots g + 1) eqn:E.
  - cbn [Z.eqb]. destruct stop as [k|]; reflexivity.
  - destruct (Z.eqb_spec (Z.of_nat (length items) mod g_total_slots g + 1) 0) as [E0|E0].
    + pose proof (Z.mod_pos_bound (Z.of_nat (length items)) (g_total_slots g) ltac:(lia)). lia.
    + reflexivity.
Qed.

Lemma all_accepted_cons params g from item items :
  all_accepted params g from (item :: items) <->
  accepted params g from item /\ all_accepted params g (S from) items.
Proof.
  unfold all_accepted. split.
  - intro H. split.
    + specialize (H 0%nat item eq_refl). rewrite Nat.add_0_r in H. exact H.
    + intros j it Hj. specialize (H (S j) it Hj). rewrite Nat.add_succ_r in H. exact H.
  - intros [H0 H] j it Hj. destruct j as [|j]; cbn [nth_error] in Hj.
    + injection Hj as <-. rewrite Nat.add_0_r. exact H0.
    + rewrite Nat.add_succ_r. exact (H j it Hj).
Qed.

(** ** The placement loop without an early stop *)

Lemma placing_start params g : placing params g [] (mkBuildState [] 0 0).
Proof.
  unfold placing, placed_pages. cbn [imap_from out slot_used global_page_index length].
  rewrite chunks_nil. repeat split.
Qed.

(** Without a bound the loop ends with all of [todo] placed, unless PyMuPDF
    rejects a call, whose exception leaves the loop. *)
Lemma place_all params g todo : forall seen st,
  1 <= g_total_slots g ->
  placing params g seen st ->
  (all_accepted params g (length seen) todo /\
   exists st', for_flow todo (place_item params g None) st = Continue st' /\
               placing params g (seen ++ todo) st') \/
  (~ all_accepted params g (length seen) todo /\
   exists e, for_flow todo (place_item params g None) st = Throw e).
Proof.
  induction todo as [|item todo IH]; intros seen st HT Hinv.
  - left. split; [intros [|j] it Hj; discriminate Hj|].
    exists st. rewrite app_nil_r. split; [reflexivity | exact Hinv].
  - cbn [for_flow]. rewrite (place_item_step params g None seen st item HT Hinv).
    rewrite all_accepted_cons. unfold accepted at 1 2.
    destruct (show_placement (placement params g (length seen) item)) as [[]|e].
    + replace (seen ++ item :: todo) with ((seen ++ [item]) ++ todo)
        by (rewrite <- app_assoc; reflexivity).
      assert (Hlen : length (seen ++ [item]) = S (length seen))
        by (rewrite length_app; cbn [length]; lia).
      rewrite <- Hlen.
      set (st' := mkBuildState _ _ _).
      assert (Hstep : match (if Z.of_nat (length (seen ++ [item])) mod g_total_slots g =? 0
                             then None else None) with
                      | Some k =>
                          if k <=? Z.of_nat (length (placed_pages params g (seen ++ [item])))
                          then Return (stamp_footers params
                                         (placed_pages params g (seen ++ [item])))
                          else Continue st'
                      | None => Continue st'
                      end = @Continue BuildState (list OutPage) st')
        by (destruct (_ =? 0); reflexivity).
      rewrite Hstep.
      destruct (IH (seen ++ [item]) st' HT ltac:(repeat split))
        as [[Hall Hrun] | [Hnot Hrun]].
      * left. split; [split; [reflexivity | exact Hall] | exact Hrun].
      * right. split; [intros [_ Hall]; exact (Hnot Hall) | exact Hrun].
    + right. split; [intros [Hacc _]; discriminate Hacc|].
      exists e. reflexivity.
Qed.

(** ** Geometry *)

Lemma grid_of_positive params :
  wf_layout (layout params) -> 1 <= fst (grid_of params) /\ 1 <= snd (grid_of params).
Proof.
  intros [Hr Hc]. unfold grid_of. destruct (auto_readable (layout params)).
  - apply candidate_slots, choose_auto_grid_candidate.
  - split; assumption.
Qed.

Lemma geometry_of_wf params :
  wf_layout (layout params) ->
  exists g, geometry_of params = Ok g /\
            g_total_slots g = fst (grid_of params) * snd (grid_of params) /\
            g_cols g = snd (grid_of params) /\
            1 <= g_total_slots g.
Proof.
  intro Hwf. destruct (grid_of_positive params Hwf) as [Hr Hc].
  unfold geometry_of, float_div_int.
  destruct (paper_size_pt (paper params) (landscape params)) as [pw ph].
  destruct (grid_of params) as [r c]. cbn [fst snd] in Hr, Hc |- *.
  destruct (Z.eqb_spec c 0); [lia|]. destruct (Z.eqb_spec r 0); [lia|].
  cbn [bind]. eexists. split; [reflexivity|]. cbn [g_total_slots g_cols].
  repeat split; nia.
Qed.

(** ** The footer pass *)

Lemma stamp_from_nth params total_out pages : forall i j,
  nth_error (stamp_from params i total_out pages) j =
  option_map (fun page =>
                draw_page_number_footer params page (i + Z.of_nat j + 1) total_out)
             (nth_error pages j).
Proof.
  induction pages as [|page rest IH]; intros i j.
  - destruct j; reflexivity.
  - destruct j as [|j]; cbn [stamp_from nth_error option_map].
    + rewrite Z.add_0_r. reflexivity.
    + rewrite IH. replace (i + 1 + Z.of_nat j + 1) with (i + Z.of_nat (S j) + 1) by lia.
      reflexivity.
Qed.

Lemma stamp_from_length params total_out pages : forall i,
  length (stamp_from params i total_out pages) = length pages.
Proof.
  induction pages as [|page rest IH]; intro i; cbn [stamp_from length];
    [reflexivity | rewrite IH; reflexivity].
Qed.

Lemma stamp_footers_length params pages :
  length (stamp_footers params pages) = length pages.
Proof. apply stamp_from_length. Qed.

Lemma stamp_from_map {B} (f : OutPage -> B) params total_out pages :
  (forall page i, f (draw_page_number_footer params page i total_out) = f page) ->
  forall i, map f (stamp_from params i total_out pages) = map f pages.
Proof.
  intros H. induction pages as [|page rest IH]; intro i; cbn [stamp_from map];
    [reflexivity | rewrite H, IH; reflexivity].
Qed.

Lemma shown_app l1 l2 : shown (l1 ++ l2) = shown l1 ++ shown l2.
Proof.
  induction l1 as [|op l1 IH]; [reflexivity|].
  destruct op; cbn [app shown]; rewrite IH; reflexivity.
Qed.

Lemma shown_footer params page i total_out :
  shown (ops (draw_page_number_footer params page i total_out)) = shown (ops page).
Proof.
  unfold draw_page_number_footer. destruct (draw_page_numbers params); [|reflexivity].
  cbn [negb add_op ops]. rewrite shown_app. cbn [shown]. apply app_nil_r.
Qed.

(** ** The placements on the output pages *)

Lemma shown_placement_ops params g k item :
  shown (placement_ops params g k item) = [placement params g k item].
Proof.
  destruct item as [[path pno] sp]. unfold placement_ops, placement.
  destruct (draw_cell_indices params); reflexivity.
Qed.

Lemma shown_concat (groups : list (list DrawOp)) :
  shown (concat groups) = concat (map shown groups).
Proof.
  induction groups as [|grp groups IH]; [reflexivity|].
  cbn [concat map]. rewrite shown_app, IH. reflexivity.
Qed.

Lemma concat_singletons {A} (l : list A) : concat (map (fun x => [x]) l) = l.
Proof.
  induction l as [|x l IH]; [reflexivity | cbn [map concat app]; rewrite IH; reflexivity].
Qed.

Lemma shown_placed_pages params g items :
  map (fun page => shown (ops page)) (placed_pages params g items) =
  chunks (Z.to_nat (g_total_slots g)) (imap_from 0 (placement params g) items).
Proof.
  unfold placed_pages, chunks. rewrite !map_map, !imap_from_length.
  apply map_ext. intro i. cbn [ops].
  rewrite shown_concat, <- firstn_map, <- skipn_map.
  replace (map shown (imap_from 0 (placement_ops params g) items))
    with (map (fun x => [x]) (imap_from 0 (placement params g) items)).
  - rewrite skipn_map, firstn_map. apply concat_singletons.
  - rewrite <- !imap_from_map. generalize 0%nat.
    induction items as [|item items IH]; intro k; cbn [imap_from]; [reflexivity|].
    rewrite shown_placement_ops, IH. reflexivity.
Qed.

(** The build as one loop over the source pages: when the loop returns at
    the bound, the build raises the ValueError of the [finally]. *)
Lemma build_flat src_files params stop :
  build_nup_from_multiple src_files params stop =
  (g <- geometry_of params ;;
   match for_flow (source_pages src_files) (place_item params g stop)
                  (mkBuildState [] 0 0) with
   | Throw e => Raise e
   | Return _ => Raise ValueError
   | Continue st => Ok (stamp_footers params (out st))
   end).
Proof.
  unfold build_nup_from_multiple. destruct (geometry_of params) as [g|e]; [|reflexivity].
  cbn [bind]. rewrite place_sources_flat.
  destruct (for_flow _ _ _); reflexivity.
Qed.

(** The build without an early stop: the placed pages, then the footers,
    unless PyMuPDF rejects a [show_pdf_page] call. *)
Lemma build_all src_files params :
  wf_layout (layout params) ->
  exists g, geometry_of params = Ok g /\
    g_total_slots g = fst (grid_of params) * snd (grid_of params) /\
    1 <= g_total_slots g /\
    ((all_accepted params g 0 (source_pages src_files) /\
      build_nup_from_multiple src_files params None =
        Ok (stamp_footers params (placed_pages params g (source_pages src_files)))) \/
     (~ all_accepted params g 0 (source_pages src_files) /\
      exists e, build_nup_from_multiple src_files params None = Raise e)).
Proof.
  intro Hwf. destruct (geometry_of_wf params Hwf) as (g & Hg & Hslots & _ & HT).
  exists g. repeat split; try assumption.
  rewrite build_flat, Hg. cbn [bind].
  destruct (place_all params g (source_pages src_files) [] _ HT (placing_start params g))
    as [(Hall & st' & -> & Hout & _) | (Hnot & e & ->)].
  - left. split; [exact Hall|]. rewrite Hout. reflexivity.
  - right. split; [exact Hnot|]. exists e. reflexivity.
Qed.

(** C3. With at least one row and one column, the build without an early
    stop returns when PyMuPDF accepts the [show_pdf_page] calls, and the
    placements on the output pages it returns, page by page and in the order
    they were made, are the source pages (the documents that open in list
    order, each with its pages in native order) cut into runs of rows*cols;
    the [k]-th source page is placed in the rectangle of the row-major slot
    [k mod (rows*cols)]. *)
Theorem build_places_in_order (src_files : list string) (params : BuildParams) :
  wf_layout (layout params) ->
  exists g,
    geometry_of params = Ok g /\
    g_total_slots g = fst (grid_of params) * snd (grid_of params) /\
    (all_accepted params g 0 (source_pages src_files) ->
     exists out, build_nup_from_multiple src_files params None = Ok out) /\
    (forall out,
       build_nup_from_multiple src_files params None = Ok out ->
       map (fun page => shown (ops page)) out =
         chunks (Z.to_nat (g_total_slots g))
                (imap_from 0 (placement params g) (source_pages src_files))).
Proof.
  intro Hwf. destruct (build_all src_files params Hwf) as (g & Hg & Hslots & _ & Hbuild).
  exists g. split; [exact Hg|]. split; [exact Hslots|].
  destruct Hbuild as [[Hall Hbuild] | [Hnot [e Hbuild]]]; rewrite Hbuild.
  - split; [intros _; eexists; reflexivity|].
    intros out Hout. injection Hout as <-.
    unfold stamp_footers. rewrite stamp_from_map.
    + apply shown_placed_pages.
    + intros page i. apply shown_footer.
  - split; [intro Hall; contradiction | intros out Hout; discriminate Hout].
Qed.

Lemma placed_pages_length params g items :
  length (placed_pages params g items) =
  ((length items + Z.to_nat (g_total_slots g) - 1) / Z.to_nat (g_total_slots g))%nat.
Proof.
  unfold placed_pages, chunks.
  rewrite !length_map, length_seq, imap_from_length. reflexivity.
Qed.

(** Without a bound the loops never return from inside. *)
Lemma place_item_no_return params g st item r :
  place_item params g None st item <> Return r.
Proof.
  destruct item as [[path pno] sp]. unfold place_item, place_page.
  destruct (bind _ _) as [shown_out|e]; [|discriminate].
  destruct (if draw_cell_indices _ then _ else _) as [indexed_out|e]; [|discriminate].
  destruct (g_total_slots g <=? slot_used st + 1); discriminate.
Qed.

Lemma place_items_no_return params g todo r : forall st,
  for_flow todo (place_item params g None) st <> Return r.
Proof.
  induction todo as [|item todo IH]; intro st; cbn [for_flow]; [discriminate|].
  destruct (place_item params g None st item) as [st'|r'|e] eqn:E.
  - apply IH.
  - exfalso. exact (place_item_no_return _ _ _ _ _ E).
  - discriminate.
Qed.

(** What the build without a bound returns went through the footer pass. *)
Lemma build_none_stamped src_files params out :
  build_nup_from_multiple src_files params None = Ok out ->
  exists pages, out = stamp_footers params pages.
Proof.
  rewrite build_flat. destruct (geometry_of params) as [g|e]; [|discriminate].
  cbn [bind].
  destruct (for_flow _ _ _) as [st|r|e] eqn:E.
  - intro H. injection H as <-. exists (out st). reflexivity.
  - exfalso. exact (place_items_no_return _ _ _ _ _ E).
  - discriminate.
Qed.

(** C4. With the page numbers enabled, on every output page [i+1] of the N
    that the build without an early stop returns, the last drawing call is
    the footer "i+1 / N".  With at least one row and column, the build
    returns when PyMuPDF accepts the [show_pdf_page] calls, N is
    ceil(P / (rows*cols)) for P source pages, so a last page that is not
    full is kept, and output page [i+1] is the page as the placements left
    it with that footer drawn after them. *)
Theorem footer_counts_all_pages (src_files : list string) (params : BuildParams) :
  draw_page_numbers params = true ->
  (forall out i page,
     build_nup_from_multiple src_files params None = Ok out ->
     nth_error out i = Some page ->
     exists body,
       ops page = body ++ [InsertTextbox (footer_box page)
                             (footer_text (Z.of_nat i + 1) (Z.of_nat (length out)))
                             (page_number_font_pt params) 2]) /\
  (wf_layout (layout params) ->
   exists g,
     geometry_of params = Ok g /\
     (all_accepted params g 0 (source_pages src_files) ->
      exists out, build_nup_from_multiple src_files params None = Ok out) /\
     (forall out,
        build_nup_from_multiple src_files params None = Ok out ->
        length out =
          ((length (source_pages src_files) + Z.to_nat (g_total_slots g) - 1)
           / Z.to_nat (g_total_slots g))%nat /\
        length out = length (placed_pages params g (source_pages src_files)) /\
        forall i placed,
          nth_error (placed_pages params g (source_pages src_files)) i = Some placed ->
          nth_error out i =
            Some (add_op placed
                    (InsertTextbox (footer_box placed)
                       (footer_text (Z.of_nat i + 1) (Z.of_nat (length out)))
                       (page_number_font_pt params) 2)))).
Proof.
  intros Hdraw. split.
  - intros out i page Hbuild Hi.
    destruct (build_none_stamped _ _ _ Hbuild) as (pages & ->).
    rewrite stamp_footers_length. unfold stamp_footers in Hi.
    rewrite stamp_from_nth in Hi.
    destruct (nth_error pages i) as [placed|]; [|discriminate].
    cbn [option_map] in Hi. injection Hi as <-.
    unfold draw_page_number_footer. rewrite Hdraw. cbn [negb add_op ops].
    exists (ops placed). reflexivity.
  - intro Hwf.
    destruct (build_all src_files params Hwf) as (g & Hg & _ & _ & Hbuild).
    exists g. split; [exact Hg|].
    destruct Hbuild as [[Hall Hbuild] | [Hnot [e Hbuild]]]; rewrite Hbuild.
    + split; [intros _; eexists; reflexivity|].
      intros out Hout. injection Hout as <-. rewrite stamp_footers_length.
      split; [apply placed_pages_length|]. split; [reflexivity|].
      intros i placed Hi. unfold stamp_footers. rewrite stamp_from_nth, Hi.
      cbn [option_map]. unfold draw_page_number_footer. rewrite Hdraw. reflexivity.
    + split; [intro Hall; contradiction | intros out Hout; discriminate Hout].
Qed.

(** ** The placement loop with an early stop *)

Lemma imap_from_firstn {A B} (f : nat -> A -> B) (m : nat) (l : list A) : forall k,
  imap_from k f (firstn m l) = firstn m (imap_from k f l).
Proof.
  revert m. induction l as [|a l IH]; intros m k.
  - rewrite !firstn_nil. reflexivity.
  - destruct m as [|m]; [reflexivity|]. cbn [firstn imap_from]. rewrite IH. reflexivity.
Qed.

Lemma firstn_seq (m : nat) : forall start len,
  firstn m (seq start len) = seq start (Nat.min m len).
Proof.
  induction m as [|m IH]; intros start len; [reflexivity|].
  destruct len as [|len]; [reflexivity|].
  cbn [seq firstn Nat.min]. rewrite IH. reflexivity.
Qed.

Lemma chunks_firstn {A} (size K : nat) (l : list A) :
  (0 < size)%nat -> (K * size <= length l)%nat ->
  chunks size (firstn (K * size) l) = firstn K (chunks size l).
Proof.
  intros Hs HK. unfold chunks.
  rewrite firstn_map, firstn_seq, length_firstn.
  replace (Nat.min (K * size) (length l)) with (K * size)%nat by lia.
  replace ((K * size + size - 1) / size)%nat with K
    by (apply (Nat.div_unique _ _ _ (size - 1)); lia).
  replace (Nat.min K ((length l + size - 1) / size)) with K.
  - apply map_ext_in. intros i Hi. apply in_seq in Hi.
    rewrite skipn_firstn_comm, firstn_firstn. f_equal. nia.
  - symmetry. apply Nat.min_l.
    apply Nat.div_le_lower_bound; [lia | nia].
Qed.

Lemma placed_pages_firstn params g K items :
  1 <= g_total_slots g ->
  (K * Z.to_nat (g_total_slots g) <= length items)%nat ->
  placed_pages params g (firstn (K * Z.to_nat (g_total_slots g)) items) =
  firstn K (placed_pages params g items).
Proof.
  intros HT HK. unfold placed_pages.
  rewrite imap_from_firstn, chunks_firstn, firstn_map;
    [reflexivity | lia | rewrite imap_from_length; exact HK].
Qed.

(** With the bound [k], the loop returns when [k] output pages are full. *)
Lemma place_until params g k todo : forall seen st,
  1 <= g_total_slots g -> 1 <= k ->
  placing params g seen st ->
  all_accepted params g (length seen) todo ->
  (length seen < Z.to_nat k * Z.to_nat (g_total_slots g))%nat ->
  (Z.to_nat k * Z.to_nat (g_total_slots g) <= length (seen ++ todo))%nat ->
  for_flow todo (place_item params g (Some k)) st =
  Return (stamp_footers params
            (placed_pages params g
               (firstn (Z.to_nat k * Z.to_nat (g_total_slots g)) (seen ++ todo)))).
Proof.
  induction todo as [|item todo IH]; intros seen st HT Hk Hinv Hall Hlo Hhi.
  - rewrite app_nil_r in Hhi. lia.
  - cbn [for_flow]. rewrite (place_item_step params g (Some k) seen st item HT Hinv).
    apply all_accepted_cons in Hall. destruct Hall as [Hacc Hall].
    unfold accepted in Hacc. rewrite Hacc.
    assert (Hlen : length (seen ++ [item]) = S (length seen))
      by (rewrite length_app; cbn [length]; lia).
    rewrite <- Hlen in Hall.
    replace (seen ++ item :: todo) with ((seen ++ [item]) ++ todo) in *
      by (rewrite <- app_assoc; reflexivity).
    assert (Hs : (0 < Z.to_nat (g_total_slots g))%nat) by lia.
    destruct (Z.eqb_spec (Z.of_nat (length (seen ++ [item])) mod g_total_slots g) 0)
      as [E|E]; rewrite (mod_zero_nat _ _ HT) in E.
    + destruct (runs_count_full _ _ Hs E) as (Hcount & _ & Hfull).
      rewrite placed_pages_length, Hcount.
      destruct (Z.leb_spec k (Z.of_nat (length (seen ++ [item]) / Z.to_nat (g_total_slots g))))
        as [Ek|Ek].
      * assert (Heq : (Z.to_nat k * Z.to_nat (g_total_slots g)
                       = length (seen ++ [item]))%nat) by nia.
        rewrite Heq, firstn_app, firstn_all, Nat.sub_diag, firstn_O, app_nil_r.
        reflexivity.
      * apply IH; [exact HT | exact Hk | repeat split | exact Hall | nia | exact Hhi].
    + apply IH; [exact HT | exact Hk | repeat split | exact Hall | | exact Hhi].
      assert (length (seen ++ [item]) <> Z.to_nat k * Z.to_nat (g_total_slots g))%nat.
      { intro Heq. apply E. rewrite Heq. apply Nat.Div0.mod_mul. }
      lia.
Qed.

(** ** Builds that differ in the trim settings *)

Lemma stamp_from_with_trim trim threshold params total_out pages : forall i,
  stamp_from (with_trim trim threshold params) i total_out pages =
  stamp_from params i total_out pages.
Proof.
  induction pages as [|page rest IH]; intro i; cbn [stamp_from]; [reflexivity|].
  rewrite IH. reflexivity.
Qed.

Lemma place_item_with_trim trim1 trim2 threshold1 threshold2 params g stop st path pno sp :
  clip_of (with_trim trim1 threshold1 params) sp
    = clip_of (with_trim trim2 threshold2 params) sp ->
  place_item (with_trim trim1 threshold1 params) g stop st (path, pno, sp) =
  place_item (with_trim trim2 threshold2 params) g stop st (path, pno, sp).
Proof.
  intro Hclip. unfold place_item, place_page. rewrite Hclip.
  change (draw_cell_indices (with_trim trim1 threshold1 params))
    with (draw_cell_indices (with_trim trim2 threshold2 params)).
  change (cell_index_font_pt (with_trim trim1 threshold1 params))
    with (cell_index_font_pt (with_trim trim2 threshold2 params)).
  destruct (bind _ _) as [shown_out|e]; [|reflexivity].
  destruct (if draw_cell_indices _ then _ else _) as [indexed_out|e]; [|reflexivity].
  destruct (g_total_slots g <=? slot_used st + 1); [|reflexivity].
  destruct stop as [k|]; [|reflexivity].
  destruct (k <=? Z.of_nat (length indexed_out)); [|reflexivity].
  unfold stamp_footers. rewrite !stamp_from_with_trim. reflexivity.
Qed.

Lemma source_pages_In path pno sp src_files :
  In (path, pno, sp) (source_pages src_files) ->
  exists src, fitz_open path = Ok src /\ In sp src.
Proof.
  unfold source_pages. rewrite in_flat_map. intros (path' & _ & Hin).
  destruct (fitz_open path') as [src|e] eqn:E; [|contradiction].
  rewrite imap_from_tagged in Hin.
  apply in_map_iff in Hin. destruct Hin as ([pno' sp'] & Heq & Hin).
  cbn [fst snd] in Heq. injection Heq as -> -> ->.
  exists src. split; [exact E|].
  clear E. revert Hin. generalize 0%nat.
  induction src as [|a src IH]; intros k Hin; [contradiction|].
  cbn [imap_from] in Hin. destruct Hin as [Hin|Hin].
  - injection Hin as _ ->. left. reflexivity.
  - right. exact (IH _ Hin).
Qed.

Lemma build_with_trim trim1 trim2 threshold1 threshold2 src_files params stop :
  (forall path src sp, fitz_open path = Ok src -> In sp src ->
     clip_of (with_trim trim1 threshold1 params) sp
       = clip_of (with_trim trim2 threshold2 params) sp) ->
  build_nup_from_multiple src_files (with_trim trim1 threshold1 params) stop =
  build_nup_from_multiple src_files (with_trim trim2 threshold2 params) stop.
Proof.
  intro Hclip. rewrite !build_flat.
  change (geometry_of (with_trim trim1 threshold1 params)) with (geometry_of params).
  change (geometry_of (with_trim trim2 threshold2 params)) with (geometry_of params).
  destruct (geometry_of params) as [g|e]; [|reflexivity]. cbn [bind].
  rewrite (for_flow_ext _ (place_item (with_trim trim1 threshold1 params) g stop)
                          (place_item (with_trim trim2 threshold2 params) g stop)).
  - destruct (for_flow _ _ _); [|reflexivity|reflexivity].
    unfold stamp_footers. rewrite !stamp_from_with_trim. reflexivity.
  - intros st [[path pno] sp] Hin.
    destruct (source_pages_In _ _ _ _ Hin) as (src & Hopen & Hsp).
    apply place_item_with_trim. exact (Hclip _ _ _ Hopen Hsp).
Qed.

Lemma clip_of_no_estimate threshold params sp :
  no_estimate sp threshold ->
  clip_of (with_trim true threshold params) sp
    = clip_of (with_trim false threshold params) sp.
Proof.
  intro H. unfold clip_of. cbn [with_trim trim_whitespace trim_threshold].
  apply estimate_no_estimate, H.
Qed.

Lemma no_estimate_nonpositive sp threshold : threshold <= 0 -> no_estimate sp threshold.
Proof.
  intro Ht. destruct (rasterized sp) as [pix|e] eqn:E.
  - right. exists pix. split; [exact E|]. right. left.
    intros pix' _. apply blank_nonpositive, Ht.
  - left. exists e. exact E.
Qed.

(** The build returns when PyMuPDF accepts the [show_pdf_page] calls. *)
Lemma build_returns src_files params g :
  wf_layout (layout params) ->
  geometry_of params = Ok g ->
  all_accepted params g 0 (source_pages src_files) ->
  exists out, build_nup_from_multiple src_files params None = Ok out.
Proof.
  intros Hwf Hg Hall.
  destruct (build_all src_files params Hwf) as (g' & Hg' & _ & _ & Hbuild).
  rewrite Hg in Hg'. injection Hg' as <-.
  destruct Hbuild as [[_ ->] | [Hnot _]]; [eexists; reflexivity | contradiction].
Qed.

(** C6. When the estimator has no box for a page (rasterizing raises, the
    scan raises, no pixel is below the threshold, or mapping the box back
    raises), the clip rectangle is the rectangle of the page.  No exception
    of the estimator reaches the build: when the estimator has no box for
    any page of the sources, the build with trimming is the build without;
    and with trimming, whatever the estimator does, the build returns when
    PyMuPDF accepts the [show_pdf_page] calls (at least one row and column
    given). *)
Theorem trim_fails_open (src_page : Page) (threshold : Z)
    (src_files : list string) (params : BuildParams) (stop : option Z) :
  (no_estimate src_page threshold ->
   estimate_content_clip src_page threshold = rect src_page) /\
  ((forall path src sp, fitz_open path = Ok src -> In sp src ->
      no_estimate sp threshold) ->
   build_nup_from_multiple src_files (with_trim true threshold params) stop =
   build_nup_from_multiple src_files (with_trim false threshold params) stop) /\
  (wf_layout (layout params) ->
   forall g, geometry_of (with_trim true threshold params) = Ok g ->
     all_accepted (with_trim true threshold params) g 0 (source_pages src_files) ->
     exists out,
       build_nup_from_multiple src_files (with_trim true threshold params) None = Ok out).
Proof.
  split; [apply estimate_no_estimate|]. split.
  - intro Hall. apply build_with_trim. intros path src sp Hopen Hin.
    apply clip_of_no_estimate. exact (Hall path src sp Hopen Hin).
  - intros Hwf g Hg Hall.
    exact (build_returns src_files (with_trim true threshold params) g Hwf Hg Hall).
Qed.

(** C10. With threshold 0 the scan finds no box in any pixmap, the clip
    rectangle of every page is its full rectangle, and a build with
    trimming enabled is the build with trimming disabled. *)
Theorem zero_threshold_trims_nothing (pix : Pixmap) (src_page : Page)
    (src_files : list string) (params : BuildParams) (stop : option Z) :
  nonwhite_bbox_pixmap pix 0 = None /\
  estimate_content_clip src_page 0 = rect src_page /\
  build_nup_from_multiple src_files (with_trim true 0 params) stop =
  build_nup_from_multiple src_files (with_trim false 0 params) stop.
Proof.
  split; [|split].
  - apply nonwhite_bbox_blank. intros pix' _. apply blank_nonpositive. lia.
  - apply estimate_no_estimate, no_estimate_nonpositive. lia.
  - apply build_with_trim. intros path src sp _ _.
    apply clip_of_no_estimate, no_estimate_nonpositive. lia.
Qed.

(** ** Sources that do not open, and sources without pages *)

Lemma source_pages_app l1 l2 :
  source_pages (l1 ++ l2) = source_pages l1 ++ source_pages l2.
Proof. unfold source_pages. apply flat_map_app. Qed.

(** C8. A path that does not open is skipped: with it anywhere in the list,
    two documents that open around it for one, the build does what it does
    for the list without it and returns the same document; it returns when
    PyMuPDF accepts the [show_pdf_page] calls for the pages of the other
    sources (at least one row and column given). *)
Theorem unopenable_source_skipped (before after : list string) (bad : string)
    (e : exn) (params : BuildParams) (stop : option Z) :
  fitz_open bad = Raise e ->
  build_nup_from_multiple (before ++ bad :: after) params stop =
  build_nup_from_multiple (before ++ after) params stop /\
  (wf_layout (layout params) ->
   forall g, geometry_of params = Ok g ->
     all_accepted params g 0 (source_pages (before ++ after)) ->
     exists out,
       build_nup_from_multiple (before ++ bad :: after) params None = Ok out).
Proof.
  intro Hbad.
  assert (Hsame : forall stop',
            build_nup_from_multiple (before ++ bad :: after) params stop' =
            build_nup_from_multiple (before ++ after) params stop').
  { intro stop'.
    rewrite !build_flat, !source_pages_app, (source_pages_cons bad after).
    unfold source_pages at 2. cbn [flat_map]. rewrite Hbad. reflexivity. }
  split; [apply Hsame|].
  intros Hwf g Hg Hall. rewrite Hsame.
  exact (build_returns (before ++ after) params g Hwf Hg Hall).
Qed.

(** C9. With at least one row and column, a source list none of whose
    documents has a page, the empty list among them, builds the document
    with no pages. *)
Theorem build_of_no_pages (src_files : list string) (params : BuildParams)
    (stop : option Z) :
  wf_layout (layout params) ->
  (forall path src, In path src_files -> fitz_open path = Ok src -> src = []) ->
  build_nup_from_multiple src_files params stop = Ok [].
Proof.
  intros Hwf Hnone.
  destruct (geometry_of_wf params Hwf) as (g & Hg & _).
  assert (Hitems : source_pages src_files = []).
  { unfold source_pages. induction src_files as [|path src_files IH]; [reflexivity|].
    cbn [flat_map]. rewrite IH by (intros p src Hin; apply Hnone; right; exact Hin).
    destruct (fitz_open path) as [src|e'] eqn:E; [|reflexivity].
    rewrite (Hnone path src (or_introl eq_refl) E). reflexivity. }
  rewrite build_flat, Hg, Hitems. reflexivity.
Qed.

(** * Further properties *)

(** ** Grid chooser *)

(** X1. The chooser only ever returns one of five grids, decided by the
    largest number of columns whose cells are wide enough; the height of the
    page and the comparison of equal slot counts never change the result. *)
Theorem choose_auto_grid_by_columns (paper_pt : Q * Q) (layout : LayoutParams) :
  choose_auto_grid paper_pt layout =
  if fits paper_pt layout 4 then (4, 4)
  else if fits paper_pt layout 3 then (4, 3)
  else if fits paper_pt layout 2 then (4, 2)
  else if fits paper_pt layout 1 then (2, 1)
  else (1, 1).
Proof.
  destruct (choose_auto_grid_inv paper_pt layout) as [Hbest Hmax].
  pose proof (choose_auto_grid_candidate paper_pt layout) as Hin.
  revert Hbest Hmax Hin. generalize (choose_auto_grid paper_pt layout).
  intros best Hbest Hmax Hin.
  assert (Hyes : forall r c, In (r, c) CANDIDATE_GRIDS -> fits paper_pt layout c = true ->
                             r * c <= slot_count best).
  { intros r c Hc Hf. apply Qle_bool_iff in Hf.
    destruct (Hmax (r, c) Hc Hf) as (_ & Hle & _). exact Hle. }
  assert (Hno : forall c, fits paper_pt layout c = false -> snd best = c -> best = (1, 1)).
  { intros c Hf Hc. destruct Hbest as [E | [_ Hq]]; [exact E|].
    unfold qualifies in Hq. rewrite Hc in Hq. apply Qle_bool_iff in Hq.
    unfold fits in Hf. congruence. }
  clear Hbest Hmax.
  assert (H44 : In (4, 4) CANDIDATE_GRIDS) by (repeat first [left; reflexivity | right]).
  assert (H43 : In (4, 3) CANDIDATE_GRIDS) by (repeat first [left; reflexivity | right]).
  assert (H42 : In (4, 2) CANDIDATE_GRIDS) by (repeat first [left; reflexivity | right]).
  assert (H21 : In (2, 1) CANDIDATE_GRIDS) by (repeat first [left; reflexivity | right]).
  specialize (Hyes 4 4 H44) as Hyes4. specialize (Hyes 4 3 H43) as Hyes3.
  specialize (Hyes 4 2 H42) as Hyes2. specialize (Hyes 2 1 H21) as Hyes1.
  clear Hyes H44 H43 H42 H21.
  unfold CANDIDATE_GRIDS in Hin. cbn [In] in Hin.
  destruct (fits paper_pt layout 4) eqn:F4;
    [|destruct (fits paper_pt layout 3) eqn:F3;
      [|destruct (fits paper_pt layout 2) eqn:F2;
        [|destruct (fits paper_pt layout 1) eqn:F1]]];
    repeat (destruct Hin as [<- | Hin]); try (destruct Hin);
    unfold slot_count in *; cbn [fst snd] in *;
    try reflexivity;
    try (specialize (Hyes4 eq_refl); lia);
    try (specialize (Hyes3 eq_refl); lia);
    try (specialize (Hyes2 eq_refl); lia);
    try (specialize (Hyes1 eq_refl); lia);
    match goal with
    | F : fits _ _ ?c = false |- _ => discriminate (Hno c F eq_refl)
    end.
Qed.

Lemma float_of_int_nonneg (n : Z) : 0 <= n -> (0 <= float_of_int n)%Q.
Proof.
  intro H. unfold float_of_int. apply fl_nonneg.
  change 0%Q with (inject_Z 0). rewrite <- Zle_Qle. exact H.
Qed.

Lemma float_of_int_pos (n : Z) : 1 <= n -> (0 < float_of_int n)%Q.
Proof.
  intro H. unfold float_of_int.
  apply Qlt_le_trans with (fl (inject_Z 1)); [vm_compute; reflexivity|].
  apply fl_le. rewrite <- Zle_Qle. exact H.
Qed.

Lemma cell_extent_le (u1 u2 g1 g2 : Q) (c : Z) :
  1 <= c -> (u1 <= u2)%Q -> (g2 <= g1)%Q ->
  (cell_extent u1 g1 c <= cell_extent u2 g2 c)%Q.
Proof.
  intros Hc Hu Hg. unfold cell_extent, fdiv, fsub, fmul.
  pose proof (float_of_int_nonneg (c - 1) ltac:(lia)) as H1.
  pose proof (float_of_int_pos c Hc) as Hpos.
  apply fl_le. unfold Qdiv.
  apply Qmult_le_compat_r; [|apply Qlt_le_weak, Qinv_lt_0_compat, Hpos].
  apply fl_le.
  assert (Hm : (fl (float_of_int (c - 1) * g2) <= fl (float_of_int (c - 1) * g1))%Q).
  { apply fl_le. rewrite !(Qmult_comm (float_of_int (c - 1))).
    apply Qmult_le_compat_r; assumption. }
  lra.
Qed.

(** X2. More room never gives fewer slots: a wider page, a smaller margin, a
    smaller gap or a smaller minimum slide width leaves the slot count of
    the chosen grid as it is or raises it. *)
Theorem choose_auto_grid_more_room (pw1 ph1 pw2 ph2 : Q) (l1 l2 : LayoutParams) :
  (pw1 <= pw2)%Q ->
  (margin_mm l2 <= margin_mm l1)%Q ->
  (gap_mm l2 <= gap_mm l1)%Q ->
  (min_slide_w_mm l2 <= min_slide_w_mm l1)%Q ->
  slot_count (choose_auto_grid (pw1, ph1) l1)
  <= slot_count (choose_auto_grid (pw2, ph2) l2).
Proof.
  intros Hpw Hmargin Hgap Hmin.
  destruct (choose_auto_grid_inv (pw1, ph1) l1) as [[E | [Hin Hq]] _].
  - rewrite E. destruct (candidate_slots _ (choose_auto_grid_candidate (pw2, ph2) l2)).
    unfold slot_count. cbn [fst snd]. nia.
  - destruct (choose_auto_grid_inv (pw2, ph2) l2) as [_ Hmax].
    apply (Hmax _ Hin).
    unfold qualifies, grid_cell_w in *. cbn [fst] in *.
    eapply Qle_trans; [apply mm_to_pt_le, Hmin|].
    eapply Qle_trans; [exact Hq|].
    apply cell_extent_le.
    + apply (candidate_slots _ Hin).
    + pose proof (mm_to_pt_le _ _ Hmargin) as Hm. unfold fsub, fmul. apply fl_le.
      assert (H2 : (fl (2 * mm_to_pt (margin_mm l2)) <= fl (2 * mm_to_pt (margin_mm l1)))%Q)
        by (apply fl_le; lra).
      lra.
    + apply mm_to_pt_le, Hgap.
Qed.

(** ** Paper sizes *)

(** X3. Whatever the name, known or not, the upright page is taller than
    wide and the landscape page is the upright one turned; a name that is
    not in the table gives A4. *)
Theorem paper_size_pt_sides (name : string) :
  (fst (paper_size_pt name false) < snd (paper_size_pt name false))%Q /\
  paper_size_pt name true
    = (snd (paper_size_pt name false), fst (paper_size_pt name false)) /\
  (lookup name sizes_mm = None ->
   forall landscape, paper_size_pt name landscape = paper_size_pt "A4" landscape).
Proof.
  unfold paper_size_pt.
  destruct (lookup name sizes_mm) as [s|] eqn:E.
  - rewrite E.
    assert (Hs : s = (210, 297)%Q \/ s = (297, 420)%Q \/
                 s = (fl (2159 # 10), fl (2794 # 10))).
    { unfold sizes_mm in E. cbn [lookup] in E.
      destruct (String.eqb name "A4"); [injection E as <-; left; reflexivity|].
      destruct (String.eqb name "A3"); [injection E as <-; right; left; reflexivity|].
      destruct (String.eqb name "Letter"); [|discriminate E].
      injection E as <-. right; right; reflexivity. }
    destruct Hs as [-> | [-> | ->]];
      (split; [vm_compute; reflexivity | split; [reflexivity | intro H; discriminate H]]).
  - change (lookup "A4" sizes_mm) with (Some (210, 297)%Q).
    split; [vm_compute; reflexivity
           | split; [reflexivity | intros _ landscape; reflexivity]].
Qed.

(** ** The scan of the content-bounds estimator *)

Lemma for_in_seq_inv {S} (P : nat -> S -> Prop) (body : S -> nat -> result S) (len : nat) :
  forall start s s',
  P start s ->
  (forall i t t', (start <= i < start + len)%nat -> P i t -> body t i = Ok t' ->
                  P (Datatypes.S i) t') ->
  for_in (seq start len) body s = Ok s' ->
  P (start + len)%nat s'.
Proof.
  induction len as [|len IH]; intros start s s' H0 Hstep Hrun; cbn [seq for_in] in Hrun.
  - injection Hrun as <-. rewrite Nat.add_0_r. exact H0.
  - destruct (body s start) as [t|e] eqn:E; [|discriminate Hrun]. cbn [bind] in Hrun.
    rewrite Nat.add_succ_r. apply (IH (Datatypes.S start) t s').
    + apply (Hstep start s t); [lia | exact H0 | exact E].
    + intros i u u' Hi. apply Hstep. lia.
    + exact Hrun.
Qed.

Lemma for_in_total {A S} (xs : list A) (body : S -> A -> result S) :
  (forall s x, In x xs -> exists s', body s x = Ok s') ->
  forall s, exists s', for_in xs body s = Ok s'.
Proof.
  induction xs as [|x xs IH]; intros H s; cbn [for_in].
  - exists s. reflexivity.
  - destruct (H s x (or_introl eq_refl)) as [t ->]. cbn [bind].
    apply IH. intros u y Hy. apply H. right. exact Hy.
Qed.

Lemma for_in_raises {A S} (xs : list A) (body : S -> A -> result S) (x : A) :
  In x xs -> (forall s, exists e, body s x = Raise e) ->
  forall s, exists e, for_in xs body s = Raise e.
Proof.
  induction xs as [|y xs IH]; intros Hin Hx s; [contradiction|]. cbn [for_in].
  destruct (body s y) as [t|e] eqn:E; cbn [bind].
  - destruct Hin as [->|Hin]; [destruct (Hx s) as [e He]; congruence|].
    apply IH; assumption.
  - exists e. reflexivity.
Qed.

Lemma bounds_inv_ext pix threshold (seen seen' : nat -> nat -> Prop) acc :
  (forall x y, seen x y <-> seen' x y) ->
  bounds_inv pix threshold seen acc -> bounds_inv pix threshold seen' acc.
Proof.
  intros Hext. destruct acc as [[[xmin ymin] xmax] ymax]. unfold bounds_inv.
  intros [[Hnone Hacc] | (Hall & (x1 & y1 & S1 & D1 & E1) & (x2 & y2 & S2 & D2 & E2)
                           & (x3 & y3 & S3 & D3 & E3) & (x4 & y4 & S4 & D4 & E4))].
  - left. split; [|exact Hacc]. intros x y Hs. apply Hnone, Hext, Hs.
  - right. split; [intros x y Hs; apply Hall, Hext, Hs|].
    split; [exists x1, y1 | split; [exists x2, y2 | split; [exists x3, y3 | exists x4, y4]]];
      (split; [apply Hext; assumption | split; assumption]).
Qed.

(** The scan reads the channels of [pixel]. *)
Lemma scan_pixel_reads pix threshold y acc x acc' :
  scan_pixel threshold (n pix)
    (slice (samples pix) (y * width pix * n pix) (y * width pix * n pix + width pix * n pix))
    y acc x = Ok acc' ->
  exists r g b, pixel pix x y = Ok (r, g, b) /\
    acc' = let '(xmin, ymin, xmax, ymax) := acc in
           if Z.min (Z.min r g) b <? threshold then
             (if Z.of_nat x <? xmin then Z.of_nat x else xmin,
              if Z.of_nat y <? ymin then Z.of_nat y else ymin,
              if xmax <? Z.of_nat x then Z.of_nat x else xmax,
              if ymax <? Z.of_nat y then Z.of_nat y else ymax)
           else acc.
Proof.
  unfold scan_pixel, pixel.
  destruct (index _ (x * n pix)) as [r|e]; [|discriminate].
  destruct (index _ (x * n pix + 1)) as [g|e]; [|discriminate].
  destruct (index _ (x * n pix + 2)) as [b|e]; [|discriminate].
  cbn [bind]. intro H. exists r, g, b. split; [reflexivity|].
  destruct acc as [[[xmin ymin] xmax] ymax].
  destruct (Z.min (Z.min r g) b <? threshold); injection H as <-; reflexivity.
Qed.

(** One more pixel read keeps what the scan knows. *)
Lemma scan_pixel_inv pix threshold (seen : nat -> nat -> Prop) x0 y0 acc acc' :
  bounds_inv pix threshold seen acc ->
  scan_pixel threshold (n pix)
    (slice (samples pix) (y0 * width pix * n pix)
           (y0 * width pix * n pix + width pix * n pix))
    y0 acc x0 = Ok acc' ->
  (x0 < width pix)%nat -> (y0 < height pix)%nat ->
  bounds_inv pix threshold (fun x y => seen x y \/ (x = x0 /\ y = y0)) acc'.
Proof.
  intros Hinv Hrun Hx Hy.
  destruct (scan_pixel_reads _ _ _ _ _ _ Hrun) as (r & g & b & Hpix & ->).
  destruct acc as [[[xmin ymin] xmax] ymax].
  destruct (Z.ltb_spec (Z.min (Z.min r g) b) threshold) as [Hdark|Hlight].
  - assert (D : dark pix threshold x0 y0) by (exists r, g, b; split; assumption).
    assert (Hnew : (fun x y => seen x y \/ x = x0 /\ y = y0) x0 y0)
      by (right; split; reflexivity).
    unfold bounds_inv in Hinv |- *. right.
    destruct Hinv as [[Hnone Hacc] | (Hall & (x1 & y1 & S1 & D1 & E1) & (x2 & y2 & S2 & D2 & E2)
                                        & (x3 & y3 & S3 & D3 & E3) & (x4 & y4 & S4 & D4 & E4))].
    + injection Hacc as -> -> -> ->.
      destruct (Z.ltb_spec (Z.of_nat x0) (Z.of_nat (width pix))); [|lia].
      destruct (Z.ltb_spec (Z.of_nat y0) (Z.of_nat (height pix))); [|lia].
      destruct (Z.ltb_spec (-1) (Z.of_nat x0)); [|lia].
      destruct (Z.ltb_spec (-1) (Z.of_nat y0)); [|lia].
      split.
      * intros x y [Hs | [-> ->]] Hd; [exfalso; exact (Hnone x y Hs Hd) | lia].
      * split; [|split; [|split]]; exists x0, y0;
          (split; [exact Hnew | split; [exact D | reflexivity]]).
    + split.
      * intros x y [Hs | [-> ->]] Hd.
        -- specialize (Hall x y Hs Hd).
           destruct (Z.ltb_spec (Z.of_nat x0) xmin), (Z.ltb_spec (Z.of_nat y0) ymin),
             (Z.ltb_spec xmax (Z.of_nat x0)), (Z.ltb_spec ymax (Z.of_nat y0)); lia.
        -- destruct (Z.ltb_spec (Z.of_nat x0) xmin), (Z.ltb_spec (Z.of_nat y0) ymin),
             (Z.ltb_spec xmax (Z.of_nat x0)), (Z.ltb_spec ymax (Z.of_nat y0)); lia.
      * split; [|split; [|split]].
        -- destruct (Z.ltb_spec (Z.of_nat x0) xmin);
             [exists x0, y0; split; [exact Hnew | split; [exact D | reflexivity]]
             |exists x1, y1; split; [left; exact S1 | split; assumption]].
        -- destruct (Z.ltb_spec xmax (Z.of_nat x0));
             [exists x0, y0; split; [exact Hnew | split; [exact D | reflexivity]]
             |exists x2, y2; split; [left; exact S2 | split; assumption]].
        -- destruct (Z.ltb_spec (Z.of_nat y0) ymin);
             [exists x0, y0; split; [exact Hnew | split; [exact D | reflexivity]]
             |exists x3, y3; split; [left; exact S3 | split; assumption]].
        -- destruct (Z.ltb_spec ymax (Z.of_nat y0));
             [exists x0, y0; split; [exact Hnew | split; [exact D | reflexivity]]
             |exists x4, y4; split; [left; exact S4 | split; assumption]].
  - assert (Hnot : ~ dark pix threshold x0 y0).
    { intros (r' & g' & b' & Hpix' & Hlt). rewrite Hpix in Hpix'.
      injection Hpix' as <- <- <-. lia. }
    unfold bounds_inv in Hinv |- *.
    destruct Hinv as [[Hnone Hacc] | (Hall & (x1 & y1 & S1 & D1 & E1) & (x2 & y2 & S2 & D2 & E2)
                                        & (x3 & y3 & S3 & D3 & E3) & (x4 & y4 & S4 & D4 & E4))].
    + left. split; [|exact Hacc].
      intros x y [Hs | [-> ->]]; [exact (Hnone x y Hs) | exact Hnot].
    + right. split.
      * intros x y [Hs | [-> ->]] Hd; [exact (Hall x y Hs Hd) | contradiction].
      * split; [exists x1, y1 | split; [exists x2, y2 | split; [exists x3, y3 | exists x4, y4]]];
          (split; [left; assumption | split; assumption]).
Qed.

Lemma scan_row_inv pix threshold y0 acc acc' :
  (y0 < height pix)%nat ->
  bounds_inv pix threshold (read_before pix 0 y0) acc ->
  scan_row threshold (width pix) (n pix) (samples pix) acc y0 = Ok acc' ->
  bounds_inv pix threshold (read_before pix 0 (S y0)) acc'.
Proof.
  intros Hy Hinv Hrun. unfold scan_row in Hrun.
  apply (bounds_inv_ext pix threshold (read_before pix (0 + width pix) y0)).
  { unfold read_before. intros x y. lia. }
  eapply (for_in_seq_inv (fun x0 t => bounds_inv pix threshold (read_before pix x0 y0) t));
    [exact Hinv | | exact Hrun].
  intros x0 t t' Hx0 Ht Hstep.
  apply (bounds_inv_ext pix threshold
           (fun x y => read_before pix x0 y0 x y \/ (x = x0 /\ y = y0))).
  { unfold read_before. intros x y. lia. }
  apply (scan_pixel_inv pix threshold _ x0 y0 t t' Ht Hstep); lia.
Qed.

(** What the scan knows at its end, of all the pixels. *)
Lemma scan_inv pix threshold acc' :
  for_in (seq 0 (height pix)) (scan_row threshold (width pix) (n pix) (samples pix))
         (Z.of_nat (width pix), Z.of_nat (height pix), -1, -1) = Ok acc' ->
  bounds_inv pix threshold
    (fun x y => (x < width pix)%nat /\ (y < height pix)%nat) acc'.
Proof.
  intro Hrun.
  apply (bounds_inv_ext pix threshold (read_before pix 0 (0 + height pix))).
  { unfold read_before. intros x y. lia. }
  eapply (for_in_seq_inv (fun y0 t => bounds_inv pix threshold (read_before pix 0 y0) t));
    [| |exact Hrun].
  - left. split; [|reflexivity]. unfold read_before. intros x y H. lia.
  - intros y0 t t' Hy0 Ht Hstep.
    apply (scan_row_inv pix threshold y0 t t'); [lia | exact Ht | exact Hstep].
Qed.

(** What a box of the scan is. *)
Lemma scan_box_bounds (pix : Pixmap) (threshold : Z) (box : Rect) :
  nonwhite_bbox_pixmap pix threshold = Some box ->
  exists p xmin ymin xmax ymax,
    without_alpha pix = Ok p /\
    box = mkRect (of_int xmin) (of_int ymin) (of_int (xmax + 1)) (of_int (ymax + 1)) /\
    (forall x y, (x < width p)%nat -> (y < height p)%nat -> dark p threshold x y ->
       xmin <= Z.of_nat x <= xmax /\ ymin <= Z.of_nat y <= ymax) /\
    (exists x y, (x < width p)%nat /\ (y < height p)%nat /\ dark p threshold x y /\
                 Z.of_nat x = xmin) /\
    (exists x y, (x < width p)%nat /\ (y < height p)%nat /\ dark p threshold x y /\
                 Z.of_nat x = xmax) /\
    (exists x y, (x < width p)%nat /\ (y < height p)%nat /\ dark p threshold x y /\
                 Z.of_nat y = ymin) /\
    (exists x y, (x < width p)%nat /\ (y < height p)%nat /\ dark p threshold x y /\
                 Z.of_nat y = ymax).
Proof.
  unfold nonwhite_bbox_pixmap, nonwhite_bbox_try.
  destruct (without_alpha pix) as [p|e]; [|discriminate]. cbn [bind].
  destruct (for_in _ _ _) as [[[[xmin ymin] xmax] ymax]|e] eqn:Hrun; [|discriminate].
  cbn [bind]. apply scan_inv in Hrun.
  destruct (Z.ltb_spec xmax 0) as [Hneg|Hpos]; [discriminate|].
  intro H. injection H as <-.
  exists p, xmin, ymin, xmax, ymax. split; [reflexivity|]. split; [reflexivity|].
  unfold bounds_inv in Hrun.
  destruct Hrun as [[_ Hacc] | (Hall & (x1 & y1 & S1 & D1 & E1) & (x2 & y2 & S2 & D2 & E2)
                                & (x3 & y3 & S3 & D3 & E3) & (x4 & y4 & S4 & D4 & E4))].
  - injection Hacc as _ _ -> _. lia.
  - split; [intros x y Hx Hy; apply Hall; split; assumption|].
    split; [exists x1, y1 | split; [exists x2, y2 | split; [exists x3, y3 | exists x4, y4]]];
      (split; [|split; [|split]]; [| |assumption|assumption]);
      first [apply S1 | apply S2 | apply S3 | apply S4].
Qed.

(** X4. The box of the scan is the box of the dark pixels: it encloses every
    pixel that is below the threshold, and each of its four sides passes
    through one of them. *)
Theorem nonwhite_bbox_pixmap_encloses (pix : Pixmap) (threshold : Z) (box : Rect) :
  nonwhite_bbox_pixmap pix threshold = Some box ->
  exists p xmin ymin xmax ymax,
    without_alpha pix = Ok p /\
    box = mkRect (of_int xmin) (of_int ymin) (of_int (xmax + 1)) (of_int (ymax + 1)) /\
    (forall x y, (x < width p)%nat -> (y < height p)%nat -> dark p threshold x y ->
       xmin <= Z.of_nat x <= xmax /\ ymin <= Z.of_nat y <= ymax) /\
    (exists x y, (x < width p)%nat /\ (y < height p)%nat /\ dark p threshold x y /\
                 Z.of_nat x = xmin) /\
    (exists x y, (x < width p)%nat /\ (y < height p)%nat /\ dark p threshold x y /\
                 Z.of_nat x = xmax) /\
    (exists x y, (x < width p)%nat /\ (y < height p)%nat /\ dark p threshold x y /\
                 Z.of_nat y = ymin) /\
    (exists x y, (x < width p)%nat /\ (y < height p)%nat /\ dark p threshold x y /\
                 Z.of_nat y = ymax).
Proof.
  intro Hbox.
  destruct (scan_box_bounds pix threshold box Hbox)
    as (p & xmin & ymin & xmax & ymax & Hp & Hrect & Hall & Hsides).
  exists p, xmin, ymin, xmax, ymax.
  split; [exact Hp|]. split; [exact Hrect|]. split; [exact Hall | exact Hsides].
Qed.

Lemma slice_length (data : list byte) (a len : nat) :
  (a + len <= length data)%nat -> length (slice data a (a + len)) = len.
Proof.
  intro H. unfold slice. rewrite length_firstn, length_skipn. lia.
Qed.

Lemma index_in_range (row : list byte) (i : nat) :
  (i < length row)%nat -> exists v, index row i = Ok v.
Proof.
  intro H. unfold index. destruct (nth_error row i) as [b|] eqn:E.
  - eexists. reflexivity.
  - apply nth_error_None in E. lia.
Qed.

Lemma index_out_of_range (row : list byte) (i : nat) :
  (length row <= i)%nat -> index row i = Raise IndexError.
Proof.
  intro H. unfold index. apply nth_error_None in H. rewrite H. reflexivity.
Qed.

(** Every pixel of an RGB pixmap can be read. *)
Lemma rgb_pixel_readable pix x y :
  rgb_pixmap pix -> (x < width pix)%nat -> (y < height pix)%nat ->
  exists r g b, pixel pix x y = Ok (r, g, b).
Proof.
  intros (_ & Hn & Hlen) Hx Hy. unfold pixel.
  set (row := slice (samples pix) (y * width pix * n pix)
                (y * width pix * n pix + width pix * n pix)).
  assert (Hrow : length row = (width pix * n pix)%nat).
  { apply slice_length. nia. }
  destruct (index_in_range row (x * n pix)) as [r ->]; [rewrite Hrow; nia|].
  destruct (index_in_range row (x * n pix + 1)) as [g ->]; [rewrite Hrow; nia|].
  destruct (index_in_range row (x * n pix + 2)) as [b ->]; [rewrite Hrow; nia|].
  exists r, g, b. reflexivity.
Qed.

Lemma rgb_scan_total pix threshold acc :
  rgb_pixmap pix ->
  exists acc',
    for_in (seq 0 (height pix)) (scan_row threshold (width pix) (n pix) (samples pix)) acc
    = Ok acc'.
Proof.
  intro Hrgb. apply for_in_total. intros t y Hy. apply in_seq in Hy.
  unfold scan_row. apply for_in_total. intros u x Hx. apply in_seq in Hx.
  destruct (rgb_pixel_readable pix x y Hrgb) as (r & g & b & Hpix); [lia | lia |].
  unfold pixel in Hpix. unfold scan_pixel.
  destruct (index _ (x * n pix)) as [r'|e]; [|discriminate].
  destruct (index _ (x * n pix + 1)) as [g'|e]; [|discriminate].
  destruct (index _ (x * n pix + 2)) as [b'|e]; [|discriminate].
  cbn [bind]. destruct u as [[[xmin ymin] xmax] ymax].
  destruct (Z.min (Z.min r' g') b' <? threshold); eexists; reflexivity.
Qed.

(** X5. On an RGB pixmap the scan finds no box exactly when no pixel is
    below the threshold. *)
Theorem nonwhite_bbox_pixmap_none_iff_blank (pix : Pixmap) (threshold : Z) :
  rgb_pixmap pix ->
  (nonwhite_bbox_pixmap pix threshold = None <-> blank pix threshold).
Proof.
  intro Hrgb.
  assert (Hpix : without_alpha pix = Ok pix).
  { unfold without_alpha. destruct Hrgb as [-> _]. reflexivity. }
  split.
  - unfold nonwhite_bbox_pixmap, nonwhite_bbox_try. rewrite Hpix. cbn [bind].
    destruct (rgb_scan_total pix threshold
                (Z.of_nat (width pix), Z.of_nat (height pix), -1, -1) Hrgb)
      as [[[[xmin ymin] xmax] ymax] Hrun].
    rewrite Hrun. cbn [bind]. apply scan_inv in Hrun.
    destruct (Z.ltb_spec xmax 0) as [Hneg|Hpos]; [|discriminate].
    intros _ x y r g b Hx Hy Hread.
    destruct (Z.le_gt_cases threshold (Z.min (Z.min r g) b)) as [Hle|Hlt]; [exact Hle|].
    exfalso. unfold bounds_inv in Hrun.
    assert (D : dark pix threshold x y) by (exists r, g, b; split; [exact Hread | lia]).
    destruct Hrun as [[Hnone _] | (Hall & _)].
    + exact (Hnone x y (conj Hx Hy) D).
    + specialize (Hall x y (conj Hx Hy) D). lia.
  - intro Hblank. apply nonwhite_bbox_blank. intros pix' H.
    rewrite Hpix in H. injection H as <-. exact Hblank.
Qed.

(** X6. A pixmap with fewer than three components per pixel gives no box,
    whatever its pixels are: reading the third channel of the last pixel of
    the first row raises, and the exception is caught. *)
Theorem nonwhite_bbox_pixmap_too_few_components (pix : Pixmap) (threshold : Z) :
  (forall p, without_alpha pix = Ok p ->
     (n p < 3)%nat /\ (0 < width p)%nat /\ (0 < height p)%nat) ->
  nonwhite_bbox_pixmap pix threshold = None.
Proof.
  intro Hp. unfold nonwhite_bbox_pixmap, nonwhite_bbox_try.
  destruct (without_alpha pix) as [p|e]; [|reflexivity]. cbn [bind].
  destruct (Hp p eq_refl) as (Hn & Hw & Hh).
  destruct (for_in_raises (seq 0 (height p))
              (scan_row threshold (width p) (n p) (samples p)) 0%nat)
    with (s := (Z.of_nat (width p), Z.of_nat (height p), -1, -1)) as [e ->];
    [apply in_seq; lia | | reflexivity].
  intro acc. unfold scan_row.
  apply (for_in_raises (seq 0 (width p)) _ (width p - 1)%nat); [apply in_seq; lia|].
  intro t. unfold scan_pixel.
  destruct (index _ ((width p - 1) * n p)) as [r|e]; [|exists e; reflexivity].
  destruct (index _ ((width p - 1) * n p + 1)) as [g|e]; [|exists e; reflexivity].
  rewrite index_out_of_range; [exists IndexError; reflexivity|].
  unfold slice. rewrite length_firstn. nia.
Qed.

(** ** The estimate keeps what is dark *)

(** A point of both rectangles is a point of their intersection. *)
Lemma Rect_and_in_rect a r px py :
  in_rect a px py -> in_rect r px py -> in_rect (Rect_and a r) px py.
Proof.
  intros (A0 & A1 & A2 & A3) (R0 & R1 & R2 & R3). unfold Rect_and.
  destruct (is_empty r); [repeat split; assumption|].
  destruct (is_empty a); [repeat split; assumption|].
  unfold in_rect. cbn [x0 y0 x1 y1].
  destruct (Qlt_bool (x0 a) (x0 r)), (Qlt_bool (y0 a) (y0 r)),
    (Qlt_bool (x1 r) (x1 a)), (Qlt_bool (y1 r) (y1 a)); repeat split; assumption.
Qed.

Lemma inject_Z_le (a b : Z) : a <= b -> (inject_Z a <= inject_Z b)%Q.
Proof. intro H. rewrite <- Zle_Qle. exact H. Qed.

(** The box of the scan, mapped back and widened by 2, has the squares of
    the pixels it encloses. *)
Lemma widened_box_in_rect (xmin ymin xmax ymax : Z) (x y : Z) (px py : Q) :
  xmin <= x <= xmax -> ymin <= y <= ymax ->
  (inject_Z x <= px)%Q -> (px <= inject_Z x + 1)%Q ->
  (inject_Z y <= py)%Q -> (py <= inject_Z y + 1)%Q ->
  in_rect (Rect_add
             (scaled_rect (mkMatrix (1 / (72 / 72)) (1 / (72 / 72)))
                          (mkRect (of_int xmin) (of_int ymin)
                                  (of_int (xmax + 1)) (of_int (ymax + 1))))
             (mkRect (-2) (-2) 2 2)) px py.
Proof.
  intros Hx Hy Hpx0 Hpx1 Hpy0 Hpy1.
  assert (Hs : forall q : Q, (q * (1 / (72 / 72)) == q)%Q)
    by (intro q; setoid_replace (1 / (72 / 72))%Q with 1%Q by reflexivity; ring).
  unfold in_rect, Rect_add, scaled_rect, of_int. cbn [x0 y0 x1 y1 sx sy].
  pose proof (inject_Z_le _ _ (proj1 Hx)) as Hx0.
  pose proof (inject_Z_le _ _ (proj1 Hy)) as Hy0.
  assert (Hx1 : (inject_Z x + 1 <= inject_Z (xmax + 1))%Q)
    by (rewrite inject_Z_plus; pose proof (inject_Z_le _ _ (proj2 Hx));
        change (inject_Z 1) with 1%Q; lra).
  assert (Hy1 : (inject_Z y + 1 <= inject_Z (ymax + 1))%Q)
    by (rewrite inject_Z_plus; pose proof (inject_Z_le _ _ (proj2 Hy));
        change (inject_Z 1) with 1%Q; lra).
  repeat split.
  - eapply Qle_trans; [apply Qplus_le_l, Q.le_min_l|]. rewrite Hs. lra.
  - eapply Qle_trans; [|apply Qplus_le_l, Q.le_max_r]. rewrite Hs. lra.
  - eapply Qle_trans; [apply Qplus_le_l, Q.le_min_l|]. rewrite Hs. lra.
  - eapply Qle_trans; [|apply Qplus_le_l, Q.le_max_r]. rewrite Hs. lra.
Qed.

(** X7. Trimming cuts nothing dark: provided [transform_rect], when it
    returns, returns the bounding box of the scaled rectangle, the unit
    square of every pixel below the threshold, as far as it lies on the
    page, lies in the clip rectangle. *)
Theorem estimate_content_clip_keeps_dark (src_page : Page) (threshold : Z)
    (pix p : Pixmap) (x y : nat) (px py : Q) :
  (forall m r r', Matrix_transform_rect m r = Ok r' -> r' = scaled_rect m r) ->
  rasterized src_page = Ok pix ->
  without_alpha pix = Ok p ->
  (x < width p)%nat -> (y < height p)%nat ->
  dark p threshold x y ->
  (inject_Z (Z.of_nat x) <= px)%Q -> (px <= inject_Z (Z.of_nat x) + 1)%Q ->
  (inject_Z (Z.of_nat y) <= py)%Q -> (py <= inject_Z (Z.of_nat y) + 1)%Q ->
  in_rect (rect src_page) px py ->
  in_rect (estimate_content_clip src_page threshold) px py.
Proof.
  intros Hlib Hraster Hp Hx Hy Hdark Hpx0 Hpx1 Hpy0 Hpy1 Hpage.
  unfold estimate_content_clip, estimate_content_try.
  unfold rasterized in Hraster. rewrite Hraster. cbn [bind].
  destruct (nonwhite_bbox_pixmap pix threshold) as [box|] eqn:Hbox; [|exact Hpage].
  destruct (falsy (Some box)); [exact Hpage|].
  destruct (Matrix_transform_rect _ box) as [rect_pt|e] eqn:Hmap; [|exact Hpage].
  cbn [bind]. apply Hlib in Hmap. subst rect_pt.
  destruct (scan_box_bounds pix threshold box Hbox)
    as (p' & xmin & ymin & xmax & ymax & Hp' & -> & Hall & _).
  rewrite Hp in Hp'. injection Hp' as <-.
  destruct (Hall x y Hx Hy Hdark) as [Hxs Hys].
  apply Rect_and_in_rect; [|exact Hpage].
  apply (widened_box_in_rect xmin ymin xmax ymax (Z.of_nat x) (Z.of_nat y)); assumption.
Qed.

(** ** The box of the scan, the pixmap and the threshold *)

Lemma for_in_ok_transfer {A S} (xs : list A) (body1 body2 : S -> A -> result S) :
  (forall x s1 s1', In x xs -> body1 s1 x = Ok s1' ->
                    forall s2, exists s2', body2 s2 x = Ok s2') ->
  forall s1 r1, for_in xs body1 s1 = Ok r1 ->
  forall s2, exists r2, for_in xs body2 s2 = Ok r2.
Proof.
  induction xs as [|x xs IH]; intros Hstep s1 r1 Hrun s2; cbn [for_in] in *.
  - exists s2. reflexivity.
  - destruct (body1 s1 x) as [s1'|e] eqn:E1; [|discriminate Hrun]. cbn [bind] in Hrun.
    destruct (Hstep x s1 s1' (or_introl eq_refl) E1 s2) as [s2' ->]. cbn [bind].
    apply (IH (fun y t1 t1' Hy => Hstep y t1 t1' (or_intror Hy)) s1' r1 Hrun).
Qed.

(** Whether the scan raises does not depend on the threshold. *)
Lemma scan_ok_any_threshold pix t1 t2 acc1 r1 acc2 :
  for_in (seq 0 (height pix)) (scan_row t1 (width pix) (n pix) (samples pix)) acc1
    = Ok r1 ->
  exists r2,
    for_in (seq 0 (height pix)) (scan_row t2 (width pix) (n pix) (samples pix)) acc2
      = Ok r2.
Proof.
  intro Hrun. revert acc2.
  refine (for_in_ok_transfer _ _ _ _ acc1 r1 Hrun).
  intros y s1 s1' _ Hrow. unfold scan_row in *.
  refine (for_in_ok_transfer _ _ _ _ s1 s1' Hrow).
  intros x u1 u1' _ Hpixel u2. unfold scan_pixel in *.
  destruct (index _ (x * n pix)) as [r|e]; [|discriminate Hpixel].
  destruct (index _ (x * n pix + 1)) as [g|e]; [|discriminate Hpixel].
  destruct (index _ (x * n pix + 2)) as [b|e]; [|discriminate Hpixel].
  cbn [bind]. destruct u2 as [[[xmin ymin] xmax] ymax].
  destruct (Z.min (Z.min r g) b <? t2); eexists; reflexivity.
Qed.

Lemma dark_weaken pix t1 t2 x y : t1 <= t2 -> dark pix t1 x y -> dark pix t2 x y.
Proof.
  intros Ht (r & g & b & Hpix & Hlt). exists r, g, b. split; [exact Hpix | lia].
Qed.

(** X29. Raising the threshold never shrinks the box of the scan: when the
    scan finds a box at a threshold, it finds one at every higher threshold,
    and that box contains the first.  (Below the lowest threshold that finds
    a box the scan finds none, and the whole page is kept.) *)
Theorem nonwhite_bbox_pixmap_grows (pix : Pixmap) (t1 t2 : Z) (b1 : Rect) :
  t1 <= t2 ->
  nonwhite_bbox_pixmap pix t1 = Some b1 ->
  exists b2, nonwhite_bbox_pixmap pix t2 = Some b2 /\ Rect_within b1 b2.
Proof.
  intros Ht Hb1.
  destruct (scan_box_bounds pix t1 b1 Hb1)
    as (p & xmin1 & ymin1 & xmax1 & ymax1 & Hp & -> & _
        & (xa & ya & Hxa & Hya & Da & Ea) & (xb & yb & Hxb & Hyb & Db & Eb)
        & (xc & yc & Hxc & Hyc & Dc & Ec) & (xd & yd & Hxd & Hyd & Dd & Ed)).
  unfold nonwhite_bbox_pixmap, nonwhite_bbox_try in Hb1 |- *.
  rewrite Hp in Hb1 |- *. cbn [bind] in Hb1 |- *.
  destruct (for_in _ (scan_row t1 _ _ _) _) as [acc1|e] eqn:Hrun1; [|discriminate Hb1].
  destruct (scan_ok_any_threshold p t1 t2 _ acc1
              (Z.of_nat (width p), Z.of_nat (height p), -1, -1) Hrun1)
    as [[[[xmin2 ymin2] xmax2] ymax2] Hrun2].
  rewrite Hrun2. cbn [bind]. apply scan_inv in Hrun2. unfold bounds_inv in Hrun2.
  destruct Hrun2 as [[Hnone _] | (Hall & _)].
  { exfalso. exact (Hnone xa ya (conj Hxa Hya) (dark_weaken _ _ _ _ _ Ht Da)). }
  pose proof (Hall xa ya (conj Hxa Hya) (dark_weaken _ _ _ _ _ Ht Da)) as Ha.
  pose proof (Hall xb yb (conj Hxb Hyb) (dark_weaken _ _ _ _ _ Ht Db)) as Hb.
  pose proof (Hall xc yc (conj Hxc Hyc) (dark_weaken _ _ _ _ _ Ht Dc)) as Hc.
  pose proof (Hall xd yd (conj Hxd Hyd) (dark_weaken _ _ _ _ _ Ht Dd)) as Hd.
  destruct (Z.ltb_spec xmax2 0) as [Hneg|_]; [lia|].
  eexists. split; [reflexivity|].
  unfold Rect_within, of_int. cbn [x0 y0 x1 y1].
  repeat split; apply inject_Z_le; lia.
Qed.

(** X30. A box of the scan lies within the pixmap and holds at least one
    pixel, so it is not empty and it is never the all-zero rectangle: the
    test [not bbox_px] of the estimator is true only for [None]. *)
Theorem nonwhite_bbox_pixmap_in_pixmap (pix : Pixmap) (threshold : Z) (box : Rect) :
  nonwhite_bbox_pixmap pix threshold = Some box ->
  exists p,
    without_alpha pix = Ok p /\
    Rect_within box (mkRect 0 0 (of_int (Z.of_nat (width p)))
                                (of_int (Z.of_nat (height p)))) /\
    is_empty box = false /\
    falsy (Some box) = false.
Proof.
  intro Hbox.
  destruct (scan_box_bounds pix threshold box Hbox)
    as (p & xmin & ymin & xmax & ymax & Hp & -> & Hall
        & (xa & ya & Hxa & Hya & _ & Ea) & (xb & yb & Hxb & Hyb & Db & Eb)
        & (xc & yc & Hxc & Hyc & _ & Ec) & (xd & yd & Hxd & Hyd & Dd & Ed)).
  exists p. split; [exact Hp|].
  assert (Hx : 0 <= xmin < xmax + 1 /\ xmax + 1 <= Z.of_nat (width p)).
  { destruct (Hall xb yb Hxb Hyb Db) as [Hin _]. lia. }
  assert (Hy : 0 <= ymin < ymax + 1 /\ ymax + 1 <= Z.of_nat (height p)).
  { destruct (Hall xd yd Hxd Hyd Dd) as [_ Hin]. lia. }
  assert (Hx0 : (0 <= of_int xmin)%Q) by (apply (inject_Z_le 0); lia).
  assert (Hy0 : (0 <= of_int ymin)%Q) by (apply (inject_Z_le 0); lia).
  assert (Hx1 : (of_int xmin < of_int (xmax + 1))%Q)
    by (unfold of_int; rewrite <- Zlt_Qlt; lia).
  assert (Hy1 : (of_int ymin < of_int (ymax + 1))%Q)
    by (unfold of_int; rewrite <- Zlt_Qlt; lia).
  split; [|split].
  - unfold Rect_within. cbn [x0 y0 x1 y1].
    repeat split; try assumption; apply inject_Z_le; lia.
  - unfold is_empty. cbn [x0 y0 x1 y1].
    rewrite !Qle_bool_false by assumption. reflexivity.
  - unfold falsy, Rect_bool. cbn [x0 y0 x1 y1].
    set (hi := Qmax _ _). set (lo := Qmin _ _).
    assert (Hhi : (0 < hi)%Q).
    { apply Qlt_le_trans with (of_int (xmax + 1)); [lra|].
      unfold hi. eapply Qle_trans; [apply Q.le_max_l | apply Q.le_max_r]. }
    destruct (Qeq_bool hi lo) eqn:E1; [|reflexivity].
    destruct (Qeq_bool lo 0) eqn:E2; [|reflexivity].
    apply Qeq_bool_iff in E1, E2. rewrite E1, E2 in Hhi. discriminate Hhi.
Qed.

(** ** The output pages of the build *)

Lemma nth_error_chunks {A} (size : nat) (l : list A) (i : nat) (run : list A) :
  nth_error (chunks size l) i = Some run ->
  (i < (length l + size - 1) / size)%nat /\ run = firstn size (skipn (i * size) l).
Proof.
  unfold chunks. rewrite nth_error_map, nth_error_seq.
  destruct (Nat.ltb_spec i ((length l + size - 1) / size)) as [Hlt|Hge]; [|discriminate].
  cbn [option_map Nat.add]. intro Hrun. injection Hrun as <-.
  split; [exact Hlt | reflexivity].
Qed.

Lemma concat_chunks {A} (size : nat) (l : list A) :
  (0 < size)%nat -> concat (chunks size l) = l.
Proof.
  intro Hs. induction l as [|x l IH] using rev_ind.
  - rewrite chunks_nil. reflexivity.
  - destruct (Nat.eq_dec (length l mod size) 0) as [E|E].
    + rewrite (chunks_snoc_new size l x Hs E), concat_app, IH. reflexivity.
    + destruct (chunks_snoc_last size l x Hs E) as (init & last & Hl & ->).
      rewrite Hl, concat_app in IH. rewrite concat_app. cbn [concat] in IH |- *.
      rewrite app_nil_r in IH |- *. rewrite <- IH, <- app_assoc. reflexivity.
Qed.

Lemma imap_from_skipn {A B} (f : nat -> A -> B) (m : nat) : forall (l : list A) k,
  skipn m (imap_from k f l) = imap_from (k + m) f (skipn m l).
Proof.
  induction m as [|m IH]; intros l k.
  - rewrite Nat.add_0_r. reflexivity.
  - destruct l as [|a l]; [reflexivity|]. cbn [imap_from skipn].
    rewrite IH, Nat.add_succ_r. reflexivity.
Qed.

Lemma texts_app l1 l2 : texts (l1 ++ l2) = texts l1 ++ texts l2.
Proof.
  induction l1 as [|op l1 IH]; [reflexivity|].
  destruct op; cbn [app texts]; rewrite IH; reflexivity.
Qed.

Lemma texts_footer params page i total_out :
  texts (ops (draw_page_number_footer params page i total_out)) =
  texts (ops page) ++ (if draw_page_numbers params then [footer_text i total_out] else []).
Proof.
  unfold draw_page_number_footer. destruct (draw_page_numbers params); cbn [negb].
  - cbn [add_op ops]. rewrite texts_app. reflexivity.
  - rewrite app_nil_r. reflexivity.
Qed.

(** The running indices drawn for the source pages from the [k]-th on. *)
Lemma texts_placements params g (items : list (string * nat * Page)) : forall k,
  draw_cell_indices params = true ->
  texts (concat (imap_from k (placement_ops params g) items)) =
  map (fun j => str (Z.of_nat j + 1)) (seq k (length items)).
Proof.
  induction items as [|[[path pno] sp] items IH]; intros k Hdraw; [reflexivity|].
  cbn [imap_from concat length seq map]. rewrite texts_app, (IH (S k) Hdraw).
  unfold placement_ops. rewrite Hdraw. reflexivity.
Qed.

Lemma lt_ceil_div (i len size : nat) :
  (0 < size)%nat -> (i < (len + size - 1) / size)%nat -> (i * size < len)%nat.
Proof.
  intros Hs Hi. pose proof (Nat.Div0.mul_div_le (len + size - 1) size). nia.
Qed.

(** The output pages without an early stop, one by one. *)
Lemma build_all_nth src_files params out i page :
  wf_layout (layout params) ->
  build_nup_from_multiple src_files params None = Ok out ->
  nth_error out i = Some page ->
  exists g,
    geometry_of params = Ok g /\
    Z.to_nat (g_total_slots g) = slots_per_page params /\
    (0 < slots_per_page params)%nat /\
    (i < (length (source_pages src_files) + slots_per_page params - 1)
         / slots_per_page params)%nat /\
    length out = ((length (source_pages src_files) + slots_per_page params - 1)
                  / slots_per_page params)%nat /\
    page = draw_page_number_footer params
             (mkOutPage (g_page_w g) (g_page_h g)
                (concat (imap_from (i * slots_per_page params) (placement_ops params g)
                           (firstn (slots_per_page params)
                              (skipn (i * slots_per_page params)
                                 (source_pages src_files))))))
             (Z.of_nat i + 1) (Z.of_nat (length out)).
Proof.
  intros Hwf Hbuild Hi.
  destruct (build_all src_files params Hwf)
    as (g & Hg & Hslots & HT & [[_ Hall] | [_ [e Hraise]]]);
    [|rewrite Hraise in Hbuild; discriminate Hbuild].
  rewrite Hall in Hbuild. injection Hbuild as <-.
  assert (HS : Z.to_nat (g_total_slots g) = slots_per_page params)
    by (unfold slots_per_page; rewrite Hslots; reflexivity).
  exists g. split; [exact Hg|]. split; [exact HS|]. split; [lia|].
  rewrite stamp_footers_length, placed_pages_length, HS.
  unfold stamp_footers in Hi. rewrite stamp_from_nth in Hi.
  destruct (nth_error (placed_pages params g (source_pages src_files)) i)
    as [placed|] eqn:Hplaced; [|discriminate Hi].
  cbn [option_map] in Hi. injection Hi as <-.
  unfold placed_pages in Hplaced. rewrite nth_error_map in Hplaced.
  destruct (nth_error (chunks _ _) i) as [run|] eqn:Hrun; [|discriminate Hplaced].
  cbn [option_map] in Hplaced. injection Hplaced as <-.
  apply nth_error_chunks in Hrun. destruct Hrun as [Hlt ->].
  rewrite imap_from_length, HS in Hlt. split; [exact Hlt|]. split; [reflexivity|].
  rewrite HS, imap_from_skipn, <- imap_from_firstn, placed_pages_length, HS.
  reflexivity.
Qed.

(** X8. With the running indices drawn, the texts on output page [i] of the
    build without an early stop are the numbers of its source pages, which
    run on from page to page and from source to source (page [i] starts at
    [i * rows*cols + 1]), followed by the footer when the page numbers are
    drawn; nothing else is written. *)
Theorem cell_indices_run_on (src_files : list string) (params : BuildParams)
    (out : list OutPage) (i : nat) (page : OutPage) :
  wf_layout (layout params) ->
  draw_cell_indices params = true ->
  build_nup_from_multiple src_files params None = Ok out ->
  nth_error out i = Some page ->
  texts (ops page) =
    map (fun j => str (Z.of_nat j + 1))
        (seq (i * slots_per_page params)
             (Nat.min (slots_per_page params)
                      (length (source_pages src_files) - i * slots_per_page params)))
    ++ (if draw_page_numbers params
        then [footer_text (Z.of_nat i + 1) (Z.of_nat (length out))]
        else []).
Proof.
  intros Hwf Hdraw Hbuild Hi.
  destruct (build_all_nth _ _ _ _ _ Hwf Hbuild Hi) as (g & _ & _ & _ & _ & _ & ->).
  rewrite texts_footer. cbn [ops].
  rewrite (texts_placements params g _ _ Hdraw), length_firstn, length_skipn.
  reflexivity.
Qed.

(** X9. No output page of the build without an early stop is empty: each
    holds at least one and at most rows*cols source pages, and every page
    before the last holds exactly rows*cols. *)
Theorem output_pages_filled (src_files : list string) (params : BuildParams)
    (out : list OutPage) (i : nat) (page : OutPage) :
  wf_layout (layout params) ->
  build_nup_from_multiple src_files params None = Ok out ->
  nth_error out i = Some page ->
  (1 <= length (shown (ops page)) <= slots_per_page params)%nat /\
  ((S i < length out)%nat -> length (shown (ops page)) = slots_per_page params) /\
  length (shown (ops page)) =
    Nat.min (slots_per_page params)
            (length (source_pages src_files) - i * slots_per_page params).
Proof.
  intros Hwf Hbuild Hi.
  destruct (build_all_nth _ _ _ _ _ Hwf Hbuild Hi)
    as (g & _ & _ & HS & Hlt & Hlen & ->).
  rewrite shown_footer. cbn [ops].
  rewrite shown_concat, <- imap_from_map.
  assert (Hone : forall (items : list (string * nat * Page)) k,
             length (concat (imap_from k
                       (fun k item => shown (placement_ops params g k item)) items))
             = length items).
  { induction items as [|item items IH]; intro k; [reflexivity|].
    cbn [imap_from concat]. rewrite length_app, IH, shown_placement_ops. reflexivity. }
  rewrite Hone, length_firstn, length_skipn, Hlen.
  set (S := slots_per_page params) in *.
  set (P := length (source_pages src_files)) in *.
  pose proof (lt_ceil_div _ _ _ HS Hlt) as Hdiv.
  split; [lia|]. split; [|reflexivity].
  intro Hnext. apply (lt_ceil_div _ _ _ HS) in Hnext. lia.
Qed.

(** ** What holds of every output page, whatever the bound *)

Lemma on_out_page_Forall (inv : OutPage -> Prop) out op out' :
  (forall page, inv page -> inv (add_op page op)) ->
  Forall inv out -> on_out_page out op = Ok out' -> Forall inv out'.
Proof.
  intros Hop Hout. unfold on_out_page.
  destruct (rev out) as [|p before] eqn:E; [discriminate|].
  intro H. injection H as <-.
  assert (Hsplit : out = rev before ++ [p]).
  { rewrite <- (rev_involutive out), E. reflexivity. }
  subst out. apply Forall_app in Hout. destruct Hout as [Hb Hp].
  apply Forall_app. split; [exact Hb|].
  constructor; [|constructor]. apply Hop. inversion Hp; assumption.
Qed.

Lemma stamp_from_Forall (inv : OutPage -> Prop) params total_out pages :
  (forall page i, inv page -> inv (draw_page_number_footer params page i total_out)) ->
  forall i, Forall inv pages -> Forall inv (stamp_from params i total_out pages).
Proof.
  intros Hfooter. induction pages as [|page rest IH]; intros i Hpages;
    cbn [stamp_from]; [constructor|].
  inversion Hpages; subst. constructor; [apply Hfooter; assumption | apply IH; assumption].
Qed.

(** A property of output pages that holds of an empty page and that the
    drawing calls of the placement loop keep, holds of every page the loop
    has made. *)
Lemma place_item_Forall (inv : OutPage -> Prop) params g stop st item :
  inv (mkOutPage (g_page_w g) (g_page_h g) []) ->
  (forall page dest src pno clip,
     inv page -> inv (add_op page (ShowPdfPage dest src pno clip))) ->
  (draw_cell_indices params = true ->
   forall page box text size align,
     inv page -> inv (add_op page (InsertTextbox box text size align))) ->
  Forall inv (out st) ->
  match place_item params g stop st item with
  | Continue st' => Forall inv (out st')
  | Return r => exists pages, Forall inv pages /\ r = stamp_footers params pages
  | Throw _ => True
  end.
Proof.
  intros Hnew Hshow Htext Hout. destruct item as [[path pno] sp].
  unfold place_item, place_page.
  assert (Hpage : Forall inv (if slot_used st =? 0
                              then new_page (out st) (g_page_w g) (g_page_h g)
                              else out st)).
  { destruct (slot_used st =? 0); [|exact Hout].
    apply Forall_app. split; [exact Hout | constructor; [exact Hnew | constructor]]. }
  destruct (show_pdf_page _ _ _ _) as [[]|e]; cbn [bind]; [|exact I].
  destruct (on_out_page _ (ShowPdfPage _ _ _ _)) as [shown_out|e] eqn:Eshown; [|exact I].
  apply (on_out_page_Forall inv) in Eshown; [|intros page; apply Hshow | exact Hpage].
  assert (Hindexed : forall indexed_out,
             (if draw_cell_indices params
              then on_out_page shown_out
                     (InsertTextbox (index_box (slot_rect g (slot_used st)))
                        (str (global_page_index st + 1)) (cell_index_font_pt params) 2)
              else Ok shown_out) = Ok indexed_out ->
             Forall inv indexed_out).
  { intros indexed_out E. destruct (draw_cell_indices params).
    - apply (on_out_page_Forall inv) in E; [exact E | | exact Eshown].
      intro page. apply (Htext eq_refl).
    - injection E as <-. exact Eshown. }
  destruct (if draw_cell_indices params then _ else _) as [indexed_out|e]; [|exact I].
  specialize (Hindexed indexed_out eq_refl).
  destruct (g_total_slots g <=? slot_used st + 1); [|exact Hindexed].
  destruct stop as [k|]; [|exact Hindexed].
  destruct (k <=? Z.of_nat (length indexed_out)); [|exact Hindexed].
  exists indexed_out. split; [exact Hindexed | reflexivity].
Qed.

Lemma place_items_Forall (inv : OutPage -> Prop) params g stop todo :
  inv (mkOutPage (g_page_w g) (g_page_h g) []) ->
  (forall page dest src pno clip,
     inv page -> inv (add_op page (ShowPdfPage dest src pno clip))) ->
  (draw_cell_indices params = true ->
   forall page box text size align,
     inv page -> inv (add_op page (InsertTextbox box text size align))) ->
  forall st,
  Forall inv (out st) ->
  match for_flow todo (place_item params g stop) st with
  | Continue st' => Forall inv (out st')
  | Return r => exists pages, Forall inv pages /\ r = stamp_footers params pages
  | Throw _ => True
  end.
Proof.
  intros Hnew Hshow Htext. induction todo as [|item todo IH]; intros st Hout;
    cbn [for_flow]; [exact Hout|].
  pose proof (place_item_Forall inv params g stop st item Hnew Hshow Htext Hout) as Hstep.
  destruct (place_item params g stop st item) as [st'|r|e];
    [apply IH; exact Hstep | exact Hstep | exact I].
Qed.

(** Whatever the bound, what the build returns went through the footer
    pass that follows the loops, and the pages before that pass are pages
    the placement loop made. *)
Lemma build_Forall (inv : OutPage -> Prop) src_files params stop built :
  (forall g, geometry_of params = Ok g -> inv (mkOutPage (g_page_w g) (g_page_h g) [])) ->
  (forall page dest src pno clip,
     inv page -> inv (add_op page (ShowPdfPage dest src pno clip))) ->
  (draw_cell_indices params = true ->
   forall page box text size align,
     inv page -> inv (add_op page (InsertTextbox box text size align))) ->
  build_nup_from_multiple src_files params stop = Ok built ->
  exists pages, Forall inv pages /\ built = stamp_footers params pages.
Proof.
  intros Hnew Hshow Htext. rewrite build_flat.
  destruct (geometry_of params) as [g|e]; [|discriminate]. cbn [bind].
  pose proof (place_items_Forall inv params g stop (source_pages src_files)
                (Hnew g eq_refl) Hshow Htext (mkBuildState [] 0 0) (Forall_nil inv))
    as Hloop.
  destruct (for_flow _ _ _) as [st|r|e]; intro H;
    [|discriminate H|discriminate H].
  injection H as <-. exists (out st). split; [exact Hloop | reflexivity].
Qed.

Lemma geometry_of_page params g :
  geometry_of params = Ok g ->
  (g_page_w g, g_page_h g) = paper_size_pt (paper params) (landscape params).
Proof.
  unfold geometry_of.
  destruct (paper_size_pt (paper params) (landscape params)) as [pw ph].
  destruct (grid_of params) as [r c].
  destruct (float_div_int _ c) as [cell_w|e]; [|discriminate].
  destruct (float_div_int _ r) as [cell_h|e]; [|discriminate].
  cbn [bind]. intro H. injection H as <-. reflexivity.
Qed.

(** X10. Whatever the bound, every page of the document the build returns
    has the size of the paper in the chosen orientation. *)
Theorem output_pages_paper_sized (src_files : list string) (params : BuildParams)
    (stop : option Z) (built : list OutPage) :
  build_nup_from_multiple src_files params stop = Ok built ->
  forall page, In page built -> paper_sized params page.
Proof.
  intro Hbuild.
  destruct (build_Forall (paper_sized params) src_files params stop built)
    as (pages & Hpages & ->); try exact Hbuild.
  - intros g Hg. unfold paper_sized. cbn [page_w page_h]. apply geometry_of_page, Hg.
  - intros page dest src pno clip H. exact H.
  - intros _ page box text size align H. exact H.
  - apply Forall_forall. apply stamp_from_Forall; [|exact Hpages].
    intros page i H. unfold draw_page_number_footer.
    destruct (draw_page_numbers params); exact H.
Qed.

(** X12. With the running indices off, the only text on a page of the
    document the build returns, whatever the bound, is its footer; with the
    page numbers off as well the build writes no text at all. *)
Theorem texts_without_indices (src_files : list string) (params : BuildParams)
    (stop : option Z) (built : list OutPage) (i : nat) (page : OutPage) :
  draw_cell_indices params = false ->
  build_nup_from_multiple src_files params stop = Ok built ->
  nth_error built i = Some page ->
  texts (ops page) =
    if draw_page_numbers params
    then [footer_text (Z.of_nat i + 1) (Z.of_nat (length built))]
    else [].
Proof.
  intros Hoff Hbuild Hi.
  destruct (build_Forall (fun page => texts (ops page) = []) src_files params stop built)
    as (pages & Hpages & ->); try exact Hbuild.
  - intros g _. reflexivity.
  - intros placed dest src pno clip H. cbn [add_op ops]. rewrite texts_app, H. reflexivity.
  - intro Hon. rewrite Hoff in Hon. discriminate Hon.
  - rewrite stamp_footers_length. unfold stamp_footers in Hi. rewrite stamp_from_nth in Hi.
    destruct (nth_error pages i) as [placed|] eqn:Hplaced; [|discriminate Hi].
    cbn [option_map] in Hi. injection Hi as <-.
    rewrite texts_footer.
    rewrite Forall_forall in Hpages. rewrite (Hpages placed (nth_error_In _ _ Hplaced)).
    reflexivity.
Qed.

(** ** Bounds that stop nothing, and bounds below one *)

Lemma on_out_page_nonempty out op out' :
  on_out_page out op = Ok out' -> 1 <= Z.of_nat (length out').
Proof.
  unfold on_out_page. destruct (rev out) as [|p before]; [discriminate|].
  intro H. injection H as <-. rewrite length_app. cbn [length]. lia.
Qed.

(** The test of the bound sees at least one output page. *)
Lemma place_item_low_bound params g k st item :
  k <= 1 ->
  place_item params g (Some k) st item = place_item params g (Some 1) st item.
Proof.
  intro Hk. destruct item as [[path pno] sp]. unfold place_item, place_page.
  destruct (show_pdf_page _ _ _ _) as [[]|e]; cbn [bind]; [|reflexivity].
  destruct (on_out_page _ (ShowPdfPage _ _ _ _)) as [shown_out|e] eqn:Eshown;
    [|reflexivity].
  apply on_out_page_nonempty in Eshown.
  assert (Hlen : forall indexed_out,
             (if draw_cell_indices params
              then on_out_page shown_out
                     (InsertTextbox (index_box (slot_rect g (slot_used st)))
                        (str (global_page_index st + 1)) (cell_index_font_pt params) 2)
              else Ok shown_out) = Ok indexed_out ->
             1 <= Z.of_nat (length indexed_out)).
  { intros indexed_out E. destruct (draw_cell_indices params).
    - exact (on_out_page_nonempty _ _ _ E).
    - injection E as <-. exact Eshown. }
  destruct (if draw_cell_indices params then _ else _) as [indexed_out|e]; [|reflexivity].
  specialize (Hlen indexed_out eq_refl).
  destruct (g_total_slots g <=? slot_used st + 1); [|reflexivity].
  destruct (Z.leb_spec k (Z.of_nat (length indexed_out))),
    (Z.leb_spec 1 (Z.of_nat (length indexed_out))); try reflexivity; lia.
Qed.

(** X13. A bound of zero or less stops the build where the bound 1 does: the
    bound is only compared when an output page is full, and by then there is
    at least one page. *)
Theorem bound_below_one_is_one (src_files : list string) (params : BuildParams) (k : Z) :
  k <= 1 ->
  build_nup_from_multiple src_files params (Some k) =
  build_nup_from_multiple src_files params (Some 1).
Proof.
  intro Hk. rewrite !build_flat.
  destruct (geometry_of params) as [g|e]; [|reflexivity]. cbn [bind].
  rewrite (for_flow_ext _ (place_item params g (Some k)) (place_item params g (Some 1)));
    [reflexivity|].
  intros st item _. apply place_item_low_bound, Hk.
Qed.

Lemma place_items_low_bound params g k todo st :
  k <= 1 ->
  for_flow todo (place_item params g (Some k)) st =
  for_flow todo (place_item params g (Some 1)) st.
Proof.
  intro Hk. apply for_flow_ext. intros st' item _. apply place_item_low_bound, Hk.
Qed.

(** With a bound that the source pages reach, the loop never runs to its
    end: it leaves by the return, or before by an exception of PyMuPDF. *)
Lemma place_reaches_bound params g k todo : forall seen st st',
  1 <= g_total_slots g -> 1 <= k ->
  placing params g seen st ->
  (length seen < Z.to_nat k * Z.to_nat (g_total_slots g))%nat ->
  (Z.to_nat k * Z.to_nat (g_total_slots g) <= length (seen ++ todo))%nat ->
  for_flow todo (place_item params g (Some k)) st <> Continue st'.
Proof.
  induction todo as [|item todo IH]; intros seen st st' HT Hk Hinv Hlo Hhi.
  - rewrite app_nil_r in Hhi. lia.
  - cbn [for_flow]. rewrite (place_item_step params g (Some k) seen st item HT Hinv).
    destruct (show_placement (placement params g (length seen) item)) as [[]|e];
      [|discriminate].
    assert (Hlen : length (seen ++ [item]) = S (length seen))
      by (rewrite length_app; cbn [length]; lia).
    replace (seen ++ item :: todo) with ((seen ++ [item]) ++ todo) in Hhi
      by (rewrite <- app_assoc; reflexivity).
    assert (Hs : (0 < Z.to_nat (g_total_slots g))%nat) by lia.
    destruct (Z.eqb_spec (Z.of_nat (length (seen ++ [item])) mod g_total_slots g) 0)
      as [E|E]; rewrite (mod_zero_nat _ _ HT) in E.
    + destruct (runs_count_full _ _ Hs E) as (Hcount & _ & Hfull).
      rewrite placed_pages_length, Hcount.
      destruct (Z.leb_spec k (Z.of_nat (length (seen ++ [item]) / Z.to_nat (g_total_slots g))))
        as [Ek|Ek]; [discriminate|].
      apply (IH (seen ++ [item])); [exact HT | exact Hk | repeat split | nia | exact Hhi].
    + apply (IH (seen ++ [item])); [exact HT | exact Hk | repeat split | | exact Hhi].
      assert (length (seen ++ [item]) <> Z.to_nat k * Z.to_nat (g_total_slots g))%nat.
      { intro Heq. apply E. rewrite Heq. apply Nat.Div0.mod_mul. }
      lia.
Qed.

(** X11. A bound that is reached makes the build raise.  The bound [k] is
    compared when an output page is full, so it is reached when the sources
    have at least max(1, k) * rows*cols pages.  The loop then closes the
    source and returns inside the [try], the [finally] closes the source a
    second time, and the ValueError of that call replaces the returned
    document: the build raises, an exception of PyMuPDF for one of the
    placements before the bound or else that ValueError, which it is
    whenever the build without a bound returns. *)
Theorem reached_bound_raises (src_files : list string) (params : BuildParams) (k : Z) :
  wf_layout (layout params) ->
  Z.max 1 k * Z.of_nat (slots_per_page params)
    <= Z.of_nat (length (source_pages src_files)) ->
  (exists e, build_nup_from_multiple src_files params (Some k) = Raise e) /\
  (forall full,
     build_nup_from_multiple src_files params None = Ok full ->
     build_nup_from_multiple src_files params (Some k) = Raise ValueError).
Proof.
  intros Hwf Hreach.
  destruct (build_all src_files params Hwf) as (g & Hg & Hslots & HT & Hnone).
  unfold slots_per_page in Hreach. rewrite <- Hslots in Hreach.
  assert (Hmax : build_nup_from_multiple src_files params (Some k) =
                 build_nup_from_multiple src_files params (Some (Z.max 1 k))).
  { destruct (Z.max_spec 1 k) as [[_ ->] | [Hlow ->]]; [reflexivity|].
    rewrite !build_flat, Hg. cbn [bind].
    rewrite (place_items_low_bound params g k) by lia. reflexivity. }
  rewrite Hmax. set (k' := Z.max 1 k) in *.
  assert (Hk' : 1 <= k') by (unfold k'; lia).
  assert (Hlo : (length (@nil (string * nat * Page))
                 < Z.to_nat k' * Z.to_nat (g_total_slots g))%nat)
    by (cbn [length]; nia).
  assert (Hhi : (Z.to_nat k' * Z.to_nat (g_total_slots g)
                 <= length ([] ++ source_pages src_files))%nat)
    by (cbn [app]; nia).
  rewrite build_flat, Hg. cbn [bind]. split.
  - pose proof (fun st' => place_reaches_bound params g k' (source_pages src_files) []
                             (mkBuildState [] 0 0) st' HT Hk'
                             (placing_start params g) Hlo Hhi) as Hloop.
    destruct (for_flow _ _ _) as [st'|r|e].
    + exfalso. exact (Hloop st' eq_refl).
    + exists ValueError. reflexivity.
    + exists e. reflexivity.
  - intros full Hfull.
    destruct Hnone as [[Hall _] | [_ [e Hraise]]];
      [|rewrite Hraise in Hfull; discriminate Hfull].
    rewrite (place_until params g k' (source_pages src_files) [] _ HT Hk'
               (placing_start params g) Hall Hlo Hhi).
    reflexivity.
Qed.

(** With a bound that the source pages do not reach, the loop does what it
    does without a bound. *)
Lemma place_unreached_bound params g k todo : forall seen st,
  1 <= g_total_slots g ->
  placing params g seen st ->
  Z.of_nat (length (seen ++ todo)) < Z.max 1 k * g_total_slots g ->
  for_flow todo (place_item params g (Some k)) st =
  for_flow todo (place_item params g None) st.
Proof.
  induction todo as [|item todo IH]; intros seen st HT Hinv Hk; [reflexivity|].
  cbn [for_flow].
  rewrite (place_item_step params g (Some k) seen st item HT Hinv).
  rewrite (place_item_step params g None seen st item HT Hinv).
  destruct (show_placement (placement params g (length seen) item)) as [[]|e];
    [|reflexivity].
  set (st' := mkBuildState _ _ _).
  assert (Hinv' : placing params g (seen ++ [item]) st') by (repeat split).
  assert (Hk' : Z.of_nat (length ((seen ++ [item]) ++ todo)) < Z.max 1 k * g_total_slots g)
    by (rewrite <- app_assoc; exact Hk).
  assert (Hnone : match (if Z.of_nat (length (seen ++ [item])) mod g_total_slots g =? 0
                         then None else None) with
                  | Some k' =>
                      if k' <=? Z.of_nat (length (placed_pages params g (seen ++ [item])))
                      then Return (stamp_footers params
                                     (placed_pages params g (seen ++ [item])))
                      else Continue st'
                  | None => Continue st'
                  end = @Continue BuildState (list OutPage) st')
    by (destruct (_ =? 0); reflexivity).
  rewrite Hnone.
  destruct (Z.eqb_spec (Z.of_nat (length (seen ++ [item])) mod g_total_slots g) 0)
    as [Hfull|Hpart]; [|exact (IH (seen ++ [item]) st' HT Hinv' Hk')].
  destruct (Z.leb_spec k (Z.of_nat (length (placed_pages params g (seen ++ [item])))))
    as [Hstop|Hgo]; [|exact (IH (seen ++ [item]) st' HT Hinv' Hk')].
  (* the bound cannot be reached *)
  exfalso.
  apply (mod_zero_nat _ _ HT) in Hfull.
  assert (Hs : (0 < Z.to_nat (g_total_slots g))%nat) by lia.
  destruct (runs_count_full _ _ Hs Hfull) as (Hcount & _ & Hexact).
  rewrite placed_pages_length, Hcount in Hstop.
  rewrite length_app in Hk'.
  assert (Hone : (1 <= length (seen ++ [item]))%nat)
    by (rewrite length_app; cbn [length]; lia).
  set (T := Z.to_nat (g_total_slots g)) in *.
  set (len := length (seen ++ [item])) in *.
  assert (HT' : g_total_slots g = Z.of_nat T) by (unfold T; lia).
  rewrite HT' in Hk'.
  assert (Hq : (1 <= len / T)%nat) by (destruct (len / T)%nat; lia).
  nia.
Qed.

(** X14. A bound that is not reached changes nothing: when the sources have
    fewer than max(1, k) * rows*cols pages, the build with the bound [k]
    does what the build without a bound does. *)
Theorem unreached_bound_changes_nothing (src_files : list string) (params : BuildParams)
    (k : Z) :
  wf_layout (layout params) ->
  Z.of_nat (length (source_pages src_files))
    < Z.max 1 k * Z.of_nat (slots_per_page params) ->
  build_nup_from_multiple src_files params (Some k) =
  build_nup_from_multiple src_files params None.
Proof.
  intros Hwf Hk.
  destruct (geometry_of_wf params Hwf) as (g & Hg & Hslots & _ & HT).
  unfold slots_per_page in Hk. rewrite <- Hslots, Z2Nat.id in Hk by lia.
  rewrite !build_flat, Hg. cbn [bind].
  rewrite (place_unreached_bound params g k (source_pages src_files) []
             (mkBuildState [] 0 0) HT (placing_start params g) Hk).
  reflexivity.
Qed.

(** ** Layouts without rows or columns *)

(** X15. A fixed grid of zero columns or zero rows makes the build raise
    ZeroDivisionError before any source is opened, whatever the sources and
    the bound. *)
Theorem build_of_empty_grid (src_files : list string) (params : BuildParams)
    (stop : option Z) :
  auto_readable (layout params) = false ->
  rows (layout params) = 0 \/ cols (layout params) = 0 ->
  build_nup_from_multiple src_files params stop = Raise ZeroDivisionError.
Proof.
  intros Hauto Hzero. unfold build_nup_from_multiple, geometry_of, grid_of.
  rewrite Hauto.
  destruct (paper_size_pt (paper params) (landscape params)) as [pw ph].
  unfold float_div_int.
  destruct (Z.eqb_spec (cols (layout params)) 0) as [Hc|Hc]; [reflexivity|].
  destruct (Z.eqb_spec (rows (layout params)) 0) as [Hr|Hr]; [reflexivity|].
  destruct Hzero; contradiction.
Qed.

(** ** A source page that PyMuPDF rejects *)

(** X16. When PyMuPDF accepts the calls for the source pages [before] and
    raises for the next one, the build without a bound raises that
    exception: no document is returned, not even the pages already full. *)
Theorem build_raises_at_first_rejection (src_files : list string) (params : BuildParams)
    (g : Geometry) (before after : list (string * nat * Page))
    (item : string * nat * Page) (e : exn) :
  wf_layout (layout params) ->
  geometry_of params = Ok g ->
  source_pages src_files = before ++ item :: after ->
  all_accepted params g 0 before ->
  show_placement (placement params g (length before) item) = Raise e ->
  build_nup_from_multiple src_files params None = Raise e.
Proof.
  intros Hwf Hg Hsplit Hbefore Hitem.
  destruct (geometry_of_wf params Hwf) as (g' & Hg' & _ & _ & HT).
  rewrite Hg in Hg'. injection Hg' as <-.
  rewrite build_flat, Hg, Hsplit. cbn [bind]. rewrite for_flow_app.
  destruct (place_all params g before [] _ HT (placing_start params g))
    as [(_ & st' & -> & Hinv) | (Hnot & _)]; [|contradiction].
  cbn [for_flow app length] in Hinv |- *.
  rewrite (place_item_step params g None before st' item HT Hinv), Hitem.
  reflexivity.
Qed.

(** ** The slots of an output page *)

Lemma fadd_increases (a b : Q) : (fl a == a)%Q -> (0 <= b)%Q -> (a <= fadd a b)%Q.
Proof.
  intros Ha Hb. rewrite <- Ha at 1. unfold fadd. apply fl_le. lra.
Qed.

Lemma fadd_le (a b c d : Q) : (a <= c)%Q -> (b <= d)%Q -> (fadd a b <= fadd c d)%Q.
Proof. intros H1 H2. unfold fadd. apply fl_le. lra. Qed.

Lemma float_of_int_le (m n : Z) : m <= n -> (float_of_int m <= float_of_int n)%Q.
Proof. intro H. unfold float_of_int. apply fl_le. rewrite <- Zle_Qle. exact H. Qed.

Lemma fmul_le_l (a b s : Q) : (0 <= s)%Q -> (a <= b)%Q -> (fmul a s <= fmul b s)%Q.
Proof.
  intros Hs H. unfold fmul. apply fl_le. apply Qmult_le_compat_r; assumption.
Qed.

Lemma fmul_nonneg (a b : Q) : (0 <= a)%Q -> (0 <= b)%Q -> (0 <= fmul a b)%Q.
Proof.
  intros Ha Hb. unfold fmul. apply fl_nonneg. apply Qmult_le_0_compat; assumption.
Qed.

Lemma mm_to_pt_nonneg (mm : Q) : (0 <= mm)%Q -> (0 <= mm_to_pt mm)%Q.
Proof.
  intro H. apply Qle_trans with (mm_to_pt 0); [|apply mm_to_pt_le, H].
  vm_compute. discriminate.
Qed.

Lemma slot_edge_le g extent k k' :
  (0 <= extent)%Q -> (0 <= g_gap g)%Q -> k <= k' ->
  (slot_edge g extent k <= slot_edge g extent k')%Q.
Proof.
  intros He Hg Hk. unfold slot_edge. apply fadd_le; [apply Qle_refl|].
  apply fmul_le_l; [|apply float_of_int_le, Hk].
  unfold fadd. apply fl_nonneg. lra.
Qed.

Lemma slot_edge_margin g extent k :
  (fl (g_margin g) == g_margin g)%Q ->
  (0 <= extent)%Q -> (0 <= g_gap g)%Q -> 0 <= k ->
  (g_margin g <= slot_edge g extent k)%Q.
Proof.
  intros Hm He Hg Hk. unfold slot_edge. apply fadd_increases; [exact Hm|].
  apply fmul_nonneg; [apply float_of_int_nonneg, Hk|].
  unfold fadd. apply fl_nonneg. lra.
Qed.

(** X18. The slots keep clear of the left and top margins and are in
    order, in binary64 as the code computes them.  With at least one row and
    column, a gap that is not negative and cells that are not negative: the
    rectangle of a slot starts at or after the margin, its edges are in
    order, and neither edge of it moves back from one column to a later
    one, or from one row to a later one. *)
Theorem slot_rects_in_order (params : BuildParams) (g : Geometry) (s s' : Z) :
  wf_layout (layout params) ->
  geometry_of params = Ok g ->
  (0 <= gap_mm (layout params))%Q ->
  (0 <= g_cell_w g)%Q -> (0 <= g_cell_h g)%Q ->
  0 <= s ->
  ((g_margin g <= x0 (slot_rect g s))%Q /\ (x0 (slot_rect g s) <= x1 (slot_rect g s))%Q /\
   (g_margin g <= y0 (slot_rect g s))%Q /\ (y0 (slot_rect g s) <= y1 (slot_rect g s))%Q) /\
  (s mod g_cols g <= s' mod g_cols g ->
   (x0 (slot_rect g s) <= x0 (slot_rect g s'))%Q /\
   (x1 (slot_rect g s) <= x1 (slot_rect g s'))%Q) /\
  (s / g_cols g <= s' / g_cols g ->
   (y0 (slot_rect g s) <= y0 (slot_rect g s'))%Q /\
   (y1 (slot_rect g s) <= y1 (slot_rect g s'))%Q).
Proof.
  intros Hwf Hg Hgap Hw Hh Hs.
  destruct (geometry_of_wf params Hwf) as (g' & Hg' & _ & Hcols & _).
  rewrite Hg in Hg'. injection Hg' as <-.
  destruct (grid_of_positive params Hwf) as [_ Hc]. rewrite <- Hcols in Hc.
  assert (Hmargin : g_margin g = mm_to_pt (margin_mm (layout params)) /\
                    g_gap g = mm_to_pt (gap_mm (layout params))).
  { revert Hg. unfold geometry_of.
    destruct (paper_size_pt (paper params) (landscape params)) as [pw ph].
    destruct (grid_of params) as [r c].
    destruct (float_div_int _ c) as [cell_w|e]; [|discriminate].
    destruct (float_div_int _ r) as [cell_h|e]; [|discriminate].
    cbn [bind]. intro H. injection H as <-. split; reflexivity. }
  destruct Hmargin as [Hm Hgp].
  assert (Hfloat : (fl (g_margin g) == g_margin g)%Q)
    by (rewrite Hm; unfold mm_to_pt, fmul; apply fl_idem).
  assert (Hgap' : (0 <= g_gap g)%Q) by (rewrite Hgp; apply mm_to_pt_nonneg, Hgap).
  pose proof (Z.mod_pos_bound s (g_cols g) ltac:(lia)) as Hmod.
  pose proof (Z.div_pos s (g_cols g) Hs ltac:(lia)) as Hdiv.
  unfold slot_rect. cbn [x0 y0 x1 y1].
  fold (slot_edge g (g_cell_w g) (s mod g_cols g)).
  fold (slot_edge g (g_cell_h g) (s / g_cols g)).
  fold (slot_edge g (g_cell_w g) (s' mod g_cols g)).
  fold (slot_edge g (g_cell_h g) (s' / g_cols g)).
  split; [|split].
  - split; [apply slot_edge_margin; try assumption; lia|].
    split; [apply fadd_increases; [unfold slot_edge, fadd; apply fl_idem | exact Hw]|].
    split; [apply slot_edge_margin; assumption|].
    apply fadd_increases; [unfold slot_edge, fadd; apply fl_idem | exact Hh].
  - intro Hle. pose proof (slot_edge_le g (g_cell_w g) _ _ Hw Hgap' Hle) as H.
    split; [exact H | apply fadd_le; [exact H | apply Qle_refl]].
  - intro Hle. pose proof (slot_edge_le g (g_cell_h g) _ _ Hh Hgap' Hle) as H.
    split; [exact H | apply fadd_le; [exact H | apply Qle_refl]].
Qed.

(** ** The page count *)

Lemma count_input_pages_from (src_files : list string) : forall total,
  fold_left (fun total path =>
               match fitz_open path with
               | Ok d => total + Z.of_nat (length d)
               | Raise _ => total
               end) src_files total
  = total + Z.of_nat (length (source_pages src_files)).
Proof.
  induction src_files as [|path src_files IH]; intro total; cbn [fold_left].
  - cbn. lia.
  - rewrite IH, source_pages_cons, length_app.
    assert (Hone : length (source_pages [path]) =
                   match fitz_open path with Ok d => length d | Raise _ => 0%nat end).
    { unfold source_pages. cbn [flat_map]. rewrite app_nil_r.
      destruct (fitz_open path); [apply imap_from_length | reflexivity]. }
    rewrite Hone. destruct (fitz_open path); lia.
Qed.

(** X19. The total that the first loop of the build counts, and that the
    window shows as the number of input pages, is the number of source pages
    the build without a bound places on the output pages it returns. *)
Theorem placements_match_page_count (src_files : list string) (params : BuildParams)
    (built : list OutPage) :
  wf_layout (layout params) ->
  build_nup_from_multiple src_files params None = Ok built ->
  Z.of_nat (length (concat (map (fun page => shown (ops page)) built)))
  = count_input_pages src_files.
Proof.
  intros Hwf Hbuild.
  destruct (build_all src_files params Hwf)
    as (g & _ & _ & HT & [[_ Hall] | [_ [e Hraise]]]);
    [|rewrite Hraise in Hbuild; discriminate Hbuild].
  rewrite Hall in Hbuild. injection Hbuild as <-.
  unfold stamp_footers. rewrite stamp_from_map by (intros page i; apply shown_footer).
  rewrite shown_placed_pages, concat_chunks by lia.
  rewrite imap_from_length. unfold count_input_pages.
  rewrite count_input_pages_from. lia.
Qed.

(** ** The file list: removing and moving rows *)

Lemma takeItem_at {A} (a c : list A) (x : A) :
  takeItem (a ++ x :: c) (length a) = (Some x, a ++ c).
Proof.
  unfold takeItem. f_equal.
  - rewrite nth_error_app2 by lia. rewrite Nat.sub_diag. reflexivity.
  - rewrite firstn_app, Nat.sub_diag, firstn_all. cbn [firstn]. rewrite app_nil_r.
    rewrite skipn_app, skipn_all2 by lia.
    replace (S (length a) - length a)%nat with 1%nat by lia. reflexivity.
Qed.

Lemma takeItem_beyond {A} (l : list A) (r : nat) :
  (length l <= r)%nat -> takeItem l r = (None, l).
Proof.
  intro H. unfold takeItem. f_equal.
  - apply nth_error_None, H.
  - rewrite firstn_all2, skipn_all2 by lia. apply app_nil_r.
Qed.

Lemma insertItem_at {A} (a c : list A) (x : A) :
  insertItem (a ++ c) (length a) x = a ++ x :: c.
Proof.
  unfold insertItem.
  rewrite firstn_app, Nat.sub_diag, firstn_all. cbn [firstn]. rewrite app_nil_r.
  rewrite skipn_app, skipn_all, Nat.sub_diag. reflexivity.
Qed.

(** The list around the rows [r - 1] and [r]. *)
Lemma split_at_row {A} (l : list A) (r : nat) :
  (1 <= r < length l)%nat ->
  exists a x y c, l = a ++ x :: y :: c /\ length a = (r - 1)%nat.
Proof.
  intros Hr.
  destruct (nth_error l (r - 1)) as [x|] eqn:Ex;
    [|apply nth_error_None in Ex; lia].
  destruct (nth_error l r) as [y|] eqn:Ey; [|apply nth_error_None in Ey; lia].
  apply nth_error_split in Ex. destruct Ex as (a & rest & -> & Ha).
  rewrite nth_error_app2 in Ey by lia.
  replace (r - length a)%nat with 1%nat in Ey by lia.
  destruct rest as [|y' c]; [discriminate Ey|]. injection Ey as ->.
  exists a, x, y, c. split; [reflexivity | exact Ha].
Qed.

(** Moving row [length a + 1] up swaps it with the row above. *)
Lemma move_up_row_swaps {A} (a c : list A) (x y : A) :
  move_up_row (a ++ x :: y :: c) (S (length a)) = a ++ y :: x :: c.
Proof.
  unfold move_up_row. cbn [Nat.eqb].
  replace (a ++ x :: y :: c) with ((a ++ [x]) ++ y :: c)
    by (rewrite <- app_assoc; reflexivity).
  replace (S (length a)) with (length (a ++ [x]))
    by (rewrite length_app; cbn [length]; lia).
  rewrite takeItem_at.
  rewrite length_app. cbn [length].
  replace (length a + 1 - 1)%nat with (length a) by lia.
  rewrite <- app_assoc. cbn [app]. apply insertItem_at.
Qed.

(** Moving row [length a] down swaps it with the row below. *)
Lemma move_down_row_swaps {A} (a c : list A) (x y : A) :
  move_down_row (a ++ x :: y :: c) (length a) = a ++ y :: x :: c.
Proof.
  unfold move_down_row.
  destruct (Z.eqb_spec (Z.of_nat (length a))
              (Z.of_nat (length (a ++ x :: y :: c)) - 1)) as [E|_].
  { rewrite length_app in E. cbn [length] in E. lia. }
  rewrite takeItem_at.
  replace (a ++ y :: c) with ((a ++ [y]) ++ c) by (rewrite <- app_assoc; reflexivity).
  replace (length a + 1)%nat with (length (a ++ [y]))
    by (rewrite length_app; cbn [length]; lia).
  rewrite insertItem_at, <- app_assoc. reflexivity.
Qed.

Lemma move_up_row_length {A} (l : list A) (r : nat) :
  length (move_up_row l r) = length l.
Proof.
  destruct r as [|r]; [reflexivity|].
  destruct (Nat.lt_ge_cases (S r) (length l)) as [Hlt|Hge].
  - destruct (split_at_row l (S r) ltac:(lia)) as (a & x & y & c & -> & Ha).
    replace (S r) with (S (length a)) by lia.
    rewrite move_up_row_swaps, !length_app. reflexivity.
  - unfold move_up_row. cbn [Nat.eqb]. rewrite (takeItem_beyond l (S r) Hge). reflexivity.
Qed.

Lemma move_down_row_length {A} (l : list A) (r : nat) :
  length (move_down_row l r) = length l.
Proof.
  destruct (Nat.lt_ge_cases (S r) (length l)) as [Hlt|Hge].
  - destruct (split_at_row l (S r) ltac:(lia)) as (a & x & y & c & -> & Ha).
    replace r with (length a) by lia.
    rewrite move_down_row_swaps, !length_app. reflexivity.
  - unfold move_down_row.
    destruct (Z.of_nat r =? Z.of_nat (length l) - 1) eqn:E; [reflexivity|].
    apply Z.eqb_neq in E. rewrite (takeItem_beyond l r); [reflexivity | lia].
Qed.

Lemma move_up_rows_length {A} (rows : list nat) : forall l : list A,
  length (fold_left move_up_row rows l) = length l.
Proof.
  induction rows as [|r rows IH]; intro l; cbn [fold_left]; [reflexivity|].
  rewrite IH. apply move_up_row_length.
Qed.

(** Moving a row up and then the row it went to down restores the list. *)
Lemma move_up_down_row {A} (l : list A) (r : nat) :
  (1 <= r < length l)%nat -> move_down_row (move_up_row l r) (r - 1) = l.
Proof.
  intro Hr. destruct (split_at_row l r Hr) as (a & x & y & c & -> & Ha).
  replace r with (S (length a)) by lia.
  rewrite move_up_row_swaps. cbn [Nat.sub]. rewrite Nat.sub_0_r.
  apply move_down_row_swaps.
Qed.

Lemma move_up_down_rows {A} (rows : list nat) : forall l : list A,
  Forall (fun r => (1 <= r < length l)%nat) rows ->
  fold_left move_down_row (rev (map Nat.pred rows)) (fold_left move_up_row rows l) = l.
Proof.
  induction rows as [|r rows IH] using rev_ind; intros l Hrows; [reflexivity|].
  apply Forall_app in Hrows. destruct Hrows as [Hrows Hr].
  inversion Hr as [|? ? Hr' _]; subst.
  rewrite fold_left_app, map_app, rev_app_distr. cbn [map rev app fold_left].
  replace (Nat.pred r) with (r - 1)%nat by lia.
  rewrite move_up_down_row by (rewrite move_up_rows_length; exact Hr').
  apply IH, Hrows.
Qed.

Lemma filter_seq_shift (selected : nat -> bool) (len : nat) : forall start,
  filter selected (seq (S start) len)
  = map S (filter (fun r => selected (S r)) (seq start len)).
Proof.
  induction len as [|len IH]; intro start; [reflexivity|].
  cbn [seq filter]. rewrite IH.
  destruct (selected (S start)); reflexivity.
Qed.

(** The rows of a selection that leaves out row 0, and the rows of the
    selection one row up. *)
Lemma selected_rows_shift (selected : nat -> bool) (len : nat) :
  selected 0%nat = false ->
  filter selected (seq 0 len) =
    map S (filter (fun r => selected (S r)) (seq 0 (len - 1))) /\
  filter (fun r => selected (S r)) (seq 0 len) =
    filter (fun r => selected (S r)) (seq 0 (len - 1))
    ++ (if (0 <? len)%nat && selected len then [(len - 1)%nat] else []).
Proof.
  intro H0. destruct len as [|len]; [split; reflexivity|].
  replace (S len - 1)%nat with len by lia. split.
  - cbn [seq filter]. rewrite H0. apply filter_seq_shift.
  - rewrite seq_S, filter_app. cbn [filter Nat.add Nat.ltb Nat.leb andb].
    destruct (selected (S len)); reflexivity.
Qed.

(** X20. Pressing Up and then Down: when the first row is not selected,
    moving the selected rows up and then the rows they went to down restores
    the list. *)
Theorem move_up_then_down {A} (list_widget : list A) (selected : nat -> bool) :
  selected 0%nat = false ->
  move_down (move_up list_widget selected) (fun r => selected (S r)) = list_widget.
Proof.
  intro H0. unfold move_down, move_up, selected_rows.
  rewrite move_up_rows_length.
  destruct (selected_rows_shift selected (length list_widget) H0) as [Hup Hdown].
  rewrite Hdown, rev_app_distr, fold_left_app.
  set (moved := fold_left move_up_row (filter selected (seq 0 (length list_widget)))
                  list_widget).
  assert (Hlast : fold_left move_down_row
                    (rev (if (0 <? length list_widget)%nat && selected (length list_widget)
                          then [(length list_widget - 1)%nat] else []))
                    moved = moved).
  { destruct ((0 <? length list_widget)%nat && selected (length list_widget)) eqn:E;
      [|reflexivity].
    apply andb_prop in E. destruct E as [Hpos _]. apply Nat.ltb_lt in Hpos.
    cbn [rev app fold_left]. unfold move_down_row.
    replace (length moved) with (length list_widget)
      by (symmetry; apply move_up_rows_length).
    destruct (Z.eqb_spec (Z.of_nat (length list_widget - 1))
                (Z.of_nat (length list_widget) - 1)); [reflexivity | lia]. }
  rewrite Hlast. subst moved.
  replace (filter (fun r => selected (S r)) (seq 0 (length list_widget - 1)))
    with (map Nat.pred (filter selected (seq 0 (length list_widget)))).
  - apply move_up_down_rows. apply Forall_forall. intros r Hr.
    apply filter_In in Hr. destruct Hr as [Hin Hsel]. apply in_seq in Hin.
    destruct r as [|r]; [congruence | lia].
  - rewrite Hup, map_map. cbn [Nat.pred]. apply map_id.
Qed.

Lemma move_up_row_permutes {A} (l : list A) (r : nat) : Permutation l (move_up_row l r).
Proof.
  destruct r as [|r]; [apply Permutation_refl|].
  destruct (Nat.lt_ge_cases (S r) (length l)) as [Hlt|Hge].
  - destruct (split_at_row l (S r) ltac:(lia)) as (a & x & y & c & -> & Ha).
    replace (S r) with (S (length a)) by lia.
    rewrite move_up_row_swaps. apply Permutation_app_head, perm_swap.
  - unfold move_up_row. cbn [Nat.eqb]. rewrite (takeItem_beyond l (S r) Hge).
    apply Permutation_refl.
Qed.

Lemma move_down_row_permutes {A} (l : list A) (r : nat) :
  Permutation l (move_down_row l r).
Proof.
  destruct (Nat.lt_ge_cases (S r) (length l)) as [Hlt|Hge].
  - destruct (split_at_row l (S r) ltac:(lia)) as (a & x & y & c & -> & Ha).
    replace r with (length a) by lia.
    rewrite move_down_row_swaps. apply Permutation_app_head, perm_swap.
  - unfold move_down_row.
    destruct (Z.of_nat r =? Z.of_nat (length l) - 1) eqn:E; [apply Permutation_refl|].
    apply Z.eqb_neq in E. rewrite (takeItem_beyond l r) by lia. apply Permutation_refl.
Qed.

Lemma fold_left_permutes {A} (step : list A -> nat -> list A) (rows : list nat) :
  (forall l r, Permutation l (step l r)) ->
  forall l, Permutation l (fold_left step rows l).
Proof.
  intro Hstep. induction rows as [|r rows IH]; intro l; cbn [fold_left];
    [apply Permutation_refl|].
  eapply Permutation_trans; [apply Hstep | apply IH].
Qed.

(** X21. Moving rows loses and duplicates nothing: whatever the selection,
    the list after Up or Down holds the items it held, rearranged. *)
Theorem move_rows_permute {A} (list_widget : list A) (selected : nat -> bool) :
  Permutation list_widget (move_up list_widget selected) /\
  Permutation list_widget (move_down list_widget selected).
Proof.
  split.
  - apply fold_left_permutes, move_up_row_permutes.
  - apply fold_left_permutes, move_down_row_permutes.
Qed.

Lemma rows_kept_app {A} (keep : nat -> bool) (l1 l2 : list A) : forall k,
  rows_kept keep k (l1 ++ l2) = rows_kept keep k l1 ++ rows_kept keep (k + length l1) l2.
Proof.
  induction l1 as [|a l1 IH]; intro k; cbn [app rows_kept length].
  - rewrite Nat.add_0_r. reflexivity.
  - rewrite IH, Nat.add_succ_r. destruct (keep k); reflexivity.
Qed.

Lemma firstn_skipn_row {A} (l : list A) (b : nat) (x : A) :
  nth_error l b = Some x ->
  firstn (S b) l = firstn b l ++ [x] /\ skipn b l = x :: skipn (S b) l.
Proof.
  revert b. induction l as [|a l IH]; intros b H; destruct b as [|b];
    try discriminate H.
  - injection H as ->. split; reflexivity.
  - cbn [nth_error] in H. destruct (IH b H) as [Hfirst Hskip].
    change (firstn (S (S b)) (a :: l)) with (a :: firstn (S b) l).
    change (skipn (S b) (a :: l)) with (skipn b l).
    rewrite Hfirst, Hskip. split; reflexivity.
Qed.

(** The removals of the selected rows below [bound], last row first. *)
Lemma remove_rows_below {A} (selected : nat -> bool) (bound : nat) : forall l : list A,
  fold_left (fun l r => snd (takeItem l r)) (rev (filter selected (seq 0 bound))) l
  = rows_kept (fun r => negb (selected r)) 0 (firstn bound l) ++ skipn bound l.
Proof.
  induction bound as [|b IH]; intro l; [reflexivity|].
  rewrite seq_S, filter_app, rev_app_distr, fold_left_app. cbn [Nat.add filter].
  destruct (nth_error l b) as [x|] eqn:Ex.
  - destruct (firstn_skipn_row l b x Ex) as [Hfirst Hskip].
    assert (Hlen : length (firstn b l) = b).
    { apply firstn_length_le. apply Nat.lt_le_incl, nth_error_Some. congruence. }
    rewrite Hfirst, rows_kept_app, Hlen. cbn [Nat.add rows_kept].
    destruct (selected b); cbn [negb rev app fold_left].
    + rewrite IH. unfold takeItem. cbn [snd].
      rewrite firstn_app, Hlen, Nat.sub_diag, firstn_firstn, Nat.min_id.
      cbn [firstn]. rewrite !app_nil_r.
      rewrite skipn_app, Hlen, Nat.sub_diag, (skipn_all2 (firstn b l)) by lia.
      reflexivity.
    + rewrite IH, Hskip, <- app_assoc. reflexivity.
  - apply nth_error_None in Ex.
    assert (Hsame : snd (takeItem l b) = l) by (rewrite takeItem_beyond by exact Ex; reflexivity).
    rewrite (firstn_all2 (n := S b)), (skipn_all2 (n := S b)) by lia.
    destruct (selected b); cbn [rev app fold_left]; rewrite ?Hsame, IH;
      rewrite (firstn_all2 (n := b)), (skipn_all2 (n := b)) by lia; reflexivity.
Qed.

(** X22. What is left after removing the selection is the items of the rows
    that were not selected, in the order they had. *)
Theorem remove_selected_keeps_rest {A} (list_widget : list A) (selected : nat -> bool) :
  remove_selected list_widget selected
  = rows_kept (fun r => negb (selected r)) 0 list_widget.
Proof.
  unfold remove_selected, selected_rows.
  rewrite remove_rows_below, firstn_all, skipn_all. apply app_nil_r.
Qed.

(** ** The file list: adding files, and the totals shown *)

Lemma append_files_listed isfile basename paths : forall list_widget,
  Forall listed list_widget ->
  Forall listed (_append_files isfile basename list_widget paths) /\
  get_file_list (_append_files isfile basename list_widget paths) =
    get_file_list list_widget ++
    filter (fun p => isfile p && match fitz_open p with Ok _ => true | Raise _ => false end)
           paths.
Proof.
  unfold _append_files.
  induction paths as [|p paths IH]; intros list_widget Hlisted; cbn [fold_left filter].
  - split; [exact Hlisted | symmetry; apply app_nil_r].
  - unfold append_file at 2 4.
    destruct (isfile p); cbn [negb andb]; [|exact (IH list_widget Hlisted)].
    destruct (fitz_open p) as [doc|e] eqn:Eopen; [|exact (IH list_widget Hlisted)].
    destruct (IH (list_widget ++ [mkListItem (basename p) (length doc) p])) as [H1 H2].
    { apply Forall_app. split; [exact Hlisted|]. constructor; [|constructor].
      exists doc. split; [exact Eopen | reflexivity]. }
    split; [exact H1|]. rewrite H2. unfold get_file_list. rewrite map_app, <- app_assoc.
    reflexivity.
Qed.

Lemma count_listed (list_widget : list ListItem) : forall total,
  Forall listed list_widget ->
  fold_left (fun total path =>
               match fitz_open path with
               | Ok d => total + Z.of_nat (length d)
               | Raise _ => total
               end) (get_file_list list_widget) total
  = total + Z.of_nat (list_sum (map shown_pages list_widget)).
Proof.
  induction list_widget as [|item list_widget IH]; intros total Hlisted;
    cbn [get_file_list map fold_left list_sum fold_right].
  - cbn. lia.
  - inversion Hlisted as [|? ? (doc & Hopen & Hpages) Hrest]; subst.
    rewrite Hopen. fold (get_file_list list_widget). rewrite (IH _ Hrest).
    change (fold_right Nat.add 0%nat (map shown_pages list_widget))
      with (list_sum (map shown_pages list_widget)).
    rewrite Hpages. lia.
Qed.

(** X23. The list made by adding [paths] to an empty list holds, in order,
    the paths that are files and open; and the total of pages that the
    window then shows is the sum of the page counts shown in the list (the
    sources read the same each time they are opened). *)
Theorem appended_files_counted (isfile : string -> bool) (basename : string -> string)
    (paths : list string) :
  get_file_list (_append_files isfile basename [] paths) =
    filter (fun p => isfile p && match fitz_open p with Ok _ => true | Raise _ => false end)
           paths /\
  update_info_label (_append_files isfile basename [] paths) =
    match _append_files isfile basename [] paths with
    | [] => None
    | item :: rest =>
        Some (length (item :: rest),
              Z.of_nat (list_sum (map shown_pages (item :: rest))))
    end.
Proof.
  destruct (append_files_listed isfile basename paths [] (Forall_nil listed))
    as [Hlisted Hfiles].
  split; [exact Hfiles|].
  unfold update_info_label.
  destruct (_append_files isfile basename [] paths) as [|item rest]; [reflexivity|].
  unfold count_input_pages. rewrite (count_listed (item :: rest) 0 Hlisted).
  cbn [get_file_list map length]. rewrite length_map. reflexivity.
Qed.

(** ** Saving *)

Lemma first_free_some isfile names file_name :
  first_free isfile names = Some file_name <->
  exists i, nth_error names i = Some file_name /\ isfile file_name = false /\
            forall j other, (j < i)%nat -> nth_error names j = Some other ->
                            isfile other = true.
Proof.
  induction names as [|first rest IH]; cbn [first_free].
  - split; [discriminate | intros ([|i] & H & _); discriminate H].
  - destruct (isfile first) eqn:Efirst; cbn [negb].
    + rewrite IH. split.
      * intros (i & Hi & Hfree & Hbefore). exists (S i). split; [exact Hi|].
        split; [exact Hfree|]. intros [|j] other Hj Hother; cbn [nth_error] in Hother.
        -- injection Hother as <-. exact Efirst.
        -- apply (Hbefore j other); [lia | exact Hother].
      * intros ([|i] & Hi & Hfree & Hbefore); cbn [nth_error] in Hi.
        -- injection Hi as <-. congruence.
        -- exists i. split; [exact Hi|]. split; [exact Hfree|].
           intros j other Hj Hother. apply (Hbefore (S j) other); [lia | exact Hother].
    + split.
      * intro H. injection H as <-. exists 0%nat. split; [reflexivity|].
        split; [exact Efirst|]. intros j other Hj. lia.
      * intros ([|i] & Hi & Hfree & Hbefore); cbn [nth_error] in Hi.
        -- congruence.
        -- specialize (Hbefore 0%nat first ltac:(lia) eq_refl). congruence.
Qed.

(** X24. [save_pdf] saves exactly when there is an input file, the build
    without a bound returns a document that has a page, a folder is chosen,
    one of the 1000 names is not a file and the file system accepts the
    writing; it then saves what the build returned, under the first of the
    names that is not a file, so never over a file that is there. *)
Theorem save_pdf_writes_new_file (isfile : string -> bool)
    (join : string -> string -> string) (basename : string -> string)
    (write : list OutPage -> string -> result unit)
    (list_widget : list ListItem) (params : BuildParams) (folder : string)
    (file_name : string) (saved : list OutPage) :
  save_pdf isfile join basename write list_widget params folder
    = Saves file_name saved <->
  (list_widget <> [] /\
   build_nup_from_multiple (get_file_list list_widget) params None = Ok saved /\
   saved <> [] /\
   folder <> ""%string /\
   (exists i, (i < 1000)%nat /\
      file_name = save_name join folder (base_name_of basename folder) i /\
      isfile file_name = false /\
      forall j, (j < i)%nat ->
        isfile (save_name join folder (base_name_of basename folder) j) = true) /\
   write saved file_name = Ok tt).
Proof.
  unfold save_pdf. fold (base_name_of basename folder).
  set (names := map (save_name join folder (base_name_of basename folder)) (seq 0 1000)).
  assert (Hnth : forall i name, nth_error names i = Some name <->
                   (i < 1000)%nat /\
                   name = save_name join folder (base_name_of basename folder) i).
  { intros i name. unfold names. rewrite nth_error_map, nth_error_seq.
    destruct (Nat.ltb_spec i 1000) as [Hlt|Hge]; cbn [option_map Nat.add].
    - split; [intro Heq; injection Heq as <-; split; [exact Hlt | reflexivity]
             |intros [_ ->]; reflexivity].
    - split; [discriminate | intros [Hlt _]; lia]. }
  split.
  - destruct list_widget as [|item rest]; [discriminate|]. cbn [get_file_list map].
    destruct (build_nup_from_multiple _ params None) as [out|e]; [|discriminate].
    destruct (String.eqb_spec folder "") as [Hfolder|Hfolder]; [discriminate|].
    destruct (first_free isfile names) as [chosen|] eqn:Efree; [|discriminate].
    destruct (Document_save write out chosen) as [[]|e] eqn:Esave; [|discriminate].
    intro H. injection H as <- <-.
    apply first_free_some in Efree. destruct Efree as (i & Hi & Hfree & Hbefore).
    apply Hnth in Hi. destruct Hi as [Hlt Hname].
    split; [discriminate|]. split; [reflexivity|].
    unfold Document_save in Esave.
    destruct out as [|page pages]; [discriminate Esave|].
    split; [discriminate|]. split; [exact Hfolder|]. split; [|exact Esave].
    exists i. split; [exact Hlt|]. split; [exact Hname|]. split; [exact Hfree|].
    intros j Hj. apply (Hbefore j); [exact Hj|]. apply Hnth. split; [lia | reflexivity].
  - intros (Hfiles & Hbuild & Hpages & Hfolder & (i & Hlt & Hname & Hfree & Hbefore)
            & Hwrite).
    destruct list_widget as [|item rest]; [contradiction|]. cbn [get_file_list map] in *.
    rewrite Hbuild. destruct (String.eqb_spec folder ""); [contradiction|].
    assert (Efree : first_free isfile names = Some file_name).
    { apply first_free_some. exists i. split; [apply Hnth; split; assumption|].
      split; [exact Hfree|]. intros j other Hj Hother.
      apply Hnth in Hother. destruct Hother as [_ ->]. apply Hbefore, Hj. }
    rewrite Efree. unfold Document_save.
    destruct saved as [|page pages]; [contradiction|].
    rewrite Hwrite. reflexivity.
Qed.

(** ** The preview: pages *)

Lemma load_page_in_range (doc : list OutPage) (index : Z) :
  0 <= index < Z.of_nat (length doc) -> exists page, load_page doc index = Ok page.
Proof.
  intro H. unfold load_page.
  destruct (nth_error doc (Z.to_nat index)) as [page|] eqn:E.
  - exists page. reflexivity.
  - apply nth_error_None in E. lia.
Qed.

(** X25. [_show_preview_page] shows the page nearest to the one asked for:
    for a document with pages it never raises, and the page it makes current
    is the index brought into the range of the pages; for a document without
    pages it raises. *)
Theorem show_preview_page_clamps (doc : list OutPage) (current index : Z) :
  _show_preview_page (mkPreview (Some doc) current) index =
    match doc with
    | [] => Raise FitzError
    | _ :: _ =>
        Ok (mkPreview (Some doc) (Z.max 0 (Z.min index (Z.of_nat (length doc) - 1))))
    end /\
  (doc <> [] ->
   0 <= Z.max 0 (Z.min index (Z.of_nat (length doc) - 1)) < Z.of_nat (length doc)).
Proof.
  unfold _show_preview_page. cbn [preview_doc]. destruct doc as [|page rest].
  - split; [|intro H; contradiction].
    cbn [length]. replace (Z.max 0 (Z.min index (Z.of_nat 0 - 1))) with 0 by lia.
    reflexivity.
  - assert (Hrange : 0 <= Z.max 0 (Z.min index (Z.of_nat (length (page :: rest)) - 1))
                     < Z.of_nat (length (page :: rest)))
      by (cbn [length]; lia).
    split; [|intros _; exact Hrange].
    destruct (load_page_in_range _ _ Hrange) as [shown_page ->]. reflexivity.
Qed.

Lemma show_in_range (doc : list OutPage) (current index : Z) :
  doc <> [] ->
  exists current',
    _show_preview_page (mkPreview (Some doc) current) index
      = Ok (mkPreview (Some doc) current') /\
    page_in_range doc current'.
Proof.
  intro Hdoc. unfold _show_preview_page. cbn [preview_doc].
  assert (Hrange : 0 <= Z.max 0 (Z.min index (Z.of_nat (length doc) - 1))
                   < Z.of_nat (length doc)).
  { destruct doc as [|page rest]; [contradiction|]. cbn [length]. lia. }
  destruct (load_page_in_range _ _ Hrange) as [shown_page ->]. cbn [bind].
  eexists. split; [reflexivity|]. unfold page_in_range. lia.
Qed.

Lemma page_action_in_range (doc : list OutPage) (current : Z) (a : PageAction) :
  page_in_range doc current ->
  exists current',
    page_action (mkPreview (Some doc) current) a = Ok (mkPreview (Some doc) current') /\
    page_in_range doc current'.
Proof.
  intro Hrange.
  assert (Hstay : exists current',
             Ok (mkPreview (Some doc) current) = Ok (mkPreview (Some doc) current') /\
             page_in_range doc current')
    by (exists current; split; [reflexivity | exact Hrange]).
  destruct a as [| |[n|]]; unfold page_action, prev_page, next_page,
    _jump_to_page_from_indicator; cbn [preview_doc preview_current_page].
  - destruct (Z.ltb_spec 0 current) as [Hlt|_]; [|exact Hstay].
    apply show_in_range. intros ->. unfold page_in_range in Hrange.
    cbn [length] in Hrange. lia.
  - destruct (Z.ltb_spec current (Z.of_nat (length doc) - 1)) as [Hlt|_]; [|exact Hstay].
    apply show_in_range. intros ->. unfold page_in_range in Hrange.
    cbn [length] in Hlt. lia.
  - destruct doc as [|page rest].
    + destruct (_show_preview_page _ _) as [st'|e] eqn:E; [|exact Hstay].
      unfold _show_preview_page in E. cbn [preview_doc length] in E.
      replace (Z.max 0 (Z.min (n - 1) (Z.of_nat 0 - 1))) with 0 in E by lia.
      discriminate E.
    + destruct (show_in_range (page :: rest) current (n - 1) ltac:(discriminate))
        as (current' & -> & Hrange').
      exists current'. split; [reflexivity | exact Hrange'].
  - exact Hstay.
Qed.

(** X26. The page controls never leave the document: from a current page in
    range, whatever the user does with Previous, Next and the page field, no
    exception leaves the handlers, the document stays, and the current page
    stays in range. *)
Theorem page_actions_stay_in_range (doc : list OutPage) (actions : list PageAction) :
  forall current,
  page_in_range doc current ->
  exists current',
    for_in actions page_action (mkPreview (Some doc) current)
      = Ok (mkPreview (Some doc) current') /\
    page_in_range doc current'.
Proof.
  induction actions as [|a actions IH]; intros current Hrange; cbn [for_in].
  - exists current. split; [reflexivity | exact Hrange].
  - destruct (page_action_in_range doc current a Hrange) as (next & -> & Hnext).
    cbn [bind]. apply IH, Hnext.
Qed.

(** ** The preview: zoom *)

Lemma Qeq_bool_positive (q : Q) : (0 < q)%Q -> Qeq_bool q 0 = false.
Proof.
  intro H. destruct (Qeq_bool q 0) eqn:E; [|reflexivity].
  apply Qeq_bool_iff in E. rewrite E in H. discriminate H.
Qed.

(** [_applyZoom] keeps the scale between 0.05 and 10, and its division is
    by a positive scale. *)
Lemma applyZoom_bounds (v : PreviewView) (factor : Q) :
  (0 < _scale v)%Q ->
  exists v',
    _applyZoom v factor = Ok v' /\ has_pix_item v' = has_pix_item v /\
    (0 < _scale v')%Q /\
    (has_pix_item v = true -> (5 # 100 <= _scale v' <= 10)%Q).
Proof.
  intro Hpos. unfold _applyZoom. destruct (has_pix_item v) eqn:Hitem; cbn [negb].
  - rewrite (Qeq_bool_positive _ Hpos). eexists. split; [reflexivity|].
    cbn [has_pix_item _scale]. split; [reflexivity|].
    destruct (Qlt_bool (_scale v * factor) 10) eqn:Ecap.
    + apply Qlt_bool_iff in Ecap.
      destruct (Qlt_bool (5 # 100) (_scale v * factor)) eqn:Efloor.
      * apply Qlt_bool_iff in Efloor. split; [|intros _; split]; lra.
      * split; [reflexivity | intros _; split; discriminate].
    + destruct (Qlt_bool (5 # 100) 10) eqn:Efloor.
      * split; [reflexivity | intros _; split; discriminate].
      * discriminate Efloor.
  - exists v. split; [reflexivity|]. split; [exact Hitem|].
    split; [exact Hpos | discriminate].
Qed.

(** X27. Zooming in or out, by button or wheel, leaves a scale between 0.05
    and 10 when a pixmap is shown, whatever the scale was before (fitting
    the width can set a scale outside that range). *)
Theorem applyZoom_clamps (v : PreviewView) (factor : Q) :
  (0 < _scale v)%Q ->
  has_pix_item v = true ->
  exists v', _applyZoom v factor = Ok v' /\ (5 # 100 <= _scale v' <= 10)%Q.
Proof.
  intros Hpos Hitem.
  destruct (applyZoom_bounds v factor Hpos) as (v' & Hzoom & _ & _ & Hclamp).
  exists v'. split; [exact Hzoom | exact (Hclamp Hitem)].
Qed.

Lemma zoom_action_positive (v : PreviewView) (a : ZoomAction) :
  (0 < _scale v)%Q ->
  exists v', zoom_action v a = Ok v' /\ (0 < _scale v')%Q.
Proof.
  intro Hpos. destruct a as [| |angle| |view_w pix_w];
    unfold zoom_action, zoomIn, zoomOut, wheelEvent.
  - destruct (applyZoom_bounds v (125 # 100) Hpos) as (v' & H & _ & H' & _).
    exists v'. split; assumption.
  - destruct (applyZoom_bounds v (8 # 10) Hpos) as (v' & H & _ & H' & _).
    exists v'. split; assumption.
  - destruct (applyZoom_bounds v (if 0 <? angle then 125 # 100 else 8 # 10) Hpos)
      as (v' & H & _ & H' & _).
    exists v'. split; assumption.
  - exists (resetZoom v). split; [reflexivity | reflexivity].
  - exists (fitWidth v view_w pix_w). split; [reflexivity|].
    unfold fitWidth. destruct (has_pix_item v); cbn [negb]; [|exact Hpos].
    destruct (pix_w <=? 0); [exact Hpos|].
    destruct (Qle_bool (of_int (view_w - 20) / of_int pix_w) 0) eqn:E; [exact Hpos|].
    cbn [_scale]. apply Qnot_le_lt. intro Hle. apply Qle_bool_iff in Hle. congruence.
Qed.

(** X28. The scale of the preview stays positive, so the division in
    [_applyZoom] never raises: from a positive scale (it starts at 1),
    whatever the user does with the zoom buttons, the wheel, the reset and
    the fit to width, no handler raises and the scale stays positive. *)
Theorem zoom_actions_keep_scale_positive (actions : list ZoomAction) :
  forall v : PreviewView,
  (0 < _scale v)%Q ->
  exists v', for_in actions zoom_action v = Ok v' /\ (0 < _scale v')%Q.
Proof.
  induction actions as [|a actions IH]; intros v Hpos; cbn [for_in].
  - exists v. split; [reflexivity | exact Hpos].
  - destruct (zoom_action_positive v a Hpos) as (next & -> & Hnext).
    cbn [bind]. apply IH, Hnext.
Qed.

End Fitz.

(** * The properties on the two documents *)

Example choose_auto_grid_A4 :
  choose_auto_grid (paper_size_pt "A4" false) (mkLayoutParams 2 2 10 4 true 90) = (4, 2).
Proof. vm_compute. reflexivity. Qed.

(** On A4 with margins of 5 mm and gaps of 4 mm, two columns are 98 mm wide
    in exact arithmetic.  In binary64 the cell comes out one unit in the
    last place below [mm_to_pt 98], so with that minimum only one column
    is wide enough. *)
Example choose_auto_grid_A4_rounding :
  (grid_cell_w (paper_size_pt "A4" false) (mkLayoutParams 2 2 5 4 true 98) 2
   < mm_to_pt 98)%Q /\
  choose_auto_grid (paper_size_pt "A4" false) (mkLayoutParams 2 2 5 4 true 98) = (2, 1).
Proof. split; vm_compute; reflexivity. Qed.

(** The black pixel at (5, 5) gives the box 3..8 in both directions. *)
Example ex_dotted_page_clip :
  estimate_content_clip ex_drop_alpha ex_transform_rect ex_dotted_page 245
  = mkRect (216 # 72) (216 # 72) (576 # 72) (576 # 72).
Proof. vm_compute. reflexivity. Qed.

Lemma ex_params_wf : wf_layout (layout ex_params).
Proof. split; simpl; lia. Qed.

(** The build of d1.pdf and d2.pdf returns two output pages. *)
Lemma ex_build_returns :
  exists full,
    build_nup_from_multiple ex_open ex_drop_alpha ex_transform_rect ex_show_pdf_page
      ["d1.pdf"; "d2.pdf"]%string ex_params None = Ok full /\
    length full = 2%nat.
Proof. vm_compute. eexists. split; reflexivity. Qed.

Lemma choose_auto_grid_monotone_witness :
  (30 <= 90)%Q /\
  slot_count (choose_auto_grid (paper_size_pt "A4" false)
                (mkLayoutParams 2 2 10 4 true 90))
  <= slot_count (choose_auto_grid (paper_size_pt "A4" false)
                   (mkLayoutParams 2 2 10 4 true 30)).
Proof.
  assert (H : (30 <= 90)%Q) by (unfold Qle; simpl; lia).
  split; [exact H|].
  exact (choose_auto_grid_monotone (paper_size_pt "A4" false) 2 2 10 4 true 30 90 H).
Defined.

(** D1 of three pages and D2 of two on a 2x2 grid: D1p1, D1p2, D1p3 and
    D2p1 in the slots 0 to 3 of the first output page, D2p2 in slot 0 of
    the second. *)
Lemma build_places_in_order_witness :
  wf_layout (layout ex_params) /\
  exists g out,
    geometry_of ex_params = Ok g /\
    build_nup_from_multiple ex_open ex_drop_alpha ex_transform_rect ex_show_pdf_page
      ["d1.pdf"; "d2.pdf"]%string ex_params None = Ok out /\
    map (fun page => shown (ops page)) out =
      [ [ (slot_rect g 0, "d1.pdf"%string, 0%nat, mkRect 0 0 595 842);
          (slot_rect g 1, "d1.pdf"%string, 1%nat, mkRect 0 0 595 842);
          (slot_rect g 2, "d1.pdf"%string, 2%nat, mkRect 0 0 842 595);
          (slot_rect g 3, "d2.pdf"%string, 0%nat, mkRect 0 0 612 792) ];
        [ (slot_rect g 0, "d2.pdf"%string, 1%nat, mkRect 0 0 612 792) ] ].
Proof.
  split; [exact ex_params_wf|].
  destruct (build_places_in_order ex_open ex_drop_alpha ex_transform_rect ex_show_pdf_page
              ["d1.pdf"; "d2.pdf"]%string ex_params ex_params_wf)
    as (g & Hg & _ & _ & Hshown).
  destruct ex_build_returns as (out & Hbuild & _).
  exists g, out. split; [exact Hg|]. split; [exact Hbuild|].
  rewrite (Hshown out Hbuild).
  vm_compute in Hg. injection Hg as <-. vm_compute. reflexivity.
Defined.

Lemma footer_counts_all_pages_witness :
  draw_page_numbers ex_params = true /\
  wf_layout (layout ex_params) /\
  exists out,
    build_nup_from_multiple ex_open ex_drop_alpha ex_transform_rect ex_show_pdf_page
      ["d1.pdf"; "d2.pdf"]%string ex_params None = Ok out /\
    length out = 2%nat /\
    map (fun page => texts (ops page)) out =
      [ ["1"; "2"; "3"; "4"; "1 / 2"]; ["5"; "2 / 2"] ]%string.
Proof.
  split; [reflexivity|]. split; [exact ex_params_wf|].
  destruct (footer_counts_all_pages ex_open ex_drop_alpha ex_transform_rect ex_show_pdf_page
              ["d1.pdf"; "d2.pdf"]%string ex_params eq_refl)
    as (_ & Hwf).
  destruct (Hwf ex_params_wf) as (g & Hg & _ & Hpages).
  destruct ex_build_returns as (out & Hbuild & _).
  destruct (Hpages out Hbuild) as (Hcount & _ & _).
  exists out. split; [exact Hbuild|].
  vm_compute in Hg. injection Hg as <-. split; [exact Hcount|].
  vm_compute in Hbuild. injection Hbuild as <-. reflexivity.
Defined.

(** C5. The build of d1.pdf (three pages) and d2.pdf (two pages) on the 2x2
    grid with the bound 1.  Without a bound it returns two output pages.
    With the bound, the loop has the first output page full after the first
    page of d2.pdf, closes d2.pdf and returns the one page with the footer
    "1 / 1"; the [finally] then closes d2.pdf a second time, and the build
    raises the ValueError of that call instead of returning the page. *)
Theorem early_stop_raises :
  (exists full,
     build_nup_from_multiple ex_open ex_drop_alpha ex_transform_rect ex_show_pdf_page
       ["d1.pdf"; "d2.pdf"]%string ex_params None = Ok full /\
     length full = 2%nat) /\
  (exists g out,
     geometry_of ex_params = Ok g /\
     for_flow (source_pages ex_open ["d1.pdf"; "d2.pdf"]%string)
       (place_item ex_drop_alpha ex_transform_rect ex_show_pdf_page ex_params g (Some 1))
       (mkBuildState [] 0 0) = Return out /\
     map (fun page => texts (ops page)) out = [ ["1"; "2"; "3"; "4"; "1 / 1"] ]%string) /\
  build_nup_from_multiple ex_open ex_drop_alpha ex_transform_rect ex_show_pdf_page
    ["d1.pdf"; "d2.pdf"]%string ex_params (Some 1) = Raise ValueError.
Proof.
  split; [vm_compute; eexists; split; reflexivity|].
  split; [|vm_compute; reflexivity].
  eexists _, _. split; [vm_compute; reflexivity|].
  split; vm_compute; reflexivity.
Qed.

(** C7. With PyMuPDF as it is, [inv.transform_rect] raises AttributeError,
    which the [except] of [estimate_content_clip] catches: the estimator
    returns the rectangle of the page, whatever the page and the threshold,
    and never the box of the content widened by 2 and cut to the page.  On
    the 10x10 page with one black pixel at (5, 5) the content box is
    (5, 5, 6, 6), widened and cut to the page it is (3, 3, 8, 8), and the
    estimator returns (0, 0, 10, 10). *)
Theorem estimate_content_clip_whole_page :
  (forall drop_alpha src_page threshold,
     estimate_content_clip drop_alpha fitz_Matrix_transform_rect src_page threshold
     = rect src_page) /\
  nonwhite_bbox_pixmap ex_drop_alpha ex_dotted_pixmap 245 = Some (mkRect 5 5 6 6) /\
  Rect_and (Rect_add (mkRect 5 5 6 6) (mkRect (-2) (-2) 2 2)) (rect ex_dotted_page)
    = mkRect 3 3 8 8 /\
  estimate_content_clip ex_drop_alpha fitz_Matrix_transform_rect ex_dotted_page 245
    = mkRect 0 0 10 10.
Proof.
  split; [|repeat split; vm_compute; reflexivity].
  intros drop_alpha src_page threshold.
  unfold estimate_content_clip, estimate_content_try.
  destruct (get_pixmap src_page _ false) as [pix|e]; [|reflexivity].
  cbn [bind].
  destruct (falsy (nonwhite_bbox_pixmap drop_alpha pix threshold)); [reflexivity|].
  destruct (nonwhite_bbox_pixmap drop_alpha pix threshold); reflexivity.
Qed.

Lemma estimate_content_clip_within_witness :
  (forall m r r', ex_transform_rect m r = Ok r' -> r' = scaled_rect m r) /\
  Rect_within (estimate_content_clip ex_drop_alpha ex_transform_rect ex_dotted_page 245)
              (rect ex_dotted_page) /\
  forall x y,
    in_rect (estimate_content_clip ex_drop_alpha ex_transform_rect ex_dotted_page 245) x y ->
    in_rect (rect ex_dotted_page) x y.
Proof.
  assert (H : forall m r r', ex_transform_rect m r = Ok r' -> r' = scaled_rect m r).
  { intros m r r' E. unfold ex_transform_rect in E. injection E as <-. reflexivity. }
  split; [exact H|].
  exact (estimate_content_clip_within ex_drop_alpha ex_transform_rect ex_dotted_page 245 H).
Defined.

Lemma unopenable_source_skipped_witness :
  ex_open "corrupt.pdf" = Raise FitzError /\
  exists out,
    build_nup_from_multiple ex_open ex_drop_alpha ex_transform_rect ex_show_pdf_page
      ["d1.pdf"; "corrupt.pdf"; "d2.pdf"]%string ex_params None = Ok out /\
    build_nup_from_multiple ex_open ex_drop_alpha ex_transform_rect ex_show_pdf_page
      ["d1.pdf"; "d2.pdf"]%string ex_params None = Ok out /\
    length out = 2%nat.
Proof.
  split; [reflexivity|].
  destruct ex_build_returns as (out & Hbuild & Hpages).
  exists out. split; [|split; assumption].
  rewrite <- Hbuild.
  exact (proj1 (unopenable_source_skipped ex_open ex_drop_alpha ex_transform_rect
                  ex_show_pdf_page ["d1.pdf"%string] ["d2.pdf"%string] "corrupt.pdf"
                  FitzError ex_params None eq_refl)).
Defined.

Lemma build_of_no_pages_witness :
  wf_layout (layout ex_params) /\
  build_nup_from_multiple ex_open ex_drop_alpha ex_transform_rect ex_show_pdf_page
    [] ex_params None
  = Ok [].
Proof.
  split; [exact ex_params_wf|].
  apply (build_of_no_pages ex_open ex_drop_alpha ex_transform_rect ex_show_pdf_page
           [] ex_params None ex_params_wf).
  intros path src Hin. destruct Hin.
Defined.

(** * The further properties on examples *)

Lemma choose_auto_grid_more_room_witness :
  (595 <= 842)%Q /\ (10 <= 10)%Q /\ (2 <= 4)%Q /\ (90 <= 90)%Q /\
  slot_count (choose_auto_grid (595, 842)%Q (mkLayoutParams 2 2 10 4 true 90))
  <= slot_count (choose_auto_grid (842, 595)%Q (mkLayoutParams 2 2 10 2 true 90)).
Proof.
  assert (H1 : (595 <= 842)%Q) by discriminate.
  assert (H2 : (10 <= 10)%Q) by discriminate.
  assert (H3 : (2 <= 4)%Q) by discriminate.
  assert (H4 : (90 <= 90)%Q) by discriminate.
  repeat (split; [assumption|]).
  exact (choose_auto_grid_more_room 595 842 842 595
           (mkLayoutParams 2 2 10 4 true 90) (mkLayoutParams 2 2 10 2 true 90)
           H1 H2 H3 H4).
Defined.

Lemma nonwhite_bbox_pixmap_encloses_witness :
  nonwhite_bbox_pixmap ex_drop_alpha ex_dotted_pixmap 245 = Some (mkRect 5 5 6 6) /\
  exists xmin ymin xmax ymax,
    mkRect 5 5 6 6
      = mkRect (of_int xmin) (of_int ymin) (of_int (xmax + 1)) (of_int (ymax + 1)) /\
    forall x y, (x < 10)%nat -> (y < 10)%nat -> dark ex_dotted_pixmap 245 x y ->
      xmin <= Z.of_nat x <= xmax /\ ymin <= Z.of_nat y <= ymax.
Proof.
  assert (Hbox : nonwhite_bbox_pixmap ex_drop_alpha ex_dotted_pixmap 245
                 = Some (mkRect 5 5 6 6)) by reflexivity.
  split; [exact Hbox|].
  destruct (nonwhite_bbox_pixmap_encloses ex_drop_alpha ex_dotted_pixmap 245 _ Hbox)
    as (p & xmin & ymin & xmax & ymax & Hp & Hrect & Hall & _).
  injection Hp as <-.
  exists xmin, ymin, xmax, ymax. split; [exact Hrect | exact Hall].
Defined.

Lemma nonwhite_bbox_pixmap_none_iff_blank_witness :
  rgb_pixmap ex_dotted_pixmap /\
  (nonwhite_bbox_pixmap ex_drop_alpha ex_dotted_pixmap 0 = None <->
   blank ex_dotted_pixmap 0).
Proof.
  assert (Hrgb : rgb_pixmap ex_dotted_pixmap).
  { split; [reflexivity|]. split; [cbn; lia | vm_compute; lia]. }
  split; [exact Hrgb|].
  exact (nonwhite_bbox_pixmap_none_iff_blank ex_drop_alpha ex_dotted_pixmap 0 Hrgb).
Defined.

Lemma nonwhite_bbox_pixmap_too_few_components_witness :
  In x00 (samples ex_gray_pixmap) /\
  nonwhite_bbox_pixmap ex_drop_alpha ex_gray_pixmap 245 = None.
Proof.
  split.
  - right; left; reflexivity.
  - apply (nonwhite_bbox_pixmap_too_few_components ex_drop_alpha ex_gray_pixmap 245).
    intros p Hp. injection Hp as <-. cbn. lia.
Defined.

Lemma estimate_content_clip_keeps_dark_witness :
  rasterized ex_dotted_page = Ok ex_dotted_pixmap /\
  dark ex_dotted_pixmap 245 5 5 /\
  in_rect (estimate_content_clip ex_drop_alpha ex_transform_rect ex_dotted_page 245)
          (11 # 2) (11 # 2).
Proof.
  assert (Hdark : dark ex_dotted_pixmap 245 5 5)
    by (exists 0, 0, 0; split; reflexivity).
  split; [reflexivity|]. split; [exact Hdark|].
  apply (estimate_content_clip_keeps_dark ex_drop_alpha ex_transform_rect
           ex_dotted_page 245 ex_dotted_pixmap ex_dotted_pixmap 5 5 (11 # 2) (11 # 2)).
  - intros m r r' E. unfold ex_transform_rect in E. injection E as <-. reflexivity.
  - reflexivity.
  - reflexivity.
  - cbn; lia.
  - cbn; lia.
  - exact Hdark.
  - discriminate.
  - discriminate.
  - discriminate.
  - discriminate.
  - repeat split; discriminate.
Defined.

Lemma cell_indices_run_on_witness :
  exists out page,
    build_nup_from_multiple ex_open ex_drop_alpha ex_transform_rect ex_show_pdf_page
      ["d1.pdf"; "d2.pdf"]%string ex_params None = Ok out /\
    nth_error out 1 = Some page /\
    texts (ops page) = ["5"; "2 / 2"]%string.
Proof.
  destruct ex_build_returns as (out & Hbuild & Hlen).
  destruct out as [|p0 [|p1 [|p2 rest]]]; try discriminate Hlen.
  exists [p0; p1], p1. split; [exact Hbuild|]. split; [reflexivity|].
  rewrite (cell_indices_run_on ex_open ex_drop_alpha ex_transform_rect ex_show_pdf_page
             ["d1.pdf"; "d2.pdf"]%string ex_params [p0; p1] 1 p1
             ex_params_wf eq_refl Hbuild eq_refl).
  reflexivity.
Defined.

Lemma output_pages_filled_witness :
  exists out first last,
    build_nup_from_multiple ex_open ex_drop_alpha ex_transform_rect ex_show_pdf_page
      ["d1.pdf"; "d2.pdf"]%string ex_params None = Ok out /\
    out = [first; last] /\
    length (shown (ops first)) = 4%nat /\ length (shown (ops last)) = 1%nat.
Proof.
  destruct ex_build_returns as (out & Hbuild & Hlen).
  destruct out as [|p0 [|p1 [|p2 rest]]]; try discriminate Hlen.
  exists [p0; p1], p0, p1. split; [exact Hbuild|]. split; [reflexivity|].
  destruct (output_pages_filled ex_open ex_drop_alpha ex_transform_rect ex_show_pdf_page
              ["d1.pdf"; "d2.pdf"]%string ex_params [p0; p1] 0 p0
              ex_params_wf Hbuild eq_refl) as (_ & _ & H0).
  destruct (output_pages_filled ex_open ex_drop_alpha ex_transform_rect ex_show_pdf_page
              ["d1.pdf"; "d2.pdf"]%string ex_params [p0; p1] 1 p1
              ex_params_wf Hbuild eq_refl) as (_ & _ & H1).
  split; [exact H0 | exact H1].
Defined.

Lemma output_pages_paper_sized_witness :
  exists out,
    build_nup_from_multiple ex_open ex_drop_alpha ex_transform_rect ex_show_pdf_page
      ["d1.pdf"; "d2.pdf"]%string ex_params (Some 2) = Ok out /\
    length out = 2%nat /\
    forall page, In page out -> (page_w page, page_h page) = paper_size_pt "A4" false.
Proof.
  eexists. split; [vm_compute; reflexivity|]. split; [reflexivity|].
  refine (output_pages_paper_sized ex_open ex_drop_alpha ex_transform_rect
            ex_show_pdf_page ["d1.pdf"; "d2.pdf"]%string ex_params (Some 2) _ _).
  vm_compute. reflexivity.
Defined.

Lemma texts_without_indices_witness :
  exists out page,
    build_nup_from_multiple ex_open ex_drop_alpha ex_transform_rect ex_show_pdf_page
      ["d1.pdf"; "d2.pdf"]%string ex_params_plain None = Ok out /\
    nth_error out 1 = Some page /\
    texts (ops page) = ["2 / 2"]%string.
Proof.
  assert (Hbuild : exists out,
             build_nup_from_multiple ex_open ex_drop_alpha ex_transform_rect
               ex_show_pdf_page ["d1.pdf"; "d2.pdf"]%string ex_params_plain None = Ok out /\
             length out = 2%nat)
    by (vm_compute; eexists; split; reflexivity).
  destruct Hbuild as (out & Hbuild & Hlen).
  destruct out as [|p0 [|p1 [|p2 rest]]]; try discriminate Hlen.
  exists [p0; p1], p1. split; [exact Hbuild|]. split; [reflexivity|].
  exact (texts_without_indices ex_open ex_drop_alpha ex_transform_rect ex_show_pdf_page
           ["d1.pdf"; "d2.pdf"]%string ex_params_plain None [p0; p1] 1 p1
           eq_refl Hbuild eq_refl).
Defined.

Lemma bound_below_one_is_one_witness :
  -3 <= 1 /\
  build_nup_from_multiple ex_open ex_drop_alpha ex_transform_rect ex_show_pdf_page
    ["d1.pdf"; "d2.pdf"]%string ex_params (Some (-3)) =
  build_nup_from_multiple ex_open ex_drop_alpha ex_transform_rect ex_show_pdf_page
    ["d1.pdf"; "d2.pdf"]%string ex_params (Some 1).
Proof.
  assert (H : -3 <= 1) by lia.
  split; [exact H|].
  exact (bound_below_one_is_one ex_open ex_drop_alpha ex_transform_rect ex_show_pdf_page
           ["d1.pdf"; "d2.pdf"]%string ex_params (-3) H).
Defined.

(** Five source pages on a 2x2 grid reach the bound 1, and the bound 0. *)
Lemma reached_bound_raises_witness :
  wf_layout (layout ex_params) /\
  Z.max 1 0 * Z.of_nat (slots_per_page ex_params)
    <= Z.of_nat (length (source_pages ex_open ["d1.pdf"; "d2.pdf"]%string)) /\
  build_nup_from_multiple ex_open ex_drop_alpha ex_transform_rect ex_show_pdf_page
    ["d1.pdf"; "d2.pdf"]%string ex_params (Some 0) = Raise ValueError.
Proof.
  assert (Hreach : Z.max 1 0 * Z.of_nat (slots_per_page ex_params)
                   <= Z.of_nat (length (source_pages ex_open ["d1.pdf"; "d2.pdf"]%string)))
    by (vm_compute; discriminate).
  split; [exact ex_params_wf|]. split; [exact Hreach|].
  destruct ex_build_returns as (full & Hfull & _).
  exact (proj2 (reached_bound_raises ex_open ex_drop_alpha ex_transform_rect
                  ex_show_pdf_page ["d1.pdf"; "d2.pdf"]%string ex_params 0
                  ex_params_wf Hreach) full Hfull).
Defined.

(** They do not reach the bound 2. *)
Lemma unreached_bound_changes_nothing_witness :
  wf_layout (layout ex_params) /\
  Z.of_nat (length (source_pages ex_open ["d1.pdf"; "d2.pdf"]%string))
    < Z.max 1 2 * Z.of_nat (slots_per_page ex_params) /\
  build_nup_from_multiple ex_open ex_drop_alpha ex_transform_rect ex_show_pdf_page
    ["d1.pdf"; "d2.pdf"]%string ex_params (Some 2) =
  build_nup_from_multiple ex_open ex_drop_alpha ex_transform_rect ex_show_pdf_page
    ["d1.pdf"; "d2.pdf"]%string ex_params None.
Proof.
  assert (Hk : Z.of_nat (length (source_pages ex_open ["d1.pdf"; "d2.pdf"]%string))
               < Z.max 1 2 * Z.of_nat (slots_per_page ex_params))
    by (vm_compute; reflexivity).
  split; [exact ex_params_wf|]. split; [exact Hk|].
  exact (unreached_bound_changes_nothing ex_open ex_drop_alpha ex_transform_rect
           ex_show_pdf_page ["d1.pdf"; "d2.pdf"]%string ex_params 2 ex_params_wf Hk).
Defined.

(** On the 2x2 grid of A4 with margins of 10 mm and gaps of 4 mm: slot 1 is
    in the second column of the first row, slot 3 below it. *)
Lemma slot_rects_in_order_witness :
  exists g,
    wf_layout (layout ex_params) /\
    geometry_of ex_params = Ok g /\
    (0 <= gap_mm (layout ex_params))%Q /\
    (0 <= g_cell_w g)%Q /\ (0 <= g_cell_h g)%Q /\
    0 <= 1 /\
    1 mod g_cols g <= 3 mod g_cols g /\
    1 / g_cols g <= 3 / g_cols g /\
    (g_margin g <= x0 (slot_rect g 1))%Q /\
    (x0 (slot_rect g 1) <= x1 (slot_rect g 1))%Q /\
    (x1 (slot_rect g 1) <= x1 (slot_rect g 3))%Q /\
    (y1 (slot_rect g 1) <= y1 (slot_rect g 3))%Q.
Proof.
  destruct (geometry_of_wf ex_params ex_params_wf) as (g & Hg & _).
  assert (Hgap : (0 <= gap_mm (layout ex_params))%Q) by discriminate.
  assert (Hcell : (0 <= g_cell_w g)%Q /\ (0 <= g_cell_h g)%Q /\
                  1 mod g_cols g <= 3 mod g_cols g /\ 1 / g_cols g <= 3 / g_cols g).
  { vm_compute in Hg. injection Hg as <-. repeat split; vm_compute; discriminate. }
  destruct Hcell as (Hw & Hh & Hcol & Hrow).
  assert (Hs : 0 <= 1) by lia.
  destruct (slot_rects_in_order ex_params g 1 3 ex_params_wf Hg Hgap Hw Hh Hs)
    as ((Hm & Hx & _ & _) & Hcols & Hrows).
  exists g. split; [exact ex_params_wf|]. split; [exact Hg|]. split; [exact Hgap|].
  split; [exact Hw|]. split; [exact Hh|]. split; [exact Hs|].
  split; [exact Hcol|]. split; [exact Hrow|]. split; [exact Hm|]. split; [exact Hx|].
  split; [exact (proj2 (Hcols Hcol)) | exact (proj2 (Hrows Hrow))].
Defined.

Lemma build_of_empty_grid_witness :
  auto_readable (layout ex_params_no_cols) = false /\
  cols (layout ex_params_no_cols) = 0 /\
  build_nup_from_multiple ex_open ex_drop_alpha ex_transform_rect ex_show_pdf_page
    [] ex_params_no_cols None = Raise ZeroDivisionError.
Proof.
  split; [reflexivity|]. split; [reflexivity|].
  exact (build_of_empty_grid ex_open ex_drop_alpha ex_transform_rect ex_show_pdf_page
           [] ex_params_no_cols None eq_refl (or_intror eq_refl)).
Defined.

Lemma build_raises_at_first_rejection_witness :
  wf_layout (layout ex_params) /\
  source_pages ex_open_torn ["torn.pdf"]%string
    = [("torn.pdf"%string, 0%nat, ex_page 595 842)]
      ++ ("torn.pdf"%string, 1%nat, ex_page 0 0)
      :: [("torn.pdf"%string, 2%nat, ex_page 595 842)] /\
  build_nup_from_multiple ex_open_torn ex_drop_alpha ex_transform_rect ex_show_pdf_page
    ["torn.pdf"]%string ex_params None = Raise FitzError.
Proof.
  split; [exact ex_params_wf|]. split; [reflexivity|].
  destruct (geometry_of ex_params) as [g|e] eqn:Hg; [|discriminate Hg].
  apply (build_raises_at_first_rejection ex_open_torn ex_drop_alpha ex_transform_rect
           ex_show_pdf_page ["torn.pdf"]%string ex_params g
           [("torn.pdf"%string, 0%nat, ex_page 595 842)]
           [("torn.pdf"%string, 2%nat, ex_page 595 842)]
           ("torn.pdf"%string, 1%nat, ex_page 0 0) FitzError ex_params_wf Hg eq_refl).
  - intros j item Hj. destruct j as [|[|j]]; try discriminate Hj.
    injection Hj as <-. vm_compute in Hg. injection Hg as <-. reflexivity.
  - vm_compute in Hg. injection Hg as <-. reflexivity.
Defined.

Lemma placements_match_page_count_witness :
  exists out,
    build_nup_from_multiple ex_open ex_drop_alpha ex_transform_rect ex_show_pdf_page
      ["d1.pdf"; "corrupt.pdf"; "d2.pdf"]%string ex_params None = Ok out /\
    Z.of_nat (length (concat (map (fun page => shown (ops page)) out))) = 5 /\
    count_input_pages ex_open ["d1.pdf"; "corrupt.pdf"; "d2.pdf"]%string = 5.
Proof.
  assert (Hbuild : exists out,
             build_nup_from_multiple ex_open ex_drop_alpha ex_transform_rect
               ex_show_pdf_page ["d1.pdf"; "corrupt.pdf"; "d2.pdf"]%string ex_params None
             = Ok out)
    by (vm_compute; eexists; reflexivity).
  destruct Hbuild as (out & Hbuild).
  exists out. split; [exact Hbuild|].
  rewrite (placements_match_page_count ex_open ex_drop_alpha ex_transform_rect
             ex_show_pdf_page ["d1.pdf"; "corrupt.pdf"; "d2.pdf"]%string ex_params out
             ex_params_wf Hbuild).
  split; reflexivity.
Defined.

Lemma move_up_then_down_witness :
  (fun r => Nat.eqb r 1 || Nat.eqb r 2) 0%nat = false /\
  move_up ["a"; "b"; "c"; "d"]%string (fun r => Nat.eqb r 1 || Nat.eqb r 2)
    = ["b"; "c"; "a"; "d"]%string /\
  move_down ["b"; "c"; "a"; "d"]%string (fun r => Nat.eqb (S r) 1 || Nat.eqb (S r) 2)
    = ["a"; "b"; "c"; "d"]%string.
Proof.
  split; [reflexivity|]. split; [reflexivity|].
  exact (move_up_then_down ["a"; "b"; "c"; "d"]%string
           (fun r => Nat.eqb r 1 || Nat.eqb r 2) eq_refl).
Defined.

Lemma page_actions_stay_in_range_witness :
  page_in_range [mkOutPage 595 842 []; mkOutPage 595 842 []] 0 /\
  exists current',
    for_in [NextPage; NextPage; JumpTo (Some 7); PrevPage; JumpTo None] page_action
           (mkPreview (Some [mkOutPage 595 842 []; mkOutPage 595 842 []]) 0)
      = Ok (mkPreview (Some [mkOutPage 595 842 []; mkOutPage 595 842 []]) current') /\
    page_in_range [mkOutPage 595 842 []; mkOutPage 595 842 []] current'.
Proof.
  assert (H : page_in_range [mkOutPage 595 842 []; mkOutPage 595 842 []] 0)
    by (unfold page_in_range; cbn; lia).
  split; [exact H|].
  exact (page_actions_stay_in_range [mkOutPage 595 842 []; mkOutPage 595 842 []]
           [NextPage; NextPage; JumpTo (Some 7); PrevPage; JumpTo None] 0 H).
Defined.

Lemma applyZoom_clamps_witness :
  (0 < _scale (mkPreviewView true 9))%Q /\
  exists v', _applyZoom (mkPreviewView true 9) (125 # 100) = Ok v' /\
             (5 # 100 <= _scale v' <= 10)%Q.
Proof.
  assert (H : (0 < _scale (mkPreviewView true 9))%Q) by reflexivity.
  split; [exact H|].
  exact (applyZoom_clamps (mkPreviewView true 9) (125 # 100) H eq_refl).
Defined.

Lemma zoom_actions_keep_scale_positive_witness :
  (0 < _scale (mkPreviewView true 1))%Q /\
  exists v',
    for_in [ZoomOut; FitWidth 820 1190; Wheel (-120); FitWidth 10 1190; ResetZoom; ZoomIn]
           zoom_action (mkPreviewView true 1) = Ok v' /\
    (0 < _scale v')%Q.
Proof.
  assert (H : (0 < _scale (mkPreviewView true 1))%Q) by reflexivity.
  split; [exact H|].
  exact (zoom_actions_keep_scale_positive
           [ZoomOut; FitWidth 820 1190; Wheel (-120); FitWidth 10 1190; ResetZoom; ZoomIn]
           (mkPreviewView true 1) H).
Defined.

Lemma nonwhite_bbox_pixmap_grows_witness :
  245 <= 256 /\
  nonwhite_bbox_pixmap ex_drop_alpha ex_dotted_pixmap 245 = Some (mkRect 5 5 6 6) /\
  nonwhite_bbox_pixmap ex_drop_alpha ex_dotted_pixmap 256 = Some (mkRect 0 0 10 10) /\
  exists b2,
    nonwhite_bbox_pixmap ex_drop_alpha ex_dotted_pixmap 256 = Some b2 /\
    Rect_within (mkRect 5 5 6 6) b2.
Proof.
  assert (Ht : 245 <= 256) by lia.
  split; [exact Ht|]. split; [reflexivity|]. split; [reflexivity|].
  exact (nonwhite_bbox_pixmap_grows ex_drop_alpha ex_dotted_pixmap 245 256
           (mkRect 5 5 6 6) Ht eq_refl).
Defined.

Lemma nonwhite_bbox_pixmap_in_pixmap_witness :
  nonwhite_bbox_pixmap ex_drop_alpha ex_dotted_pixmap 245 = Some (mkRect 5 5 6 6) /\
  exists p,
    without_alpha ex_drop_alpha ex_dotted_pixmap = Ok p /\
    Rect_within (mkRect 5 5 6 6)
      (mkRect 0 0 (of_int (Z.of_nat (width p))) (of_int (Z.of_nat (height p)))) /\
    is_empty (mkRect 5 5 6 6) = false /\
    falsy (Some (mkRect 5 5 6 6)) = false.
Proof.
  split; [reflexivity|].
  exact (nonwhite_bbox_pixmap_in_pixmap ex_drop_alpha ex_dotted_pixmap 245
           (mkRect 5 5 6 6) eq_refl).
Defined.
